(** * Recurring event materialisation of talawa-api

    A shallow embedding of

    - [src/graphql/types/Event/recurringEventHelpers.ts]
      ([FREQ_MAP], [WEEKDAY_MAP], [generateRecurrenceRuleString],
      [getRecurringInstanceDates]),
    - [src/graphql/types/Mutation/createEvent.ts] (the argument schema and the
      [createEvent] resolver),
    - the columns of [src/drizzle/tables/events.ts] and
      [src/drizzle/tables/recurrenceRules.ts] that the resolver writes,
    - the [recurrenceRule] field resolver of the [Event] type and the zod
      schema [recurrenceInputSchema] of the [recurrence] argument,

    followed by the properties of the specification that concern them.

    Conventions.  A JavaScript [Date] is the integer [getTime()] gives: the
    milliseconds since 1970-01-01T00:00:00Z, in [Z].  JavaScript numbers that
    the API declares as integers are in [Z].  [undefined] and [null] are
    [None].  An exception is the [Err] branch of [Result].  The wall clock
    ([new Date()]) is an explicit argument [now]. *)

From Stdlib Require Import ZArith List String Ascii Bool Lia DecimalString Sorted.
From Stdlib Require Import DecimalZ DecimalPos.
Import ListNotations.

Local Open Scope string_scope.
Local Open Scope list_scope.
Local Open Scope Z_scope.

(** ** Exceptions *)

(** An issue of a [TalawaGraphQLError]: a path into the arguments and,
    for [invalid_arguments], a message. *)
Inductive PathSegment : Type :=
| Key (k : string)
| Index (i : nat).

Record Issue : Type := mkIssue {
  argumentPath : list PathSegment;
  message : option string
}.

(** The [extensions.code] values the resolver raises. *)
Inductive ErrorCode : Type :=
| unauthenticated
| invalid_arguments
| arguments_associated_resources_not_found
| unauthorized_action_on_arguments_associated_resources
| unexpected.

(** What a [throw] can carry in the embedded code. *)
Inductive Exception : Type :=
| TalawaGraphQLError (code : ErrorCode) (issues : list Issue)
| JsError (msg : string)      (* [new Error(msg)] *)
| JsTypeError (msg : string)  (* a property read on [undefined] *)
| JsSyntaxError (msg : string)
| OutsideFragment (what : string).
  (* raised by the model of [rrulestr] only: the text is accepted by the rrule
     package but lies outside the grammar fragment embedded below *)

Inductive Result (A : Type) : Type :=
| Ok (a : A)
| Err (e : Exception).

Arguments Ok {A} a.
Arguments Err {A} e.

Definition bindR {A B : Type} (r : Result A) (k : A -> Result B) : Result B :=
  match r with
  | Ok a => k a
  | Err e => Err e
  end.

Fixpoint mapR {A B : Type} (f : A -> Result B) (l : list A) : Result (list B) :=
  match l with
  | [] => Ok []
  | x :: xs =>
      bindR (f x) (fun y => bindR (mapR f xs) (fun ys => Ok (y :: ys)))
  end.

(** ** Civil calendar (UTC getters of [Date]) *)

Module Calendar.

Definition msPerDay : Z := 86400000.

(** Day number (days since 1970-01-01) and millisecond within the day. *)
Definition dayOf (t : Z) : Z := t / msPerDay.
Definition msOfDay (t : Z) : Z := t mod msPerDay.

(** Proleptic Gregorian calendar: day number of [y]-[m]-[d] ([m] in 1..12). *)
Definition daysFromCivil (y m d : Z) : Z :=
  let y' := if m <=? 2 then y - 1 else y in
  let era := y' / 400 in
  let yoe := y' - era * 400 in
  let mp := if 2 <? m then m - 3 else m + 9 in
  let doy := (153 * mp + 2) / 5 + d - 1 in
  let doe := yoe * 365 + yoe / 4 - yoe / 100 + doy in
  era * 146097 + doe - 719468.

(** Inverse: (year, month 1..12, day of month 1..31) of a day number. *)
Definition civilFromDays (z : Z) : Z * Z * Z :=
  let z' := z + 719468 in
  let era := z' / 146097 in
  let doe := z' - era * 146097 in
  let yoe := (doe - doe / 1460 + doe / 36524 - doe / 146096) / 365 in
  let doy := doe - (365 * yoe + yoe / 4 - yoe / 100) in
  let mp := (5 * doy + 2) / 153 in
  let d := doy - (153 * mp + 2) / 5 + 1 in
  let m := if mp <? 10 then mp + 3 else mp - 9 in
  let y := yoe + era * 400 in
  (if m <=? 2 then y + 1 else y, m, d).

Definition yearOfDay (z : Z) : Z := fst (fst (civilFromDays z)).
Definition monthOfDay (z : Z) : Z := snd (fst (civilFromDays z)).
Definition mdayOfDay (z : Z) : Z := snd (civilFromDays z).

(** Weekday with Monday = 0 ... Sunday = 6 (the numbering of rrule and of
    [WEEKDAY_MAP]); 1970-01-01 was a Thursday. *)
Definition weekdayOfDay (z : Z) : Z := (z + 3) mod 7.

Definition isLeap (y : Z) : bool :=
  ((y mod 4 =? 0) && negb (y mod 100 =? 0)) || (y mod 400 =? 0).

Definition daysInMonth (y m : Z) : Z :=
  if m =? 2 then (if isLeap y then 29 else 28)
  else if (m =? 4) || (m =? 6) || (m =? 9) || (m =? 11) then 30
  else 31.

(** [Date.UTC(y, m-1, d, hh, mi, ss)]. *)
Definition utc (y m d hh mi ss : Z) : Z :=
  daysFromCivil y m d * msPerDay + ((hh * 60 + mi) * 60 + ss) * 1000.

Definition getUTCFullYear (t : Z) : Z := yearOfDay (dayOf t).
Definition getUTCMonth1 (t : Z) : Z := monthOfDay (dayOf t). (* getUTCMonth()+1 *)
Definition getUTCDate (t : Z) : Z := mdayOfDay (dayOf t).
Definition getUTCHours (t : Z) : Z := msOfDay t / 3600000.
Definition getUTCMinutes (t : Z) : Z := (msOfDay t / 60000) mod 60.
Definition getUTCSeconds (t : Z) : Z := (msOfDay t / 1000) mod 60.

End Calendar.

(** ** Text helpers (JavaScript string primitives used by the code) *)

Module Text.

(** [String(n)] for an integer [n]. *)
Definition ofZ (n : Z) : string := NilZero.string_of_int (Z.to_int n).

(** [Number(s)] for a text matching [/^[+-]?\d+$/]; [None] otherwise. *)
Definition toZ (s : string) : option Z :=
  let digits := match s with
                | String "+" rest => match rest with
                                     | String "-" _ => EmptyString
                                     | String "+" _ => EmptyString
                                     | _ => rest
                                     end
                | _ => s
                end in
  match NilZero.int_of_string digits with
  | Some i => Some (Z.of_int i)
  | None => None
  end.

Fixpoint repeat0 (n : nat) : string :=
  match n with
  | O => EmptyString
  | S k => String "0" (repeat0 k)
  end.

(** [padStart(s, width, '0')]. *)
Definition padStart (s : string) (width : nat) : string :=
  (repeat0 (width - String.length s) ++ s)%string.

(** [l.join(sep)]. *)
Fixpoint join (sep : string) (l : list string) : string :=
  match l with
  | [] => EmptyString
  | [x] => x
  | x :: xs => (x ++ sep ++ join sep xs)%string
  end.

(** [s.split(c)] for a one-character separator: never the empty list. *)
Fixpoint split (c : ascii) (s : string) : list string :=
  match s with
  | EmptyString => [EmptyString]
  | String a rest =>
      if Ascii.eqb a c then EmptyString :: split c rest
      else match split c rest with
           | [] => [String a EmptyString]
           | x :: xs => String a x :: xs
           end
  end.

(** The text before and after the first occurrence of [c], if any. *)
Fixpoint breakAt (c : ascii) (s : string) : option (string * string) :=
  match s with
  | EmptyString => None
  | String a rest =>
      if Ascii.eqb a c then Some (EmptyString, rest)
      else match breakAt c rest with
           | Some (x, y) => Some (String a x, y)
           | None => None
           end
  end.

Definition isDigit (a : ascii) : bool :=
  let n := nat_of_ascii a in (48 <=? n)%nat && (n <=? 57)%nat.

Definition isUpper (a : ascii) : bool :=
  let n := nat_of_ascii a in (65 <=? n)%nat && (n <=? 90)%nat.

Fixpoint allDigits (s : string) : bool :=
  match s with
  | EmptyString => true
  | String a rest => isDigit a && allDigits rest
  end.

(** A run of exactly [String.length s] decimal digits read as a number. *)
Definition digitsToZ (s : string) : option Z :=
  if allDigits s then
    match NilZero.uint_of_string s with
    | Some u => Some (Z.of_uint u)
    | None => None
    end
  else None.

Definition newline : ascii := "010"%char.

(** Does the character [c] occur in [s]? *)
Fixpoint contains (c : ascii) (s : string) : bool :=
  match s with
  | EmptyString => false
  | String a rest => Ascii.eqb a c || contains c rest
  end.

(** Letters, digits, commas and minus signs: the characters of the keys and
    values of an encoded rule. *)
Definition plainChar (a : ascii) : bool :=
  let n := nat_of_ascii a in
  isDigit a || isUpper a
  || ((97 <=? n)%nat && (n <=? 122)%nat)
  || Ascii.eqb a "," || Ascii.eqb a "-".

Fixpoint plain (s : string) : bool :=
  match s with
  | EmptyString => true
  | String a rest => plainChar a && plain rest
  end.

End Text.

(** ** The rrule package

    [recurringEventHelpers.ts] delegates to the npm package [rrule]
    ([new RRule(options)], [RRule.prototype.toString], [rrulestr],
    [RRule.prototype.between]).  The package is an external dependency; this
    module models the part of it the repository exercises, after the package's
    documented behaviour (iCalendar RFC 5545 recurrence rules, as ported from
    python-dateutil):

    - only the option keys the repository ever sets to a non-null value:
      [freq], [interval], [dtstart], [count], [until], [bymonth],
      [bymonthday], [byweekday]; the week starts on Monday ([wkst] null);
    - [rrulestr] reads the grammar [toString] writes for such options; any
      other text gives [OutsideFragment];
    - a non-positive [interval], on which the package's iteration does not
      advance, yields no occurrence here. *)

Module RRule.

Import Calendar.

(** [RRule.YEARLY] = 0, ..., [RRule.SECONDLY] = 6. *)
Inductive Frequency : Type :=
| YEARLY | MONTHLY | WEEKLY | DAILY | HOURLY | MINUTELY | SECONDLY.

(** [RRule.FREQUENCIES[n]]. *)
Definition frequencyOfNumber (n : Z) : option Frequency :=
  if n =? 0 then Some YEARLY
  else if n =? 1 then Some MONTHLY
  else if n =? 2 then Some WEEKLY
  else if n =? 3 then Some DAILY
  else if n =? 4 then Some HOURLY
  else if n =? 5 then Some MINUTELY
  else if n =? 6 then Some SECONDLY
  else None.

Definition frequencyName (f : Frequency) : string :=
  match f with
  | YEARLY => "YEARLY" | MONTHLY => "MONTHLY" | WEEKLY => "WEEKLY"
  | DAILY => "DAILY" | HOURLY => "HOURLY" | MINUTELY => "MINUTELY"
  | SECONDLY => "SECONDLY"
  end.

Definition frequencyOfName (s : string) : option Z :=
  if String.eqb s "YEARLY" then Some 0
  else if String.eqb s "MONTHLY" then Some 1
  else if String.eqb s "WEEKLY" then Some 2
  else if String.eqb s "DAILY" then Some 3
  else if String.eqb s "HOURLY" then Some 4
  else if String.eqb s "MINUTELY" then Some 5
  else if String.eqb s "SECONDLY" then Some 6
  else None.

(** What an element of the [byweekday] array can be at run time.  The
    TypeScript type says [number]; the cast in [generateRecurrenceRuleString]
    lets two other values through. *)
Inductive JsWeekday : Type :=
| WdNumber (n : Z)
| WdUndefined
| WdObject.
  (* an object or function without [n] and [weekday] properties: what a
     property inherited from [Object.prototype] evaluates to *)

(** The [Options] object, restricted to the keys the repository sets. *)
Record Options : Type := mkOptions {
  freq : Z;
  interval : Z;
  dtstart : option Z;
  count : option Z;
  until : option Z;
  bymonth : option (list Z);
  bymonthday : option (list Z);
  byweekday : option (list JsWeekday)
}.

(** [rule.options]: the options after [parseOptions]. *)
Record ParsedOptions : Type := mkParsed {
  pfreq : Frequency;
  pinterval : Z;
  pdtstart : Z;
  pcount : option Z;
  puntil : option Z;
  pbymonth : list Z;
  pbymonthday : list Z;
  pbynmonthday : list Z;
  pbyweekday : list (option Z)
}.

Record t : Type := mkRRule {
  origOptions : Options;
  options : ParsedOptions
}.

(** [ALL_WEEKDAYS]. *)
Definition ALL_WEEKDAYS : list string :=
  ["MO"; "TU"; "WE"; "TH"; "FR"; "SA"; "SU"].

(** The loop of [parseOptions] over the [byweekday] array: a number is kept;
    of anything else the properties [n] and [weekday] are read, which throws
    on [undefined] and gives [undefined] twice on an object without them. *)
Definition parseWeekdayEntry (w : JsWeekday) : Result (option Z) :=
  match w with
  | WdNumber n => Ok (Some n)
  | WdUndefined =>
      Err (JsTypeError "Cannot read properties of undefined (reading 'n')")
  | WdObject => Ok None
  end.

(** [parseOptions], called by the constructor. *)
Definition parseOptions (now : Z) (o : Options) : Result ParsedOptions :=
  match frequencyOfNumber (freq o) with
  | None => Err (JsError "Invalid frequency")
  | Some f =>
      let start := match dtstart o with
                   | Some d => d
                   | None => now - now mod 1000
                   end in
      (* with neither BYMONTHDAY nor BYDAY the start date supplies them *)
      let defaulted := match bymonthday o, byweekday o with
                       | None, None => true
                       | _, _ => false
                       end in
      let month := match bymonth o with
                   | Some l => l
                   | None => match f with
                             | YEARLY => if defaulted then [getUTCMonth1 start]
                                         else []
                             | _ => []
                             end
                   end in
      let mdays := match bymonthday o with
                   | Some l => l
                   | None => match f with
                             | YEARLY | MONTHLY =>
                                 if defaulted then [getUTCDate start] else []
                             | _ => []
                             end
                   end in
      let wdays := match byweekday o with
                   | Some l => mapR parseWeekdayEntry l
                   | None => match f with
                             | WEEKLY =>
                                 if defaulted
                                 then Ok [Some (weekdayOfDay (dayOf start))]
                                 else Ok []
                             | _ => Ok []
                             end
                   end in
      bindR wdays (fun wd =>
        Ok {| pfreq := f;
              pinterval := interval o;
              pdtstart := start;
              pcount := count o;
              puntil := until o;
              pbymonth := month;
              pbymonthday := filter (fun v => 0 <? v) mdays;
              pbynmonthday := filter (fun v => v <? 0) mdays;
              pbyweekday := wd |})
  end.

(** [new RRule(options)]. *)
Definition construct (now : Z) (o : Options) : Result t :=
  bindR (parseOptions now o) (fun p => Ok {| origOptions := o; options := p |}).

(** *** Serialisation: [toString] *)

(** [timeToUntilString(time, true)]: [YYYYMMDDTHHMMSSZ]. *)
Definition timeToUntilString (time : Z) : string :=
  (Text.padStart (Text.ofZ (getUTCFullYear time)) 4
   ++ Text.padStart (Text.ofZ (getUTCMonth1 time)) 2
   ++ Text.padStart (Text.ofZ (getUTCDate time)) 2
   ++ "T"
   ++ Text.padStart (Text.ofZ (getUTCHours time)) 2
   ++ Text.padStart (Text.ofZ (getUTCMinutes time)) 2
   ++ Text.padStart (Text.ofZ (getUTCSeconds time)) 2
   ++ "Z")%string.

(** [new Weekday(w).toString()] as [Array.prototype.toString] renders it. *)
Definition weekdayToString (w : JsWeekday) : string :=
  match w with
  | WdNumber n =>
      if (0 <=? n) && (n <? 7) then nth (Z.to_nat n) ALL_WEEKDAYS "undefined"
      else "undefined"
  | _ => "undefined"
  end.

Definition numbersToString (l : list Z) : string :=
  Text.join "," (map Text.ofZ l).

(** The [KEY=value] pairs of the RRULE line, in the key order of the object
    literal of [generateRecurrenceRuleString]: [freq], [interval], [count],
    [until], [bymonth], [bymonthday], [byweekday].  A null value, an empty
    array and an empty rendering are skipped. *)
Definition ruleFields (o : Options) : list (string * string) :=
  let opt {A : Type} (k : string) (v : option A) (show : A -> string) :=
    match v with
    | Some a => if String.eqb (show a) EmptyString then [] else [(k, show a)]
    | None => []
    end in
  (match frequencyOfNumber (freq o) with
   | Some f => [("FREQ", frequencyName f)]
   | None => []
   end)
  ++ [("INTERVAL", Text.ofZ (interval o))]
  ++ opt "COUNT" (count o) Text.ofZ
  ++ opt "UNTIL" (until o) timeToUntilString
  ++ opt "BYMONTH" (bymonth o) numbersToString
  ++ opt "BYMONTHDAY" (bymonthday o) numbersToString
  ++ opt "BYDAY" (byweekday o)
       (fun l => Text.join "," (map weekdayToString l)).

Definition renderField (kv : string * string) : string :=
  (fst kv ++ "=" ++ snd kv)%string.

(** [optionsToString]. *)
Definition optionsToString (o : Options) : string :=
  let dtstartLine := match dtstart o with
                     | Some d => ["DTSTART:" ++ timeToUntilString d]%string
                     | None => []
                     end in
  let rules := Text.join ";" (map renderField (ruleFields o)) in
  let ruleLine := if String.eqb rules EmptyString then []
                  else ["RRULE:" ++ rules]%string in
  Text.join (String Text.newline EmptyString) (dtstartLine ++ ruleLine).

(** [rule.toString()]. *)
Definition toString (r : t) : string := optionsToString (origOptions r).

(** *** Parsing: [rrulestr] *)

Definition toUpperChar (a : ascii) : ascii :=
  let n := nat_of_ascii a in
  if (97 <=? n)%nat && (n <=? 122)%nat then ascii_of_nat (n - 32) else a.

Fixpoint toUpperCase (s : string) : string :=
  match s with
  | EmptyString => EmptyString
  | String a rest => String (toUpperChar a) (toUpperCase rest)
  end.

(** [untilStringToDate]: [YYYYMMDD], optionally followed by [THHMMSS] and
    [Z].  A month outside 1..12, which [Date.UTC] would carry over into the
    year, is left outside the fragment. *)
Definition untilStringToDate (s : string) : Result Z :=
  let bad := Err (JsError "Invalid UNTIL value") in
  let len := String.length s in
  let num (i n : nat) :=
    let sub := String.substring i n s in
    if Nat.eqb (String.length sub) n then Text.digitsToZ sub else None in
  let build (y m d hh mi ss : Z) : Result Z :=
    if (1 <=? m) && (m <=? 12) then Ok (utc y m d hh mi ss)
    else Err (OutsideFragment "month carried over by Date.UTC") in
  match num 0%nat 4%nat, num 4%nat 2%nat, num 6%nat 2%nat with
  | Some y, Some m, Some d =>
      if Nat.eqb len 8 then build y m d 0 0 0
      else if (Nat.eqb len 15
               || (Nat.eqb len 16
                   && String.eqb (String.substring 15 1 s) "Z"))
              && String.eqb (String.substring 8 1 s) "T"
      then match num 9%nat 2%nat, num 11%nat 2%nat, num 13%nat 2%nat with
           | Some hh, Some mi, Some ss => build y m d hh mi ss
           | _, _, _ => bad
           end
      else bad
  | _, _, _ => bad
  end.

(** [Days[day]] for a two-letter text. *)
Fixpoint indexOfString (x : string) (l : list string) (i : Z) : option Z :=
  match l with
  | [] => None
  | y :: ys => if String.eqb x y then Some i else indexOfString x ys (i + 1)
  end.

(** Does [day] match [/^([+-]?\d{1,2})([A-Z]{2})$/] (an ordinal weekday such
    as [-1FR])? *)
Definition isOrdinalWeekday (day : string) : bool :=
  let body := match day with
              | String "+" rest => rest
              | String "-" rest => rest
              | _ => day
              end in
  let check (digits : nat) :=
    Nat.eqb (String.length body) (digits + 2)
    && Text.allDigits (String.substring 0 digits body)
    && match String.substring digits 2 body with
       | String a (String b EmptyString) => Text.isUpper a && Text.isUpper b
       | _ => false
       end in
  check 1%nat || check 2%nat.

(** One element of [parseWeekday].  [Days.MO] ... [Days.SU] are [Weekday]
    objects without [n], which [parseOptions] treats as their number. *)
Definition parseWeekdayCode (day : string) : Result JsWeekday :=
  if Nat.eqb (String.length day) 2 then
    match indexOfString day ALL_WEEKDAYS 0 with
    | Some n => Ok (WdNumber n)
    | None => Ok WdUndefined
    end
  else if isOrdinalWeekday day
  then Err (OutsideFragment "ordinal weekday")
  else Err (JsSyntaxError "Invalid weekday string").

(** [parseNumber] on a value that must be one integer. *)
Definition parseScalar (value : string) : Result Z :=
  match Text.toZ value with
  | Some n => Ok n
  | None => Err (OutsideFragment "non-numeric value")
  end.

(** [parseNumber] on a value that may be a comma-separated list. *)
Definition parseNumbers (value : string) : Result (list Z) :=
  mapR parseScalar (Text.split "," value).

(** One [KEY=value] attribute of [parseRrule]. *)
Definition parseAttr (o : Options) (attr : string) : Result Options :=
  match Text.split "=" attr with
  | key :: value :: _ =>
      let k := toUpperCase key in
      if String.eqb k "FREQ" then
        match frequencyOfName (toUpperCase value) with
        | Some n => Ok (mkOptions n (interval o) (dtstart o) (count o)
                          (until o) (bymonth o) (bymonthday o) (byweekday o))
        | None => Err (JsError "Invalid frequency")
        end
      else if String.eqb k "INTERVAL" then
        bindR (parseScalar value) (fun n =>
          Ok (mkOptions (freq o) n (dtstart o) (count o)
                (until o) (bymonth o) (bymonthday o) (byweekday o)))
      else if String.eqb k "COUNT" then
        bindR (parseScalar value) (fun n =>
          Ok (mkOptions (freq o) (interval o) (dtstart o) (Some n)
                (until o) (bymonth o) (bymonthday o) (byweekday o)))
      else if String.eqb k "UNTIL" then
        bindR (untilStringToDate value) (fun d =>
          Ok (mkOptions (freq o) (interval o) (dtstart o) (count o)
                (Some d) (bymonth o) (bymonthday o) (byweekday o)))
      else if String.eqb k "BYMONTH" then
        bindR (parseNumbers value) (fun l =>
          Ok (mkOptions (freq o) (interval o) (dtstart o) (count o)
                (until o) (Some l) (bymonthday o) (byweekday o)))
      else if String.eqb k "BYMONTHDAY" then
        bindR (parseNumbers value) (fun l =>
          Ok (mkOptions (freq o) (interval o) (dtstart o) (count o)
                (until o) (bymonth o) (Some l) (byweekday o)))
      else if String.eqb k "BYDAY" || String.eqb k "BYWEEKDAY" then
        bindR (mapR parseWeekdayCode (Text.split "," value)) (fun l =>
          Ok (mkOptions (freq o) (interval o) (dtstart o) (count o)
                (until o) (bymonth o) (bymonthday o) (Some l)))
      else Err (OutsideFragment "RRULE property")
  | _ => Err (OutsideFragment "attribute without a value")
  end.

Fixpoint parseAttrs (o : Options) (attrs : list string) : Result Options :=
  match attrs with
  | [] => Ok o
  | a :: rest => bindR (parseAttr o a) (fun o' => parseAttrs o' rest)
  end.

(** The state of [parseInput]: the options read so far and the number of
    RRULE lines seen. *)
Definition parseLine (st : Options * nat) (line : string)
  : Result (Options * nat) :=
  let (o, n) := st in
  if String.eqb line EmptyString then Ok st
  else
    match Text.breakAt ":" line with
    | None =>
        bindR (parseAttrs o (Text.split ";" line)) (fun o' => Ok (o', S n))
    | Some (name, value) =>
        let k := toUpperCase name in
        if String.eqb k "RRULE" then
          bindR (parseAttrs o (Text.split ";" value))
                (fun o' => Ok (o', S n))
        else if String.eqb k "DTSTART" then
          bindR (untilStringToDate value) (fun d =>
            Ok (mkOptions (freq o) (interval o) (Some d) (count o)
                  (until o) (bymonth o) (bymonthday o) (byweekday o), n))
        else Err (OutsideFragment "property")
    end.

Fixpoint parseLines (st : Options * nat) (lines : list string)
  : Result (Options * nat) :=
  match lines with
  | [] => Ok st
  | l :: rest => bindR (parseLine st l) (fun st' => parseLines st' rest)
  end.

(** [DEFAULT_OPTIONS]: yearly, every period, nothing else set. *)
Definition DEFAULT_OPTIONS : Options :=
  mkOptions 0 1 None None None None None None.

(** [rrulestr(s)] on a text with one RRULE line and at most a DTSTART line. *)
Definition rrulestr (now : Z) (s : string) : Result t :=
  if String.eqb s EmptyString then Err (JsError "Invalid empty string")
  else
    bindR (parseLines (DEFAULT_OPTIONS, O) (Text.split Text.newline s))
      (fun st =>
         match snd st with
         | 1%nat => construct now (fst st)
         | _ => Err (OutsideFragment "number of RRULE lines")
         end).

(** *** Iteration: [between] *)

Definition MAXYEAR : Z := 9999.

Definition memZ (x : Z) (l : list Z) : bool := existsb (Z.eqb x) l.

(** [isFiltered], negated: does day number [d] satisfy BYMONTH, BYDAY and
    BYMONTHDAY?  An [undefined] element of [byweekday] equals no weekday. *)
Definition dayPasses (o : ParsedOptions) (d : Z) : bool :=
  let '(y, m, md) := civilFromDays d in
  let nmd := md - daysInMonth y m - 1 in
  let wd := weekdayOfDay d in
  (match pbymonth o with [] => true | l => memZ m l end)
  && (match pbyweekday o with
      | [] => true
      | l => existsb (fun w => match w with
                               | Some n => n =? wd
                               | None => false
                               end) l
      end)
  && (match pbymonthday o, pbynmonthday o with
      | [], [] => true
      | l, nl => memZ md l || memZ nmd nl
      end).

(** [a], [a+1], ..., [a+n-1]. *)
Definition zrange (a : Z) (n : nat) : list Z :=
  map (fun i => a + Z.of_nat i) (seq 0 n).

Definition monthIndex (d : Z) : Z := yearOfDay d * 12 + (monthOfDay d - 1).

(** The day set of the [k]-th period ([getdayset]): the year, the month, the
    rest of the week (Monday to Sunday weeks, the first one starting at the
    start day) or the day that the counter date has reached after [k] steps
    of [interval]. *)
Definition periodDays (o : ParsedOptions) (k : Z) : list Z :=
  let d0 := dayOf (pdtstart o) in
  match pfreq o with
  | YEARLY =>
      let y := yearOfDay d0 + k * pinterval o in
      zrange (daysFromCivil y 1 1)
             (Z.to_nat (daysFromCivil (y + 1) 1 1 - daysFromCivil y 1 1))
  | MONTHLY =>
      let mi := monthIndex d0 + k * pinterval o in
      let y := mi / 12 in
      let m := mi mod 12 + 1 in
      zrange (daysFromCivil y m 1) (Z.to_nat (daysInMonth y m))
  | WEEKLY =>
      if k =? 0 then zrange d0 (Z.to_nat (7 - weekdayOfDay d0))
      else zrange (d0 - weekdayOfDay d0 + 7 * (k * pinterval o)) 7
  | _ => [d0 + k * pinterval o]
  end.

(** Milliseconds in one step of the sub-daily frequencies. *)
Definition unitMs (f : Frequency) : Z :=
  match f with
  | HOURLY => 3600000
  | MINUTELY => 60000
  | SECONDLY => 1000
  | _ => msPerDay
  end.

(** The candidate instants of the [k]-th period, ascending: each day of the
    day set that passes the filters, at the time of day of [dtstart]; for the
    sub-daily frequencies the one instant [k] steps after [dtstart]. *)
Definition periodInstants (o : ParsedOptions) (k : Z) : list Z :=
  match pfreq o with
  | HOURLY | MINUTELY | SECONDLY =>
      let res := pdtstart o + k * pinterval o * unitMs (pfreq o) in
      if dayPasses o (dayOf res) then [res] else []
  | _ =>
      map (fun d => d * msPerDay + msOfDay (pdtstart o))
          (filter (dayPasses o) (periodDays o k))
  end.

(** The number of periods that begin no later than [before] and no later
    than the last day of [MAXYEAR]; every later period lies beyond
    [before], where [between] stops, or beyond the year at which the
    iteration gives up. *)
Definition numPeriods (o : ParsedOptions) (before : Z) : nat :=
  let i := pinterval o in
  let d0 := dayOf (pdtstart o) in
  let lastDay := Z.min (dayOf before) (daysFromCivil MAXYEAR 12 31) in
  let upTo (distance step : Z) : nat :=
    if (distance <? 0) || (step <=? 0) then O
    else Z.to_nat (distance / step + 1) in
  match pfreq o with
  | YEARLY => upTo (yearOfDay lastDay - yearOfDay d0) i
  | MONTHLY => upTo (monthIndex lastDay - monthIndex d0) i
  | WEEKLY => upTo (lastDay - (d0 - weekdayOfDay d0)) (7 * i)
  | DAILY => upTo (lastDay - d0) i
  | f =>
      upTo (Z.min before ((daysFromCivil MAXYEAR 12 31 + 1) * msPerDay - 1)
            - pdtstart o)
           (i * unitMs f)
  end.

Definition candidates (o : ParsedOptions) (n : nat) : list Z :=
  flat_map (fun k => periodInstants o (Z.of_nat k)) (seq 0 n).

(** The body of [iter] with the [between] collector ([inc] = true), over the
    candidate instants in ascending order:
    past UNTIL the iteration ends; an instant before [dtstart] is skipped;
    an instant before [after] is skipped but counted; an instant past
    [before] ends the iteration; a counted instant decrements a non-zero
    COUNT, and the iteration ends when that reaches zero. *)
Fixpoint emit (o : ParsedOptions) (after before : Z) (cnt : option Z)
  (cands : list Z) : list Z :=
  match cands with
  | [] => []
  | res :: rest =>
      if match puntil o with Some u => u <? res | None => false end then []
      else if res <? pdtstart o then emit o after before cnt rest
      else if (after <=? res) && (before <? res) then []
      else
        let out := if res <? after then [] else [res] in
        match cnt with
        | Some c =>
            if c =? 0 then out ++ emit o after before cnt rest
            else if c - 1 =? 0 then out
            else out ++ emit o after before (Some (c - 1)) rest
        | None => out ++ emit o after before None rest
        end
  end.

(** [rule.between(after, before, true)].  [iter] returns at once when COUNT
    or INTERVAL is zero. *)
Definition between (r : t) (after before : Z) : list Z :=
  let o := options r in
  if match pcount o with Some c => c =? 0 | None => false end
     || (pinterval o =? 0)
  then []
  else emit o after before (pcount o) (candidates o (numPeriods o before)).

(** *** The fields of an encoded rule

    What a reader of a rule text finds on its RRULE line: the [KEY=value]
    attributes, separated by semicolons.  The statements about the encoder
    speak of the rule text through these. *)

Definition attrPair (attr : string) : list (string * string) :=
  match Text.breakAt "=" attr with
  | Some kv => [kv]
  | None => []
  end.

Definition ruleStringFields (s : string) : list (string * string) :=
  flat_map (fun line =>
              match Text.breakAt ":" line with
              | Some (name, attrs) =>
                  if String.eqb name "RRULE"
                  then flat_map attrPair (Text.split ";" attrs)
                  else []
              | None => []
              end)
           (Text.split Text.newline s).

Fixpoint lookupField (key : string) (fields : list (string * string))
  : option string :=
  match fields with
  | [] => None
  | (k, v) :: rest => if String.eqb key k then Some v else lookupField key rest
  end.

End RRule.

(** ** date-fns

    [addYears(date, 1)] of the external package date-fns: the same month, day
    and time of day one year later, the day clamped to the length of the
    month (29 February goes to 28 February).  date-fns works in the local
    time zone of the process; the model takes it to be UTC. *)

Module DateFns.

Import Calendar.

Definition addYears (date amount : Z) : Z :=
  let '(y, m, d) := civilFromDays (dayOf date) in
  let y' := y + amount in
  let d' := Z.min d (daysInMonth y' m) in
  daysFromCivil y' m d' * msPerDay + msOfDay date.

End DateFns.

(** ** [src/graphql/types/Event/recurringEventHelpers.ts] *)

Module RecurringEventHelpers.

(** [keyof typeof FREQ_MAP]. *)
Inductive FrequencyName : Type :=
| YEARLY | MONTHLY | WEEKLY | DAILY | HOURLY | MINUTELY | SECONDLY.

Definition FREQ_MAP (f : FrequencyName) : Z :=
  match f with
  | YEARLY => 0
  | MONTHLY => 1
  | WEEKLY => 2
  | DAILY => 3
  | HOURLY => 4
  | MINUTELY => 5
  | SECONDLY => 6
  end.

(** The own properties of [WEEKDAY_MAP]. *)
Definition WEEKDAY_OWN : list (string * Z) :=
  [("MO", 0); ("TU", 1); ("WE", 2); ("TH", 3); ("FR", 4); ("SA", 5);
   ("SU", 6)].

(** The property names every object literal inherits from
    [Object.prototype]. *)
Definition OBJECT_PROTOTYPE_KEYS : list string :=
  ["constructor"; "hasOwnProperty"; "isPrototypeOf"; "propertyIsEnumerable";
   "toLocaleString"; "toString"; "valueOf"; "__proto__";
   "__defineGetter__"; "__defineSetter__"; "__lookupGetter__";
   "__lookupSetter__"].

Fixpoint lookupOwn (day : string) (l : list (string * Z)) : option Z :=
  match l with
  | [] => None
  | (k, v) :: rest => if String.eqb day k then Some v else lookupOwn day rest
  end.

(** [WEEKDAY_MAP[day as keyof typeof WEEKDAY_MAP]] for an arbitrary text
    [day]: the cast checks nothing, so the property read yields the own
    property, else what the prototype chain of the object literal holds
    under that name, else [undefined]. *)
Definition WEEKDAY_MAP (day : string) : RRule.JsWeekday :=
  match lookupOwn day WEEKDAY_OWN with
  | Some n => RRule.WdNumber n
  | None =>
      if existsb (String.eqb day) OBJECT_PROTOTYPE_KEYS then RRule.WdObject
      else RRule.WdUndefined
  end.

Record RecurrenceInput : Type := mkRecurrenceInput {
  frequency : FrequencyName;
  interval : option Z;
  recurrenceStartDate : option Z;
  recurrenceEndDate : option Z;
  count : option Z;
  byDay : option (list string);
  byMonth : option (list Z);
  byMonthDay : option (list Z)
}.

(** [x || 1] on an optional number: zero is falsy. *)
Definition orOne (x : option Z) : Z :=
  match x with
  | Some n => if n =? 0 then 1 else n
  | None => 1
  end.

(** [if (x) ...] on an optional number. *)
Definition truthyNumber (x : option Z) : option Z :=
  match x with
  | Some n => if n =? 0 then None else Some n
  | None => None
  end.

(** [if (l && l.length > 0) ...]. *)
Definition nonEmpty {A : Type} (l : option (list A)) : option (list A) :=
  match l with
  | Some (x :: xs) => Some (x :: xs)
  | _ => None
  end.

(** The [options] object built by [generateRecurrenceRuleString]; [now] is
    [new Date()]. *)
Definition ruleOptions (now : Z) (recurrence : RecurrenceInput)
  : RRule.Options :=
  {| RRule.freq := FREQ_MAP (frequency recurrence);
     RRule.interval := orOne (interval recurrence);
     RRule.dtstart := Some match recurrenceStartDate recurrence with
                           | Some d => d
                           | None => now
                           end;
     RRule.count := truthyNumber (count recurrence);
     RRule.until := recurrenceEndDate recurrence;
     RRule.bymonth := nonEmpty (byMonth recurrence);
     RRule.bymonthday := nonEmpty (byMonthDay recurrence);
     RRule.byweekday :=
       match nonEmpty (byDay recurrence) with
       | Some l => Some (map WEEKDAY_MAP l)
       | None => None
       end |}.

Definition generateRecurrenceRuleString (now : Z)
  (recurrence : RecurrenceInput) : Result string :=
  bindR (RRule.construct now (ruleOptions now recurrence))
        (fun rule => Ok (RRule.toString rule)).

Definition getRecurringInstanceDates (now : Z) (rRuleString : string)
  (startDate : Z) (endDate queryEndDate : option Z) : Result (list Z) :=
  bindR (RRule.rrulestr now rRuleString) (fun rule =>
    let effectiveEndDate :=
      match endDate with
      | Some e => e
      | None => match queryEndDate with
                | Some q => q
                | None => DateFns.addYears now 1
                end
      end in
    let dates := RRule.between rule startDate effectiveEndDate in
    Ok dates).

End RecurringEventHelpers.

(** ** The world the resolver runs in *)

(** Identifiers ([uuidv7()], [ulid()]) are opaque; one is identified with
    the rank at which its generator issued it. *)
Definition Id : Type := nat.
Bind Scope nat_scope with Id.

Record UserRow : Type := mkUser {
  userId : Id;
  userRole : string
}.

Record OrganizationRow : Type := mkOrganization {
  orgId : Id;
  countryCode : option string
}.

Record MembershipRow : Type := mkMembership {
  memberId : Id;
  membershipOrganizationId : Id;
  membershipRole : string
}.

(** The columns of [eventsTable] the resolver writes or relies on
    ([createdAt], [updatedAt] and [updaterId] are left out). *)
Record EventRow : Type := mkEvent {
  eventId : Id;
  eventCreatorId : option Id;
  eventDescription : option string;
  eventEndAt : Z;
  eventName : string;
  eventOrganizationId : Id;
  eventStartAt : Z;
  isRecurring : bool;
  isBaseRecurringEvent : bool;
  baseRecurringEventId : option Id;
  recurrenceRuleId : option Id
}.

(** The frequencies of [recurrenceFrequencyEnum] and of the GraphQL enum
    [RecurrenceFrequency]. *)
Inductive RecurrenceFrequency : Type :=
| FreqDAILY | FreqWEEKLY | FreqMONTHLY | FreqYEARLY.

(** The columns of [recurrenceRulesTable] the resolver writes. *)
Record RecurrenceRuleRow : Type := mkRule {
  ruleId : Id;
  ruleCreatorId : option Id;
  ruleRecurrenceRuleString : string;
  ruleRecurrenceStartDate : Z;
  ruleRecurrenceEndDate : option Z;
  ruleFrequency : RecurrenceFrequency;
  ruleInterval : Z;
  ruleCount : option Z;
  ruleByDay : option (list string);
  ruleByMonth : option (list Z);
  ruleByMonthDay : option (list Z);
  ruleOrganizationId : Id;
  ruleBaseRecurringEventId : Id;
  ruleLatestInstanceDate : Z
}.

(** The columns of [eventAttachmentsTable] the resolver writes. *)
Record AttachmentRow : Type := mkAttachment {
  attachmentCreatorId : option Id;
  attachmentEventId : Id;
  attachmentMimeType : string;
  attachmentName : Id
}.

Record Db : Type := mkDb {
  usersTable : list UserRow;
  organizationsTable : list OrganizationRow;
  organizationMembershipsTable : list MembershipRow;
  eventsTable : list EventRow;
  recurrenceRulesTable : list RecurrenceRuleRow;
  eventAttachmentsTable : list AttachmentRow
}.

Definition withEvents (d : Db) (events : list EventRow) : Db :=
  mkDb (usersTable d) (organizationsTable d) (organizationMembershipsTable d)
    events (recurrenceRulesTable d) (eventAttachmentsTable d).

Definition withRules (d : Db) (rules : list RecurrenceRuleRow) : Db :=
  mkDb (usersTable d) (organizationsTable d) (organizationMembershipsTable d)
    (eventsTable d) rules (eventAttachmentsTable d).

Definition withAttachments (d : Db) (rows : list AttachmentRow) : Db :=
  mkDb (usersTable d) (organizationsTable d) (organizationMembershipsTable d)
    (eventsTable d) (recurrenceRulesTable d) rows.

(** One [minio.client.putObject(bucket, key, stream, undefined, metadata)]. *)
Record PutObject : Type := mkPut {
  putBucket : string;
  putKey : Id;
  putStream : string;
  putContentType : string
}.

Record World : Type := mkWorld {
  db : Db;
  objectStore : list PutObject;   (* the writes issued, oldest first *)
  nextUuid : Id;                  (* state of [uuidv7] *)
  nextUlid : Id                   (* state of [ulid] *)
}.

(** ** Effects: state and exceptions *)

Definition M (A : Type) : Type := World -> Result A * World.

Definition ret {A : Type} (a : A) : M A := fun w => (Ok a, w).

Definition throw {A : Type} (e : Exception) : M A := fun w => (Err e, w).

Definition bind {A B : Type} (c : M A) (k : A -> M B) : M B :=
  fun w => match c w with
           | (Ok a, w') => k a w'
           | (Err e, w') => (Err e, w')
           end.

Declare Scope m_scope.
Delimit Scope m_scope with m.
Notation "x <- c ;; k" := (bind c (fun x => k))
  (at level 100, c at next level, right associativity) : m_scope.
Notation "c ;;; k" := (bind c (fun _ => k))
  (at level 100, right associativity) : m_scope.

Definition liftR {A : Type} (r : Result A) : M A := fun w => (r, w).

Definition getDb : M Db := fun w => (Ok (db w), w).

Definition modifyDb (f : Db -> Db) : M unit :=
  fun w => (Ok tt, mkWorld (f (db w)) (objectStore w) (nextUuid w) (nextUlid w)).

Definition uuidv7 : M Id :=
  fun w => (Ok (nextUuid w),
            mkWorld (db w) (objectStore w) (S (nextUuid w)) (nextUlid w)).

Definition ulid : M Id :=
  fun w => (Ok (nextUlid w),
            mkWorld (db w) (objectStore w) (nextUuid w) (S (nextUlid w))).

Definition putObject (p : PutObject) : M unit :=
  fun w => (Ok tt,
            mkWorld (db w) (objectStore w ++ [p]) (nextUuid w) (nextUlid w)).

Fixpoint mapM {A B : Type} (f : A -> M B) (l : list A) : M (list B) :=
  match l with
  | [] => ret []
  | x :: xs => (y <- f x ;; ys <- mapM f xs ;; ret (y :: ys))%m
  end.

(** [drizzleClient.transaction(async (tx) => body)]: the rows written by a
    body that throws are rolled back; what it did outside the database
    (identifiers drawn, objects stored) stays. *)
Definition transaction {A : Type} (body : M A) : M A :=
  fun w => match body w with
           | (Ok a, w') => (Ok a, w')
           | (Err e, w') =>
               (Err e, mkWorld (db w) (objectStore w') (nextUuid w') (nextUlid w'))
           end.

(** ** [src/graphql/types/Mutation/createEvent.ts] *)

Module CreateEvent.

Import RecurringEventHelpers.

(** A resolved [FileUpload]: the declared media type and what
    [createReadStream()] delivers. *)
Record FileUpload : Type := mkFileUpload {
  mimetype : string;
  readStream : string
}.

(** The [recurrence] argument (GraphQL input type [RecurrenceInput]). *)
Record RecurrenceArg : Type := mkRecurrenceArg {
  argFrequency : RecurrenceFrequency;
  argInterval : option Z;
  argCount : option Z;
  argRecurrenceEndDate : option Z;
  argByDay : option (list string);
  argByMonth : option (list Z);
  argByMonthDay : option (list Z)
}.

(** [args.input]. *)
Record MutationCreateEventInput : Type := mkInput {
  inputName : string;
  inputDescription : option string;
  inputOrganizationId : Id;
  inputStartAt : Z;
  inputEndAt : Z;
  inputRecurrence : option RecurrenceArg;
  inputAttachments : option (list FileUpload)
}.

(** What the resolver reads of [ctx]. *)
Record Context : Type := mkContext {
  isAuthenticated : bool;
  currentUserId : Id;         (* [ctx.currentClient.user.id] *)
  bucketName : string         (* [ctx.minio.bucketName] *)
}.

(** The resolved value: the event row with its [attachments]. *)
Record EventWithAttachments : Type := mkResult {
  event : EventRow;
  attachments : list AttachmentRow
}.

Definition frequencyName (f : RecurrenceFrequency) : FrequencyName :=
  match f with
  | FreqDAILY => DAILY
  | FreqWEEKLY => WEEKLY
  | FreqMONTHLY => MONTHLY
  | FreqYEARLY => YEARLY
  end.

Definition doubleQuote : string := String (ascii_of_nat 34) EmptyString.

Definition indexed {A : Type} (l : list A) : list (nat * A) :=
  combine (seq 0 (List.length l)) l.

Section Schema.

(** The values of [eventAttachmentMimeTypeEnum]
    ([~/src/drizzle/enums/eventAttachmentMimeType], not among the sources). *)
Variable eventAttachmentMimeTypeEnum : list string.

(** [mutationCreateEventInputSchema]
    ([~/src/graphql/inputs/MutationCreateEventInput], not among the sources):
    the issues it raises, with paths relative to [input], or the parsed
    input. *)
Variable mutationCreateEventInputSchema :
  MutationCreateEventInput -> list Issue + MutationCreateEventInput.

Definition mimeTypeAllowed (m : string) : bool :=
  existsb (String.eqb m) eventAttachmentMimeTypeEnum.

(** The issue the [transform] adds for the attachment at index [i]. *)
Definition mimeTypeIssue (i : nat) (attachment : FileUpload) : Issue :=
  mkIssue [Key "attachments"; Index i]
    (Some ("Mime type " ++ doubleQuote ++ mimetype attachment ++ doubleQuote
           ++ " is not allowed.")%string).

Definition issuesOf (ia : nat * FileUpload) : list Issue :=
  if mimeTypeAllowed (mimetype (snd ia)) then []
  else [mimeTypeIssue (fst ia) (snd ia)].

(** The issues the [transform] adds: one per element that
    [eventAttachmentMimeTypeEnum.array().safeParse] rejects, at the index of
    that element. *)
Definition mimeTypeIssues (rawAttachments : list FileUpload) : list Issue :=
  flat_map issuesOf (indexed rawAttachments).

(** The [transform] of [mutationCreateEventArgumentsSchema.input]. *)
Definition transformInput (arg : MutationCreateEventInput)
  : list Issue + MutationCreateEventInput :=
  match inputAttachments arg with
  | Some rawAttachments =>
      match mimeTypeIssues rawAttachments with
      | [] => inr arg
      | issues => inl issues
      end
  | None => inr arg
  end.

Definition underInput (i : Issue) : Issue :=
  mkIssue (Key "input" :: argumentPath i) (message i).

(** [mutationCreateEventArgumentsSchema.safeParseAsync(args)]: the transform
    runs only on an input the inner schema accepts; every issue lies under
    the key [input]. *)
Definition safeParseAsync (input : MutationCreateEventInput)
  : list Issue + MutationCreateEventInput :=
  match mutationCreateEventInputSchema input with
  | inl issues => inl (map underInput issues)
  | inr arg =>
      match transformInput arg with
      | inl issues => inl (map underInput issues)
      | inr parsed => inr parsed
      end
  end.

(** *** Queries and statements *)

Definition findUser (d : Db) (id : Id) : option UserRow :=
  find (fun u => Nat.eqb (userId u) id) (usersTable d).

(** [organizationsTable.findFirst] with [membershipsWhereOrganization]
    restricted to the current user. *)
Definition findOrganization (d : Db) (organizationId user : Id)
  : option (OrganizationRow * list MembershipRow) :=
  match find (fun o => Nat.eqb (orgId o) organizationId)
             (organizationsTable d) with
  | Some o =>
      Some (o, filter (fun m => Nat.eqb (membershipOrganizationId m) (orgId o)
                                && Nat.eqb (memberId m) user)
                      (organizationMembershipsTable d))
  | None => None
  end.

(** [tx.insert(eventsTable).values(v).returning()]: [v] carries no [id],
    the column default [uuidv7] supplies it. *)
Definition insertEvent (v : Id -> EventRow) : M (list EventRow) :=
  (id <- uuidv7 ;;
   modifyDb (fun d => withEvents d (eventsTable d ++ [v id])) ;;;
   ret [v id])%m.

Definition insertRecurrenceRule (v : Id -> RecurrenceRuleRow)
  : M (list RecurrenceRuleRow) :=
  (id <- uuidv7 ;;
   modifyDb (fun d => withRules d (recurrenceRulesTable d ++ [v id])) ;;;
   ret [v id])%m.

(** [tx.insert(eventAttachmentsTable).values(vs).returning()]; drizzle
    refuses an empty batch. *)
Definition insertEventAttachments (vs : list AttachmentRow)
  : M (list AttachmentRow) :=
  match vs with
  | [] => throw (JsError "values() must be called with at least one value")
  | _ =>
      (modifyDb (fun d => withAttachments d (eventAttachmentsTable d ++ vs)) ;;;
       ret vs)%m
  end.

Definition setRecurrenceRuleId (rule : Id) (e : EventRow) : EventRow :=
  mkEvent (eventId e) (eventCreatorId e) (eventDescription e) (eventEndAt e)
    (eventName e) (eventOrganizationId e) (eventStartAt e) (isRecurring e)
    (isBaseRecurringEvent e) (baseRecurringEventId e) (Some rule).

Definition linkRule (base rule : Id) (events : list EventRow)
  : list EventRow :=
  map (fun e => if Nat.eqb (eventId e) base then setRecurrenceRuleId rule e
                else e) events.

(** [tx.update(eventsTable).set({ recurrenceRuleId }).where(id = ...)]. *)
Definition updateRecurrenceRuleId (target rule : Id) : M unit :=
  modifyDb (fun d => withEvents d (linkRule target rule (eventsTable d))).

(** *** Attachments

    The block the resolver has twice (lines 285-311 and 363-389): one row
    per attachment, named by [ulid()], owned by [createdEvent]; then one
    [putObject] per returned row whose index has an attachment. *)
Definition attachmentValues (ctx : Context) (createdEventId : Id)
  (attachment : FileUpload) (name : Id) : AttachmentRow :=
  mkAttachment (Some (currentUserId ctx)) createdEventId
    (mimetype attachment) name.

Definition putAttachment (ctx : Context) (attachment : AttachmentRow)
  (upload : FileUpload) : PutObject :=
  mkPut (bucketName ctx) (attachmentName attachment) (readStream upload)
    (attachmentMimeType attachment).

Definition persistAttachments (ctx : Context) (createdEventId : Id)
  (uploads : list FileUpload) : M (list AttachmentRow) :=
  (values <- mapM (fun attachment =>
                     name <- ulid ;;
                     ret (attachmentValues ctx createdEventId attachment name))
                  uploads ;;
   createdEventAttachments <- insertEventAttachments values ;;
   mapM (fun ia : nat * AttachmentRow =>
           match nth_error uploads (fst ia) with
           | Some upload => putObject (putAttachment ctx (snd ia) upload)
           | None => ret tt
           end)
        (indexed createdEventAttachments) ;;;
   ret createdEventAttachments)%m.

(** *** The resolver *)

Definition organizationIdIssue : list Issue :=
  [mkIssue [Key "input"; Key "organizationId"] None].

(** The [RecurrenceInput] handed to [generateRecurrenceRuleString]:
    [{ ...recurrence, frequency: recurrence.frequency || "DAILY",
       recurrenceStartDate: parsedArgs.input.startAt }].
    The frequency is a required enum value, a non-empty text, so the
    [|| "DAILY"] fallback never applies to it. *)
Definition helperInput (startAt : Z) (recurrence : RecurrenceArg)
  : RecurrenceInput :=
  mkRecurrenceInput (frequencyName (argFrequency recurrence))
    (argInterval recurrence) (Some startAt)
    (argRecurrenceEndDate recurrence) (argCount recurrence)
    (argByDay recurrence) (argByMonth recurrence) (argByMonthDay recurrence).

(** [Object.assign(createdEvent, { attachments, isRecurring: true,
    recurrenceRuleId, baseRecurringEventId })]. *)
Definition assignRecurring (createdEvent : EventRow) (rule base : Id)
  (createdEventAttachments : list AttachmentRow) : EventWithAttachments :=
  mkResult
    (mkEvent (eventId createdEvent) (eventCreatorId createdEvent)
       (eventDescription createdEvent) (eventEndAt createdEvent)
       (eventName createdEvent) (eventOrganizationId createdEvent)
       (eventStartAt createdEvent) true (isBaseRecurringEvent createdEvent)
       (Some base) (Some rule))
    createdEventAttachments.

(** The [values] of the four row inserts; the last argument is the [id] the
    column default supplies. *)
Definition baseEventValues (ctx : Context) (input : MutationCreateEventInput)
  (id : Id) : EventRow :=
  mkEvent id (Some (currentUserId ctx)) (inputDescription input)
    (inputEndAt input) (inputName input) (inputOrganizationId input)
    (inputStartAt input) true true None None.

Definition recurrenceRuleValues (ctx : Context)
  (input : MutationCreateEventInput) (recurrence : RecurrenceArg)
  (recurrenceRuleString : string) (instanceDates : list Z)
  (baseRecurringEvent : Id) (id : Id) : RecurrenceRuleRow :=
  mkRule id (Some (currentUserId ctx)) recurrenceRuleString
    (inputStartAt input) (argRecurrenceEndDate recurrence)
    (argFrequency recurrence) (orOne (argInterval recurrence))
    (argCount recurrence) (argByDay recurrence) (argByMonth recurrence)
    (argByMonthDay recurrence) (inputOrganizationId input)
    baseRecurringEvent
    (* [instanceDates[instanceDates.length - 1] || startAt] *)
    (last instanceDates (inputStartAt input)).

Definition instanceValues (ctx : Context) (input : MutationCreateEventInput)
  (firstInstance : Z) (baseRecurringEvent createdRule : Id) (id : Id)
  : EventRow :=
  let eventDuration := inputEndAt input - inputStartAt input in
  mkEvent id (Some (currentUserId ctx)) (inputDescription input)
    (firstInstance + eventDuration) (inputName input)
    (inputOrganizationId input) firstInstance true false
    (Some baseRecurringEvent) (Some createdRule).

Definition standaloneValues (ctx : Context)
  (input : MutationCreateEventInput) (id : Id) : EventRow :=
  mkEvent id (Some (currentUserId ctx)) (inputDescription input)
    (inputEndAt input) (inputName input) (inputOrganizationId input)
    (inputStartAt input) false false None None.

(** Lines 176-333: the [if (isRecurring)] block.  [Some] is a [return]
    from inside it; [None] is control leaving the block at its end. *)
Definition recurringBlock (ctx : Context) (now : Z)
  (input : MutationCreateEventInput) (recurrence : RecurrenceArg)
  : M (option EventWithAttachments) :=
  (rows <- insertEvent (baseEventValues ctx input) ;;
   match hd_error rows with
   | None => throw (TalawaGraphQLError unexpected [])
   | Some baseRecurringEvent =>
       recurrenceRuleString <-
         liftR (generateRecurrenceRuleString now
                  (helperInput (inputStartAt input) recurrence)) ;;
       let recurrenceEndDate :=
         match argRecurrenceEndDate recurrence with
         | Some e => e
         | None => DateFns.addYears now 1
         end in
       instanceDates <-
         liftR (getRecurringInstanceDates now recurrenceRuleString
                  (inputStartAt input) (Some recurrenceEndDate) None) ;;
       rules <- insertRecurrenceRule
                  (recurrenceRuleValues ctx input recurrence
                     recurrenceRuleString instanceDates
                     (eventId baseRecurringEvent)) ;;
       match hd_error rules with
       | None => throw (JsError "Expected createdRule to be defined")
       | Some createdRule =>
           updateRecurrenceRuleId (eventId baseRecurringEvent)
             (ruleId createdRule) ;;;
           match hd_error instanceDates with
           | Some firstInstance =>
               created <- insertEvent
                            (instanceValues ctx input firstInstance
                               (eventId baseRecurringEvent)
                               (ruleId createdRule)) ;;
               match inputAttachments input with
               | Some uploads =>
                   match hd_error created with
                   | None => throw (JsError "Failed to create event")
                   | Some createdEvent =>
                       createdEventAttachments <-
                         persistAttachments ctx (eventId createdEvent)
                           uploads ;;
                       ret (Some (assignRecurring createdEvent
                                    (ruleId createdRule)
                                    (eventId baseRecurringEvent)
                                    createdEventAttachments))
                   end
               | None =>
                   match hd_error created with
                   | None => throw (JsError "Failed to create event")
                   | Some createdEvent =>
                       ret (Some (assignRecurring createdEvent
                                    (ruleId createdRule)
                                    (eventId baseRecurringEvent) []))
                   end
               end
           | None => ret None
           end
       end
   end)%m.

(** Lines 335-398: the statements after the [if (isRecurring)] block. *)
Definition standaloneBlock (ctx : Context) (input : MutationCreateEventInput)
  : M EventWithAttachments :=
  (rows <- insertEvent (standaloneValues ctx input) ;;
   match hd_error rows with
   | None => throw (TalawaGraphQLError unexpected [])
   | Some createdEvent =>
       match inputAttachments input with
       | Some uploads =>
           createdEventAttachments <-
             persistAttachments ctx (eventId createdEvent) uploads ;;
           ret (mkResult createdEvent createdEventAttachments)
       | None => ret (mkResult createdEvent [])
       end
   end)%m.

(** The callback of [ctx.drizzleClient.transaction]. *)
Definition transactionBody (ctx : Context) (now : Z)
  (input : MutationCreateEventInput) : M EventWithAttachments :=
  match inputRecurrence input with
  | Some recurrence =>
      (returned <- recurringBlock ctx now input recurrence ;;
       match returned with
       | Some result => ret result
       | None => standaloneBlock ctx input
       end)%m
  | None => standaloneBlock ctx input
  end.

(** Lines 150-168: the role check. *)
Definition unauthorized (currentUser : UserRow)
  (memberships : list MembershipRow) : bool :=
  negb (String.eqb (userRole currentUser) "administrator")
  && match hd_error memberships with
     | None => true
     | Some currentUserOrganizationMembership =>
         negb (String.eqb (membershipRole currentUserOrganizationMembership)
                          "administrator")
     end.

(** [resolve(_parent, args, ctx)]; [now] is the wall clock. *)
Definition resolve (ctx : Context) (now : Z)
  (input : MutationCreateEventInput) : M EventWithAttachments :=
  if negb (isAuthenticated ctx)
  then throw (TalawaGraphQLError unauthenticated [])
  else
    match safeParseAsync input with
    | inl issues => throw (TalawaGraphQLError invalid_arguments issues)
    | inr parsedInput =>
        (d <- getDb ;;
         match findUser d (currentUserId ctx) with
         | None => throw (TalawaGraphQLError unauthenticated [])
         | Some currentUser =>
             match findOrganization d (inputOrganizationId parsedInput)
                     (currentUserId ctx) with
             | None =>
                 throw (TalawaGraphQLError
                          arguments_associated_resources_not_found
                          organizationIdIssue)
             | Some (_, memberships) =>
                 if unauthorized currentUser memberships
                 then throw (TalawaGraphQLError
                          unauthorized_action_on_arguments_associated_resources
                          organizationIdIssue)
                 else transaction (transactionBody ctx now parsedInput)
             end
         end)%m
    end.

(** *** Vocabulary of the statements *)

(** The request reaches the transaction: the client is authenticated, the
    arguments parse to [parsed], the user and the organization exist and
    the role check lets the user through. *)
Definition passesChecks (ctx : Context)
  (input parsed : MutationCreateEventInput) (w : World) : Prop :=
  isAuthenticated ctx = true
  /\ safeParseAsync input = inr parsed
  /\ exists currentUser org memberships,
       findUser (db w) (currentUserId ctx) = Some currentUser
       /\ findOrganization (db w) (inputOrganizationId parsed)
            (currentUserId ctx) = Some (org, memberships)
       /\ unauthorized currentUser memberships = false.

End Schema.

(** The attachment rows of [uploads], named from [firstName] on. *)
Definition attachmentRows (ctx : Context) (createdEventId : Id)
  (firstName : Id) (uploads : list FileUpload) : list AttachmentRow :=
  map (fun iu => attachmentValues ctx createdEventId (snd iu) (fst iu))
      (combine (seq firstName (List.length uploads)) uploads).

(** The object writes for [rows], row by row. *)
Definition attachmentPuts (ctx : Context) (rows : list AttachmentRow)
  (uploads : list FileUpload) : list PutObject :=
  map (fun ru => putAttachment ctx (fst ru) (snd ru)) (combine rows uploads).

(** The world once the base event and the rule are stored and linked. *)
Definition afterRule (ctx : Context) (input : MutationCreateEventInput)
  (recurrence : RecurrenceArg) (s : string) (dates : list Z) (w : World)
  : World :=
  let b := nextUuid w in
  mkWorld
    (withRules
       (withEvents (db w)
          (linkRule b (S b)
             (eventsTable (db w) ++ [baseEventValues ctx input b])))
       (recurrenceRulesTable (db w)
        ++ [recurrenceRuleValues ctx input recurrence s dates b (S b)]))
    (objectStore w) (S (S b)) (nextUlid w).

(** The world once one more event row is stored. *)
Definition afterEvent (w : World) (e : EventRow) : World :=
  mkWorld (withEvents (db w) (eventsTable (db w) ++ [e]))
    (objectStore w) (S (nextUuid w)) (nextUlid w).

End CreateEvent.

(** ** Sample data

    Concrete requests and a concrete store, at which the statements below
    are instantiated. *)

Module Sample.

Import RecurringEventHelpers CreateEvent.

(** Midnight UTC of a day of January 2024; the 1st was a Monday. *)
Definition jan2024 (d : Z) : Z := Calendar.utc 2024 1 d 0 0 0.

(** WEEKLY on Monday, Wednesday and Friday, six times from 2024-01-01. *)
Definition weeklyInput : RecurrenceInput :=
  mkRecurrenceInput WEEKLY (Some 1) (Some (jan2024 1)) None (Some 6)
    (Some ["MO"; "WE"; "FR"]) None None.

Definition weeklyRuleString : string :=
  ("DTSTART:20240101T000000Z" ++ String Text.newline
     "RRULE:FREQ=WEEKLY;INTERVAL=1;COUNT=6;BYDAY=MO,WE,FR")%string.

Definition weeklyOptions : RRule.Options :=
  RRule.mkOptions 2 1 (Some 1704067200000) (Some 6) None None None
    (Some [RRule.WdNumber 0; RRule.WdNumber 2; RRule.WdNumber 4]).

Definition weeklyRule : RRule.ParsedOptions :=
  RRule.mkParsed RRule.WEEKLY 1 1704067200000 (Some 6) None [] [] []
    [Some 0; Some 2; Some 4].

Definition sixInstants : list Z :=
  [jan2024 1; jan2024 3; jan2024 5; jan2024 8; jan2024 10; jan2024 12].

(** WEEKLY, five hundred times from 2024-01-01, no end date. *)
Definition weekly500 : RecurrenceInput :=
  mkRecurrenceInput WEEKLY (Some 1) (Some (jan2024 1)) None (Some 500)
    None None None.

(** DAILY with INTERVAL and COUNT both zero. *)
Definition zeroes : RecurrenceInput :=
  mkRecurrenceInput DAILY (Some 0) (Some (jan2024 1)) None (Some 0)
    None None None.

(** The media types of the upstream [eventAttachmentMimeTypeEnum]. *)
Definition mimeTypes : list string :=
  ["image/avif"; "image/jpeg"; "image/png"; "image/webp"; "video/mp4";
   "video/webm"].

(** An input schema that accepts everything and changes nothing. *)
Definition acceptingSchema (input : MutationCreateEventInput)
  : list Issue + MutationCreateEventInput := inr input.

(** User 1 administers organization 10, user 2 is a global administrator
    without any membership, user 3 is a regular member of organization 10
    and administers organization 11. *)
Definition world : World :=
  mkWorld
    (mkDb [mkUser 1%nat "regular"; mkUser 2%nat "administrator";
           mkUser 3%nat "regular"]
       [mkOrganization 10%nat None; mkOrganization 11%nat None]
       [mkMembership 1%nat 10%nat "administrator";
        mkMembership 3%nat 10%nat "regular";
        mkMembership 3%nat 11%nat "administrator"]
       [] [] [])
    [] 100%nat 500%nat.

Definition context (user : Id) : Context := mkContext true user "talawa".

Definition upload (m : string) : FileUpload := mkFileUpload m "bytes".

(** A one-hour event in organization 10 on 2024-01-01. *)
Definition input (recurrence : option RecurrenceArg)
  (uploads : option (list FileUpload)) : MutationCreateEventInput :=
  mkInput "Standup" None 10%nat (jan2024 1) (jan2024 1 + 3600000) recurrence
    uploads.

Definition weeklyArg : RecurrenceArg :=
  mkRecurrenceArg FreqWEEKLY (Some 1) (Some 6) None (Some ["MO"; "WE"; "FR"])
    None None.

(** MONTHLY on 30 February: no such day ever comes. *)
Definition neverArg : RecurrenceArg :=
  mkRecurrenceArg FreqMONTHLY (Some 1) None None None (Some [2]) (Some [30]).

Definition neverRuleString : string :=
  ("DTSTART:20240101T000000Z" ++ String Text.newline
     "RRULE:FREQ=MONTHLY;INTERVAL=1;BYMONTH=2;BYMONTHDAY=30")%string.

End Sample.

(** ** The [recurrenceRule] field of the [Event] type

    The field resolver that follows the mutation in the sources:
    [if (!parent.recurrenceRuleId) return null] and otherwise
    [findFirst] over [recurrenceRulesTable] by [id]. *)

Module Event.

Definition recurrenceRule (parent : EventRow) (d : Db)
  : option RecurrenceRuleRow :=
  match recurrenceRuleId parent with
  | None => None
  | Some id => find (fun r => Nat.eqb (ruleId r) id) (recurrenceRulesTable d)
  end.

End Event.

(** ** [recurrenceInputSchema]

    The zod schema of the [recurrence] argument, on objects as the GraphQL
    input type [RecurrenceInput] of the same file delivers them: every
    number is an integer and every list holds values of its element type,
    so that of zod's checks the range checks and the treatment of missing
    and null fields remain. *)

Module RecurrenceInputSchema.

Import CreateEvent.

(** What a property of the object handed to the schema holds: nothing
    ([undefined]), [null], or a value of the type of the field. *)
Inductive Field (A : Type) : Type :=
| Absent
| Null
| Given (a : A).

Arguments Absent {A}.
Arguments Null {A}.
Arguments Given {A} a.

Inductive ZodIssueCode : Type := invalid_type | too_small | too_big.

Record ZodIssue : Type := mkZodIssue {
  code : ZodIssueCode;
  path : list PathSegment
}.

(** The object before validation.  [frequency] is a required value of the
    GraphQL enum, whose four values are those of [z.enum]. *)
Record Raw : Type := mkRaw {
  rawFrequency : RecurrenceFrequency;
  rawInterval : Field Z;
  rawCount : Field Z;
  rawRecurrenceEndDate : Field Z;
  rawByDay : Field (list string);
  rawByMonth : Field (list Z);
  rawByMonthDay : Field (list Z)
}.

(** A schema for values of type [A]: the issues it raises at a path. *)
Definition Check (A : Type) : Type := list PathSegment -> A -> list ZodIssue.

(** [z.number().int().positive()] on an integer. *)
Definition positiveInt : Check Z :=
  fun p n => if n <=? 0 then [mkZodIssue too_small p] else [].

(** [z.number().int().min(lo).max(hi)] on an integer. *)
Definition intBetween (lo hi : Z) : Check Z :=
  fun p n =>
    (if n <? lo then [mkZodIssue too_small p] else [])
    ++ (if hi <? n then [mkZodIssue too_big p] else []).

(** [z.date()] on a valid date and [z.string()] on a text. *)
Definition anything {A : Type} : Check A := fun _ _ => [].

(** [z.array(element)]: the issues of the elements, each under its index. *)
Definition arrayOf {A : Type} (element : Check A) : Check (list A) :=
  fun p l => flat_map (fun ix => element (p ++ [Index (fst ix)]) (snd ix))
                      (indexed l).

(** [inner.optional()]: [undefined] passes as it is; [null] is not of the
    inner type. *)
Definition optional {A : Type} (inner : Check A) (p : list PathSegment)
  (f : Field A) : list ZodIssue * option A :=
  match f with
  | Absent => ([], None)
  | Null => ([mkZodIssue invalid_type p], None)
  | Given a => (inner p a, Some a)
  end.

(** [inner.default(d)]: [undefined] is replaced by [d], which is then
    checked as any other value. *)
Definition withDefault {A : Type} (inner : Check A) (d : A)
  (p : list PathSegment) (f : Field A) : list ZodIssue * A :=
  match f with
  | Absent => (inner p d, d)
  | Null => ([mkZodIssue invalid_type p], d)
  | Given a => (inner p a, a)
  end.

(** [recurrenceInputSchema.safeParse(raw)]: the issues of all the keys in
    the order of the shape, or the parsed object when there is none. *)
Definition recurrenceInputSchema (raw : Raw) : list ZodIssue + RecurrenceArg :=
  let interval :=
    withDefault positiveInt 1 [Key "interval"] (rawInterval raw) in
  let count := optional positiveInt [Key "count"] (rawCount raw) in
  let recurrenceEndDate :=
    optional anything [Key "recurrenceEndDate"] (rawRecurrenceEndDate raw) in
  let byDay := optional (arrayOf anything) [Key "byDay"] (rawByDay raw) in
  let byMonth :=
    optional (arrayOf (intBetween 1 12)) [Key "byMonth"] (rawByMonth raw) in
  let byMonthDay :=
    optional (arrayOf (intBetween 1 31)) [Key "byMonthDay"]
      (rawByMonthDay raw) in
  match fst interval ++ fst count ++ fst recurrenceEndDate ++ fst byDay
        ++ fst byMonth ++ fst byMonthDay with
  | [] =>
      inr (mkRecurrenceArg (rawFrequency raw) (Some (snd interval))
             (snd count) (snd recurrenceEndDate) (snd byDay) (snd byMonth)
             (snd byMonthDay))
  | issues => inl issues
  end.

(** A parsed object handed to the schema again. *)
Definition given {A : Type} (o : option A) : Field A :=
  match o with
  | Some a => Given a
  | None => Absent
  end.

Definition rawOf (r : RecurrenceArg) : Raw :=
  mkRaw (argFrequency r) (given (argInterval r)) (given (argCount r))
    (given (argRecurrenceEndDate r)) (given (argByDay r))
    (given (argByMonth r)) (given (argByMonthDay r)).

End RecurrenceInputSchema.

(** ** Vocabulary of the further statements *)

(** [p z], [p (z+1)], ..., [n] times: a bounded check by computation. *)
Fixpoint allFrom (n : nat) (z : Z) (p : Z -> bool) : bool :=
  match n with
  | O => true
  | S n' => p z && allFrom n' (z + 1) p
  end.

(** Is [n], padded to [width] digits, a text of that length that reads
    back as [n]? *)
Definition paddedReadsBack (width : nat) (n : Z) : bool :=
  let s := Text.padStart (Text.ofZ n) width in
  Nat.eqb (String.length s) width
  && match Text.digitsToZ s with
     | Some m => m =? n
     | None => false
     end.

(** The instant [t] without its milliseconds: what the [YYYYMMDDTHHMMSSZ]
    form keeps of it. *)
Definition wholeSecond (t : Z) : Z := t - t mod 1000.

(** What the rule text keeps of the options it is written from: the dates
    to the second, and no empty list. *)
Definition retained (o : RRule.Options) : RRule.Options :=
  {| RRule.freq := RRule.freq o;
     RRule.interval := RRule.interval o;
     RRule.dtstart := option_map wholeSecond (RRule.dtstart o);
     RRule.count := RRule.count o;
     RRule.until := option_map wholeSecond (RRule.until o);
     RRule.bymonth := RecurringEventHelpers.nonEmpty (RRule.bymonth o);
     RRule.bymonthday := RecurringEventHelpers.nonEmpty (RRule.bymonthday o);
     RRule.byweekday := RecurringEventHelpers.nonEmpty (RRule.byweekday o) |}.

(** The year of [t] has the four digits of the date form. *)
Definition representableYear (t : Z) : Prop :=
  0 <= Calendar.getUTCFullYear t <= 9999.

Definition isWeekdayNumber (w : RRule.JsWeekday) : Prop :=
  match w with
  | RRule.WdNumber n => 0 <= n < 7
  | _ => False
  end.

(** Options whose text [rrulestr] reads within the embedded fragment. *)
Record Encodable (o : RRule.Options) : Prop := {
  encodable_freq : exists f, RRule.frequencyOfNumber (RRule.freq o) = Some f;
  encodable_dtstart :
    forall d, RRule.dtstart o = Some d -> representableYear d;
  encodable_until :
    forall u, RRule.until o = Some u -> representableYear u;
  encodable_byweekday :
    forall l, RRule.byweekday o = Some l -> Forall isWeekdayNumber l
}.

(** The start the encoder uses: [recurrenceStartDate || new Date()]. *)
Definition startOf (now : Z) (r : RecurringEventHelpers.RecurrenceInput)
  : Z :=
  match RecurringEventHelpers.recurrenceStartDate r with
  | Some d => d
  | None => now
  end.

(** A recurrence whose dates have four-digit years and whose weekday codes
    are among MO, TU, WE, TH, FR, SA, SU. *)
Record EncodableInput (now : Z) (r : RecurringEventHelpers.RecurrenceInput)
  : Prop := {
  start_year : representableYear (startOf now r);
  end_year :
    forall e, RecurringEventHelpers.recurrenceEndDate r = Some e ->
              representableYear e;
  known_codes :
    forall codes, RecurringEventHelpers.byDay r = Some codes ->
                  Forall (fun day => In day RRule.ALL_WEEKDAYS) codes
}.

(** The first day of the [k]-th period of a rule with a frequency from
    yearly to daily. *)
Definition periodStart (o : RRule.ParsedOptions) (k : Z) : Z :=
  let d0 := Calendar.dayOf (RRule.pdtstart o) in
  match RRule.pfreq o with
  | RRule.YEARLY =>
      Calendar.daysFromCivil
        (Calendar.yearOfDay d0 + k * RRule.pinterval o) 1 1
  | RRule.MONTHLY =>
      let mi := RRule.monthIndex d0 + k * RRule.pinterval o in
      Calendar.daysFromCivil (mi / 12) (mi mod 12 + 1) 1
  | RRule.WEEKLY =>
      d0 - Calendar.weekdayOfDay d0 + 7 * (k * RRule.pinterval o)
  | _ => d0 + k * RRule.pinterval o
  end.

(** An instant that no candidate of the [k]-th period precedes. *)
Definition periodFloor (o : RRule.ParsedOptions) (k : Z) : Z :=
  match RRule.pfreq o with
  | RRule.HOURLY | RRule.MINUTELY | RRule.SECONDLY =>
      RRule.pdtstart o + k * RRule.pinterval o * RRule.unitMs (RRule.pfreq o)
  | _ => periodStart o k * Calendar.msPerDay
  end.

(** ** Further sample data *)

Module Cases.

Import RecurringEventHelpers CreateEvent RecurrenceInputSchema.

(** The weekly sample as the encoder receives it from the resolver. *)
Definition weeklyHelperInput : RecurrenceInput :=
  helperInput (Sample.jan2024 1) Sample.weeklyArg.

(** 2024-01-01 00:00:00.250 UTC. *)
Definition quarterPast : Z := Sample.jan2024 1 + 250.

(** DAILY, three times, from a start with a fraction of a second. *)
Definition dailyFraction : RecurrenceInput :=
  mkRecurrenceInput DAILY (Some 1) (Some quarterPast) None (Some 3)
    None None None.

Definition dailyFractionRuleString : string :=
  ("DTSTART:20240101T000000Z" ++ String Text.newline
     "RRULE:FREQ=DAILY;INTERVAL=1;COUNT=3")%string.

(** WEEKLY on a weekday code that does not exist. *)
Definition unknownDayArg : RecurrenceArg :=
  mkRecurrenceArg FreqWEEKLY (Some 1) (Some 6) None (Some ["MO"; "XX"])
    None None.

(** The weekly sample before validation: no interval given. *)
Definition weeklyRaw : Raw :=
  mkRaw FreqWEEKLY Absent (Given 6) Absent (Given ["MO"; "WE"; "FR"])
    Absent Absent.

(** YEARLY in February and in a thirteenth month. *)
Definition thirteenthMonthRaw : Raw :=
  mkRaw FreqYEARLY (Given 1) Absent Absent Absent (Given [2; 13]) Absent.

End Cases.

(** * Properties *)

Import RecurringEventHelpers CreateEvent.

(** ** Texts *)

Section TextFacts.

Import Text.

Lemma contains_app (c : ascii) (x y : string) :
  contains c (x ++ y)%string = contains c x || contains c y.
Proof.
  induction x as [|a x IH]; cbn; [reflexivity|].
  rewrite IH. now rewrite orb_assoc.
Qed.

Lemma split_without (c : ascii) (x : string) :
  contains c x = false -> split c x = [x].
Proof.
  induction x as [|a x IH]; cbn; [reflexivity|].
  intros H. apply orb_false_iff in H as [Ha Hx].
  rewrite Ha, (IH Hx). reflexivity.
Qed.

Lemma split_app (c : ascii) (x y : string) :
  contains c x = false ->
  split c (x ++ String c y)%string = x :: split c y.
Proof.
  induction x as [|a x IH]; cbn.
  - intros _. now rewrite Ascii.eqb_refl.
  - intros H. apply orb_false_iff in H as [Ha Hx].
    rewrite Ha, (IH Hx). reflexivity.
Qed.

(** Splitting at the separator undoes joining, when no joined text holds
    the separator. *)
Lemma split_join (c : ascii) (l : list string) :
  l <> [] ->
  Forall (fun x => contains c x = false) l ->
  split c (join (String c EmptyString) l) = l.
Proof.
  induction l as [|x l IH]; intros Hne Hall; [contradiction|].
  inversion Hall as [|? ? Hx Hl]; subst.
  destruct l as [|y l].
  - cbn. now apply split_without.
  - change (join (String c EmptyString) (x :: y :: l))
      with (x ++ String c (join (String c EmptyString) (y :: l)))%string.
    rewrite (split_app c x _ Hx), IH; [reflexivity|discriminate|assumption].
Qed.

Lemma breakAt_app (c : ascii) (k v : string) :
  contains c k = false ->
  breakAt c (k ++ String c v)%string = Some (k, v).
Proof.
  induction k as [|a k IH]; cbn.
  - intros _. now rewrite Ascii.eqb_refl.
  - intros H. apply orb_false_iff in H as [Ha Hk].
    rewrite Ha, (IH Hk). reflexivity.
Qed.

Lemma plain_contains (c : ascii) (s : string) :
  plainChar c = false -> plain s = true -> contains c s = false.
Proof.
  intros Hc. induction s as [|a s IH]; cbn; [reflexivity|].
  intros H. apply andb_true_iff in H as [Ha Hs].
  rewrite (IH Hs), orb_false_r.
  destruct (Ascii.eqb_spec a c) as [->|]; [congruence|reflexivity].
Qed.

Lemma plain_app (x y : string) :
  plain (x ++ y)%string = plain x && plain y.
Proof.
  induction x as [|a x IH]; cbn; [reflexivity|].
  rewrite IH. now rewrite andb_assoc.
Qed.

Lemma plain_uint (d : Decimal.uint) : plain (NilEmpty.string_of_uint d) = true.
Proof. induction d; cbn; auto. Qed.

Lemma plain_ofZ (n : Z) : plain (ofZ n) = true.
Proof.
  unfold ofZ, NilZero.string_of_int, NilZero.string_of_uint.
  destruct (Z.to_int n) as [d|d]; destruct d; try reflexivity;
    cbn [plain plainChar]; cbn; apply plain_uint.
Qed.

Lemma plain_repeat0 (n : nat) : plain (repeat0 n) = true.
Proof. induction n; cbn; auto. Qed.

Lemma plain_padStart (s : string) (w : nat) :
  plain s = true -> plain (padStart s w) = true.
Proof.
  intros H. unfold padStart. now rewrite plain_app, plain_repeat0, H.
Qed.

Lemma plain_join (l : list string) :
  Forall (fun x => plain x = true) l -> plain (join "," l) = true.
Proof.
  induction l as [|x l IH]; intros H; [reflexivity|].
  inversion H as [|? ? Hx Hl]; subst.
  destruct l as [|y l]; [exact Hx|].
  change (join "," (x :: y :: l))
    with (x ++ "," ++ join "," (y :: l))%string.
  rewrite !plain_app, Hx, (IH Hl). reflexivity.
Qed.

End TextFacts.

(** ** The encoded rule and its fields *)

Section EncodedRule.

Import Text.

Lemma plain_timeToUntilString (d : Z) :
  plain (RRule.timeToUntilString d) = true.
Proof.
  unfold RRule.timeToUntilString.
  rewrite !plain_app, !plain_padStart by apply plain_ofZ. reflexivity.
Qed.

Lemma plain_numbersToString (l : list Z) :
  plain (RRule.numbersToString l) = true.
Proof.
  apply plain_join. apply Forall_forall. intros x Hx.
  apply in_map_iff in Hx as [n [<- _]]. apply plain_ofZ.
Qed.

Lemma plain_weekdayToString (w : RRule.JsWeekday) :
  plain (RRule.weekdayToString w) = true.
Proof.
  destruct w as [n| |]; cbn; try reflexivity.
  destruct ((0 <=? n) && (n <? 7)) eqn:Hn; [|reflexivity].
  apply andb_true_iff in Hn as [H0 H7].
  apply Z.leb_le in H0. apply Z.ltb_lt in H7.
  assert (Hcases : n = 0 \/ n = 1 \/ n = 2 \/ n = 3 \/ n = 4 \/ n = 5 \/ n = 6)
    by lia.
  repeat (destruct Hcases as [->|Hcases]; [reflexivity|]).
  subst n. reflexivity.
Qed.

Lemma plain_frequencyName (f : RRule.Frequency) :
  plain (RRule.frequencyName f) = true.
Proof. destruct f; reflexivity. Qed.

Lemma optional_field_plain {A : Type} (k : string) (v : option A)
  (show : A -> string) :
  plain k = true ->
  (forall a, plain (show a) = true) ->
  Forall (fun kv => plain (fst kv) = true /\ plain (snd kv) = true)
    match v with
    | Some a => if String.eqb (show a) EmptyString then [] else [(k, show a)]
    | None => []
    end.
Proof.
  intros Hk Hshow. destruct v as [a|]; [|constructor].
  destruct (String.eqb (show a) EmptyString); repeat constructor; cbn; auto.
Qed.

(** Keys and values of the RRULE line are made of letters, digits, commas
    and minus signs only. *)
Lemma ruleFields_plain (o : RRule.Options) :
  Forall (fun kv => plain (fst kv) = true /\ plain (snd kv) = true)
         (RRule.ruleFields o).
Proof.
  unfold RRule.ruleFields.
  apply Forall_app; split.
  { destruct (RRule.frequencyOfNumber _); repeat constructor.
    apply plain_frequencyName. }
  apply Forall_app; split.
  { repeat constructor. apply plain_ofZ. }
  apply Forall_app; split.
  { apply optional_field_plain; [reflexivity|apply plain_ofZ]. }
  apply Forall_app; split.
  { apply optional_field_plain; [reflexivity|apply plain_timeToUntilString]. }
  apply Forall_app; split.
  { apply optional_field_plain; [reflexivity|apply plain_numbersToString]. }
  apply Forall_app; split.
  { apply optional_field_plain; [reflexivity|apply plain_numbersToString]. }
  apply optional_field_plain; [reflexivity|].
  intros l. apply plain_join. apply Forall_forall. intros x Hx.
  apply in_map_iff in Hx as [w [<- _]]. apply plain_weekdayToString.
Qed.

Lemma renderField_breaks (kv : string * string) :
  plain (fst kv) = true ->
  RRule.attrPair (RRule.renderField kv) = [kv].
Proof.
  intros Hk. unfold RRule.attrPair, RRule.renderField.
  change (fst kv ++ "=" ++ snd kv)%string
    with (fst kv ++ String "=" (snd kv))%string.
  rewrite breakAt_app by (apply plain_contains; [reflexivity|exact Hk]).
  now destruct kv.
Qed.

Lemma renderField_free_of (c : ascii) (kv : string * string) :
  plainChar c = false -> Ascii.eqb "=" c = false ->
  plain (fst kv) = true -> plain (snd kv) = true ->
  contains c (RRule.renderField kv) = false.
Proof.
  intros Hc Heq Hk Hv. unfold RRule.renderField.
  rewrite !contains_app. cbn [contains]. rewrite Heq.
  rewrite !plain_contains by assumption. reflexivity.
Qed.

Lemma fields_of_rule_line (fields : list (string * string)) :
  fields <> [] ->
  Forall (fun kv => plain (fst kv) = true /\ plain (snd kv) = true) fields ->
  flat_map RRule.attrPair
    (split ";" (join ";" (map RRule.renderField fields)))
  = fields.
Proof.
  intros Hne Hall.
  rewrite split_join.
  - induction Hall as [|kv l [Hk Hv] Hl IH]; [reflexivity|].
    cbn [map flat_map]. rewrite (renderField_breaks kv Hk).
    destruct l as [|kv' l]; [reflexivity|].
    cbn [app]. f_equal. apply IH. discriminate.
  - destruct fields; [contradiction|discriminate].
  - apply Forall_forall. intros x Hx.
    apply in_map_iff in Hx as [kv [<- Hin]].
    rewrite Forall_forall in Hall. destruct (Hall kv Hin) as [Hk Hv].
    now apply renderField_free_of.
Qed.

Lemma rule_line_free_of (c : ascii) (fields : list (string * string)) :
  plainChar c = false -> Ascii.eqb "=" c = false -> Ascii.eqb ";" c = false ->
  Forall (fun kv => plain (fst kv) = true /\ plain (snd kv) = true) fields ->
  contains c (join ";" (map RRule.renderField fields)) = false.
Proof.
  intros Hc Heq Hsemi Hall.
  induction Hall as [|kv l [Hk Hv] Hl IH]; [reflexivity|].
  destruct l as [|kv' l].
  - cbn [map join]. now apply renderField_free_of.
  - change (join ";" (map RRule.renderField (kv :: kv' :: l)))
      with (RRule.renderField kv ++ ";"
            ++ join ";" (map RRule.renderField (kv' :: l)))%string.
    rewrite !contains_app, IH.
    rewrite (renderField_free_of c kv Hc Heq Hk Hv).
    cbn [contains]. now rewrite Hsemi.
Qed.

(** Reading the RRULE line of an encoded rule gives back the fields
    [optionsToString] wrote. *)
Lemma ruleStringFields_optionsToString (o : RRule.Options) (d : Z)
  (f : RRule.Frequency) :
  RRule.dtstart o = Some d ->
  RRule.frequencyOfNumber (RRule.freq o) = Some f ->
  RRule.ruleStringFields (RRule.optionsToString o) = RRule.ruleFields o.
Proof.
  intros Hd Hf.
  pose proof (ruleFields_plain o) as Hplain.
  assert (Hne : RRule.ruleFields o <> []).
  { unfold RRule.ruleFields. rewrite Hf. discriminate. }
  unfold RRule.optionsToString. rewrite Hd.
  set (rules := join ";" (map RRule.renderField (RRule.ruleFields o))).
  assert (Hrules : String.eqb rules EmptyString = false).
  { subst rules. unfold RRule.ruleFields. rewrite Hf. reflexivity. }
  rewrite Hrules.
  change (join (String newline EmptyString)
            (["DTSTART:" ++ RRule.timeToUntilString d] ++ ["RRULE:" ++ rules]))%string
    with (("DTSTART:" ++ RRule.timeToUntilString d)
          ++ String newline ("RRULE:" ++ rules))%string.
  unfold RRule.ruleStringFields.
  rewrite split_app.
  2:{ rewrite contains_app, (plain_contains newline _ eq_refl
                               (plain_timeToUntilString d)).
      reflexivity. }
  rewrite split_without.
  2:{ rewrite contains_app. subst rules.
      rewrite rule_line_free_of by (reflexivity || assumption).
      reflexivity. }
  cbn [flat_map].
  change ("DTSTART:" ++ RRule.timeToUntilString d)%string
    with ("DTSTART" ++ String ":" (RRule.timeToUntilString d))%string.
  rewrite breakAt_app by reflexivity.
  change ("RRULE:" ++ rules)%string with ("RRULE" ++ String ":" rules)%string.
  rewrite breakAt_app by reflexivity.
  change (String.eqb "DTSTART" "RRULE") with false.
  change (String.eqb "RRULE" "RRULE") with true.
  cbv iota. rewrite app_nil_r. cbn [app].
  subst rules. now apply fields_of_rule_line.
Qed.

End EncodedRule.

(** ** The encoder: [generateRecurrenceRuleString] *)

Lemma frequencyOfNumber_FREQ_MAP (f : FrequencyName) :
  exists g, RRule.frequencyOfNumber (FREQ_MAP f) = Some g.
Proof. destruct f; cbn; eauto. Qed.

(** A successful encoding is the rendering of [ruleOptions], and its RRULE
    line reads back as the fields of those options. *)
Lemma encoded_fields (now : Z) (recurrence : RecurrenceInput) (s : string) :
  generateRecurrenceRuleString now recurrence = Ok s ->
  RRule.ruleStringFields s = RRule.ruleFields (ruleOptions now recurrence).
Proof.
  intros Hs.
  unfold generateRecurrenceRuleString, RRule.construct in Hs.
  destruct (RRule.parseOptions now (ruleOptions now recurrence)) as [p|e];
    cbn [bindR] in Hs; [|discriminate].
  injection Hs as <-. unfold RRule.toString. cbn [RRule.origOptions].
  destruct (frequencyOfNumber_FREQ_MAP (frequency recurrence)) as [f Hf].
  exact (ruleStringFields_optionsToString (ruleOptions now recurrence)
           (match recurrenceStartDate recurrence with
            | Some d => d
            | None => now
            end) f eq_refl Hf).
Qed.

(** C10.  The encoder treats a zero as an absent value: when [interval] is
    0 the RRULE line of the encoded text carries INTERVAL=1, and when
    [count] is 0 the RRULE line has no COUNT field. *)
Theorem zero_interval_and_count_are_absent
  (now : Z) (recurrence : RecurrenceInput) (s : string) :
  generateRecurrenceRuleString now recurrence = Ok s ->
  (interval recurrence = Some 0 ->
   RRule.lookupField "INTERVAL" (RRule.ruleStringFields s) = Some "1")
  /\ (count recurrence = Some 0 ->
      RRule.lookupField "COUNT" (RRule.ruleStringFields s) = None).
Proof.
  intros Hs. rewrite (encoded_fields now recurrence s Hs).
  destruct (frequencyOfNumber_FREQ_MAP (frequency recurrence)) as [f Hf].
  unfold RRule.ruleFields.
  change (RRule.freq (ruleOptions now recurrence))
    with (FREQ_MAP (frequency recurrence)).
  rewrite Hf.
  cbn [ruleOptions RRule.interval RRule.count RRule.until RRule.bymonth
       RRule.bymonthday RRule.byweekday].
  split.
  - intros Hi. rewrite Hi. reflexivity.
  - intros Hc. rewrite Hc. cbn [truthyNumber Z.eqb app RRule.lookupField].
    change (String.eqb "COUNT" "FREQ") with false.
    change (String.eqb "COUNT" "INTERVAL") with false.
    cbv iota.
    repeat match goal with
           | |- context [match ?x with Some _ => _ | None => _ end] =>
               destruct x
           | |- context [if String.eqb ?a ?b then _ else _] =>
               destruct (String.eqb a b)
           end; reflexivity.
Qed.

Lemma zero_interval_and_count_are_absent_witness :
  generateRecurrenceRuleString 0 Sample.zeroes
  = Ok ("DTSTART:20240101T000000Z" ++ String Text.newline
          "RRULE:FREQ=DAILY;INTERVAL=1")%string
  /\ RRule.lookupField "INTERVAL"
       (RRule.ruleStringFields
          ("DTSTART:20240101T000000Z" ++ String Text.newline
             "RRULE:FREQ=DAILY;INTERVAL=1")%string) = Some "1"
  /\ RRule.lookupField "COUNT"
       (RRule.ruleStringFields
          ("DTSTART:20240101T000000Z" ++ String Text.newline
             "RRULE:FREQ=DAILY;INTERVAL=1")%string) = None.
Proof.
  assert (Hs : generateRecurrenceRuleString 0 Sample.zeroes
               = Ok ("DTSTART:20240101T000000Z" ++ String Text.newline
                       "RRULE:FREQ=DAILY;INTERVAL=1")%string)
    by (vm_compute; reflexivity).
  destruct (zero_interval_and_count_are_absent 0 Sample.zeroes _ Hs)
    as [Hi Hc].
  split; [exact Hs|].
  split; [apply Hi; reflexivity|apply Hc; reflexivity].
Defined.

Lemma mapR_parseWeekdayEntry_undefined (l : list RRule.JsWeekday) :
  In RRule.WdUndefined l ->
  exists msg, mapR RRule.parseWeekdayEntry l = Err (JsTypeError msg).
Proof.
  induction l as [|w l IH]; intros Hin; [destruct Hin|].
  cbn [mapR].
  destruct w as [n| |]; cbn [RRule.parseWeekdayEntry bindR].
  - destruct Hin as [Heq|Hin]; [discriminate|].
    destruct (IH Hin) as [msg ->]. cbn. eauto.
  - eauto.
  - destruct Hin as [Heq|Hin]; [discriminate|].
    destruct (IH Hin) as [msg ->]. cbn. eauto.
Qed.

(** [WEEKDAY_MAP] yields [undefined] exactly outside its own and its
    inherited property names. *)
Lemma WEEKDAY_MAP_undefined (day : string) :
  ~ In day (map fst WEEKDAY_OWN) ->
  ~ In day OBJECT_PROTOTYPE_KEYS ->
  WEEKDAY_MAP day = RRule.WdUndefined.
Proof.
  intros Hown Hproto. unfold WEEKDAY_MAP.
  assert (Hl : lookupOwn day WEEKDAY_OWN = None).
  { revert Hown. generalize WEEKDAY_OWN as l.
    induction l as [|[k v] l IH]; intros Hown; cbn; [reflexivity|].
    destruct (String.eqb_spec day k) as [->|Hne].
    - exfalso. apply Hown. now left.
    - apply IH. intros Hin. apply Hown. now right. }
  rewrite Hl.
  destruct (existsb (String.eqb day) OBJECT_PROTOTYPE_KEYS) eqn:He;
    [|reflexivity].
  apply existsb_exists in He as [k [Hin Heq]].
  apply String.eqb_eq in Heq. subst k. contradiction.
Qed.

(** C5, as the code has it.  When the [byDay] list holds a text that is
    neither one of the seven weekday codes nor the name of a property that
    [WEEKDAY_MAP] inherits from [Object.prototype], encoding raises (a
    TypeError, thrown by the rrule constructor on the [undefined] entry);
    no rule text is produced. *)
Theorem unresolved_weekday_code_fails_encoding
  (now : Z) (recurrence : RecurrenceInput) (codes : list string)
  (day : string) :
  byDay recurrence = Some codes ->
  In day codes ->
  ~ In day (map fst WEEKDAY_OWN) ->
  ~ In day OBJECT_PROTOTYPE_KEYS ->
  exists msg,
    generateRecurrenceRuleString now recurrence = Err (JsTypeError msg).
Proof.
  intros Hby Hin Hown Hproto.
  unfold generateRecurrenceRuleString, RRule.construct, RRule.parseOptions.
  destruct (frequencyOfNumber_FREQ_MAP (frequency recurrence)) as [g Hg].
  unfold ruleOptions at 1. cbn [RRule.freq]. rewrite Hg.
  unfold ruleOptions; cbn [RRule.byweekday RRule.bymonthday RRule.dtstart
    RRule.bymonth RRule.interval RRule.count RRule.until].
  rewrite Hby.
  destruct codes as [|c0 cs]; [destruct Hin|].
  cbn [nonEmpty].
  destruct (mapR_parseWeekdayEntry_undefined (map WEEKDAY_MAP (c0 :: cs)))
    as [msg Hmsg].
  { rewrite <- (WEEKDAY_MAP_undefined day Hown Hproto). now apply in_map. }
  exists msg.
  destruct (nonEmpty (byMonthDay recurrence)); rewrite Hmsg; reflexivity.
Qed.

Lemma string_not_in (x : string) (l : list string) :
  existsb (String.eqb x) l = false -> ~ In x l.
Proof.
  intros H Hin.
  assert (Ht : existsb (String.eqb x) l = true)
    by (apply existsb_exists; exists x; split;
        [exact Hin|apply String.eqb_refl]).
  congruence.
Qed.

Lemma unresolved_weekday_code_fails_encoding_witness :
  exists msg,
    generateRecurrenceRuleString 0
      (mkRecurrenceInput DAILY (Some 1) (Some (Sample.jan2024 1)) None None
         (Some ["MO"; "XX"]) None None)
    = Err (JsTypeError msg).
Proof.
  apply (unresolved_weekday_code_fails_encoding 0
           (mkRecurrenceInput DAILY (Some 1) (Some (Sample.jan2024 1)) None
              None (Some ["MO"; "XX"]) None None)
           ["MO"; "XX"] "XX").
  - reflexivity.
  - right. left. reflexivity.
  - apply string_not_in. reflexivity.
  - apply string_not_in. reflexivity.
Defined.

(** What the encoder returns for byDay=["constructor"]; [rrulestr] does not
    read that text back. *)
Example inherited_code_encoded_as_undefined :
  generateRecurrenceRuleString 0
    (mkRecurrenceInput DAILY (Some 1) (Some (Sample.jan2024 1)) None None
       (Some ["constructor"]) None None)
  = Ok ("DTSTART:20240101T000000Z" ++ String Text.newline
          "RRULE:FREQ=DAILY;INTERVAL=1;BYDAY=undefined")%string
  /\ RRule.rrulestr 0
       ("DTSTART:20240101T000000Z" ++ String Text.newline
          "RRULE:FREQ=DAILY;INTERVAL=1;BYDAY=undefined")%string
     = Err (JsSyntaxError "Invalid weekday string").
Proof. split; vm_compute; reflexivity. Qed.

(** C5, as stated, fails: ["constructor"] is none of the seven codes, yet
    [WEEKDAY_MAP] resolves it through the prototype chain, the rrule
    constructor accepts the resulting object and a rule text (with
    BYDAY=undefined) is returned. *)
Lemma inherited_weekday_code_is_encoded :
  ~ (forall (now : Z) (recurrence : RecurrenceInput) (codes : list string)
            (day : string),
        byDay recurrence = Some codes ->
        In day codes ->
        ~ In day (map fst WEEKDAY_OWN) ->
        exists e, generateRecurrenceRuleString now recurrence = Err e).
Proof.
  intros H.
  destruct (H 0 (mkRecurrenceInput DAILY (Some 1) (Some 1704067200000) None
                   None (Some ["constructor"]) None None)
              ["constructor"] "constructor" eq_refl (or_introl eq_refl))
    as [e He].
  - apply string_not_in. reflexivity.
  - vm_compute in He. discriminate He.
Qed.

Lemma parseOptions_clock_irrelevant (now1 now2 : Z) (o : RRule.Options)
  (d : Z) :
  RRule.dtstart o = Some d ->
  RRule.parseOptions now1 o = RRule.parseOptions now2 o.
Proof.
  intros Hd. unfold RRule.parseOptions. rewrite Hd. reflexivity.
Qed.

(** C6, as the code has it.  When [recurrenceStartDate] is present, the
    encoder's result is the same at any two times of invocation: it depends
    on the parameters only. *)
Theorem encoder_with_start_date_ignores_clock
  (now1 now2 : Z) (recurrence : RecurrenceInput) (d : Z) :
  recurrenceStartDate recurrence = Some d ->
  generateRecurrenceRuleString now1 recurrence
  = generateRecurrenceRuleString now2 recurrence.
Proof.
  intros Hd.
  assert (Ho : ruleOptions now1 recurrence = ruleOptions now2 recurrence).
  { unfold ruleOptions. rewrite Hd. reflexivity. }
  unfold generateRecurrenceRuleString, RRule.construct.
  rewrite Ho.
  rewrite (parseOptions_clock_irrelevant now1 now2
             (ruleOptions now2 recurrence) d);
    [reflexivity|].
  unfold ruleOptions. cbn. rewrite Hd. reflexivity.
Qed.

Lemma encoder_with_start_date_ignores_clock_witness :
  generateRecurrenceRuleString 0 Sample.weeklyInput
  = generateRecurrenceRuleString 1000 Sample.weeklyInput.
Proof.
  apply (encoder_with_start_date_ignores_clock 0 1000 Sample.weeklyInput
           (Sample.jan2024 1)).
  reflexivity.
Defined.

(** What the encoder returns at times 0 and 1000 for FREQ=DAILY without a
    start date. *)
Example clock_written_into_dtstart :
  generateRecurrenceRuleString 0
    (mkRecurrenceInput DAILY None None None None None None None)
  = Ok ("DTSTART:19700101T000000Z" ++ String Text.newline
          "RRULE:FREQ=DAILY;INTERVAL=1")%string
  /\ generateRecurrenceRuleString 1000
       (mkRecurrenceInput DAILY None None None None None None None)
     = Ok ("DTSTART:19700101T000001Z" ++ String Text.newline
             "RRULE:FREQ=DAILY;INTERVAL=1")%string.
Proof. split; vm_compute; reflexivity. Qed.

(** C6, as stated, fails: without [recurrenceStartDate] the encoder reads
    the clock ([|| new Date()]) and writes it into DTSTART, so two calls one
    second apart return different texts. *)
Lemma encoder_without_start_date_reads_clock :
  ~ (forall (now1 now2 : Z) (recurrence : RecurrenceInput),
        generateRecurrenceRuleString now1 recurrence
        = generateRecurrenceRuleString now2 recurrence).
Proof.
  intros H.
  specialize (H 0 1000
                (mkRecurrenceInput DAILY None None None None None None None)).
  vm_compute in H. discriminate H.
Qed.

(** ** The expander: [getRecurringInstanceDates] *)

Section Expansion.

Import RRule.

(** Whatever the rule and its COUNT, [between] hands out instants of the
    window only. *)
Lemma emit_within (o : ParsedOptions) (after before : Z) (cands : list Z) :
  forall cnt,
    Forall (fun t => after <= t <= before) (emit o after before cnt cands).
Proof.
  induction cands as [|res rest IH]; intros cnt; cbn [emit].
  - constructor.
  - destruct (match puntil o with Some u => u <? res | None => false end);
      [constructor|].
    destruct (res <? pdtstart o); [apply IH|].
    destruct ((after <=? res) && (before <? res)) eqn:Hlate; [constructor|].
    assert (Hout : Forall (fun t => after <= t <= before)
                          (if res <? after then [] else [res])).
    { destruct (Z.ltb_spec res after) as [Hlt|Hge]; [constructor|].
      constructor; [|constructor].
      apply andb_false_iff in Hlate as [H|H]; lia. }
    destruct cnt as [c|].
    + destruct (c =? 0); [apply Forall_app; auto|].
      destruct (c - 1 =? 0); [assumption|apply Forall_app; auto].
    + apply Forall_app; auto.
Qed.

Lemma between_within (r : t) (after before : Z) :
  Forall (fun t => after <= t <= before) (between r after before).
Proof.
  unfold between.
  destruct (_ || _); [constructor|apply emit_within].
Qed.

End Expansion.

Lemma getRecurringInstanceDates_within (now : Z) (s : string) (startDate : Z)
  (endDate queryEndDate : option Z) (dates : list Z) :
  getRecurringInstanceDates now s startDate endDate queryEndDate = Ok dates ->
  Forall (fun t => startDate <= t <=
                   match endDate with
                   | Some e => e
                   | None => match queryEndDate with
                             | Some q => q
                             | None => DateFns.addYears now 1
                             end
                   end) dates.
Proof.
  unfold getRecurringInstanceDates.
  destruct (RRule.rrulestr now s) as [rule|e]; cbn [bindR]; [|discriminate].
  intros H; injection H as <-.
  apply between_within.
Qed.



(** The weekly sample rule has at least two periods up to any bound on or
    after 2024-01-12. *)
Lemma weeklyRule_periods (before : Z) :
  1705017600000 <= before ->
  exists n, RRule.numPeriods Sample.weeklyRule before = S (S n).
Proof.
  intros Hb. unfold RRule.numPeriods.
  cbn [RRule.pfreq RRule.pinterval RRule.pdtstart Sample.weeklyRule].
  set (lastDay := Z.min (Calendar.dayOf before)
                        (Calendar.daysFromCivil RRule.MAXYEAR 12 31)).
  assert (Hday : 19734 <= lastDay).
  { unfold lastDay. apply Z.min_glb.
    - unfold Calendar.dayOf, Calendar.msPerDay.
      apply Z.div_le_lower_bound; lia.
    - vm_compute. discriminate. }
  change (Calendar.dayOf 1704067200000) with 19723.
  change (Calendar.weekdayOfDay 19723) with 0.
  change (7 * 1) with 7.
  assert (Hq : 1 <= (lastDay - (19723 - 0)) / 7)
    by (apply Z.div_le_lower_bound; lia).
  destruct (Z.ltb_spec (lastDay - (19723 - 0)) 0) as [Hneg|_]; [lia|].
  cbn [orb Z.leb Z.compare].
  exists (Z.to_nat ((lastDay - (19723 - 0)) / 7 - 1)).
  lia.
Qed.

(** The first two weeks hold the six instants, and COUNT=6 ends the
    iteration there. *)
Lemma weeklyRule_between (after before : Z) :
  after <= 1704067200000 ->
  1705017600000 <= before ->
  RRule.emit Sample.weeklyRule after before (Some 6)
    (RRule.candidates Sample.weeklyRule
       (RRule.numPeriods Sample.weeklyRule before))
  = [1704067200000; 1704240000000; 1704412800000;
     1704672000000; 1704844800000; 1705017600000].
Proof.
  intros Ha Hb.
  destruct (weeklyRule_periods before Hb) as [n ->].
  unfold RRule.candidates.
  cbn [seq flat_map].
  change (RRule.periodInstants Sample.weeklyRule (Z.of_nat 0))
    with [1704067200000; 1704240000000; 1704412800000].
  change (RRule.periodInstants Sample.weeklyRule (Z.of_nat 1))
    with [1704672000000; 1704844800000; 1705017600000].
  cbn [app RRule.emit RRule.puntil RRule.pdtstart Sample.weeklyRule].
  repeat match goal with
         | |- context [?a <? ?b] =>
             let H := fresh in
             destruct (Z.ltb_spec a b) as [H|H]; [try lia|try lia]
         | |- context [?a <=? ?b] =>
             let H := fresh in
             destruct (Z.leb_spec a b) as [H|H]; [try lia|try lia]
         end; cbn; try reflexivity.
Qed.

(** C4.  frequency=WEEKLY, interval=1, byDay=[MO,WE,FR], start 2024-01-01
    (a Monday), count=6: encoding, then expanding from the start up to any
    bound on or after 2024-01-12 (an explicit end date, or else one year
    after the call), yields exactly January 1, 3, 5, 8, 10 and 12 of 2024,
    in strictly ascending order. *)
Theorem weekly_mo_we_fr_six_instants (now : Z) (endDate : option Z) :
  Sample.jan2024 12 <= match endDate with
                       | Some e => e
                       | None => DateFns.addYears now 1
                       end ->
  bindR (generateRecurrenceRuleString now Sample.weeklyInput)
        (fun s =>
           getRecurringInstanceDates now s (Sample.jan2024 1) endDate None)
  = Ok Sample.sixInstants
  /\ StronglySorted Z.lt Sample.sixInstants
  /\ map (fun t => Calendar.civilFromDays (Calendar.dayOf t))
         Sample.sixInstants
     = [(2024, 1, 1); (2024, 1, 3); (2024, 1, 5); (2024, 1, 8);
        (2024, 1, 10); (2024, 1, 12)]
  /\ Forall (fun t => Calendar.msOfDay t = 0) Sample.sixInstants.
Proof.
  intros Hb. split; [|split; [|split]].
  - assert (Hs : generateRecurrenceRuleString now Sample.weeklyInput
                 = Ok Sample.weeklyRuleString) by reflexivity.
    rewrite Hs. cbn [bindR].
    unfold getRecurringInstanceDates.
    assert (Hr : RRule.rrulestr now Sample.weeklyRuleString
                 = Ok (RRule.mkRRule Sample.weeklyOptions Sample.weeklyRule))
      by (vm_compute; reflexivity).
    rewrite Hr. cbn [bindR]. f_equal.
    unfold RRule.between. cbn [RRule.options].
    change (match RRule.pcount Sample.weeklyRule with
            | Some c => c =? 0
            | None => false
            end || (RRule.pinterval Sample.weeklyRule =? 0)) with false.
    cbv iota.
    apply weeklyRule_between.
    + vm_compute. discriminate.
    + exact Hb.
  - repeat constructor; vm_compute; reflexivity.
  - reflexivity.
  - repeat constructor.
Qed.

Lemma weekly_mo_we_fr_six_instants_witness :
  Sample.jan2024 12 <= DateFns.addYears (Sample.jan2024 1) 1
  /\ bindR (generateRecurrenceRuleString (Sample.jan2024 1) Sample.weeklyInput)
        (fun s =>
           getRecurringInstanceDates (Sample.jan2024 1) s (Sample.jan2024 1)
             None None)
     = Ok Sample.sixInstants.
Proof.
  assert (H : Sample.jan2024 12 <= DateFns.addYears (Sample.jan2024 1) 1)
    by (vm_compute; discriminate).
  split; [exact H|].
  exact (proj1 (weekly_mo_we_fr_six_instants (Sample.jan2024 1) None H)).
Defined.

(** ** The resolver: argument validation and authorization *)

Section Checks.

Variable mimes : list string.
Variable schema :
  MutationCreateEventInput -> list Issue + MutationCreateEventInput.

Lemma issues_all_allowed (l : list FileUpload) :
  Forall (fun u => mimeTypeAllowed mimes (mimetype u) = true) l ->
  forall k,
    flat_map (issuesOf mimes) (combine (seq k (List.length l)) l) = [].
Proof.
  induction 1 as [|u l Hu Hl IH]; intros k; [reflexivity|].
  cbn [List.length seq combine flat_map].
  unfold issuesOf at 1. cbn [fst snd]. rewrite Hu. apply IH.
Qed.

Lemma issues_one_disallowed (l1 l2 : list FileUpload) (a : FileUpload) :
  Forall (fun u => mimeTypeAllowed mimes (mimetype u) = true) l1 ->
  Forall (fun u => mimeTypeAllowed mimes (mimetype u) = true) l2 ->
  mimeTypeAllowed mimes (mimetype a) = false ->
  forall k,
    flat_map (issuesOf mimes)
      (combine (seq k (List.length (l1 ++ a :: l2))) (l1 ++ a :: l2))
    = [mimeTypeIssue (k + List.length l1) a].
Proof.
  intros H1 H2 Ha. induction H1 as [|u l Hu Hl IH]; intros k.
  - cbn [app List.length seq combine flat_map].
    unfold issuesOf at 1. cbn [fst snd]. rewrite Ha.
    rewrite (issues_all_allowed l2 H2). cbn. now rewrite Nat.add_0_r.
  - cbn [app List.length seq combine flat_map].
    unfold issuesOf at 1. cbn [fst snd]. rewrite Hu.
    cbn [app]. rewrite IH. now rewrite Nat.add_succ_r.
Qed.

(** C8.  A request of an authenticated client that the input schema accepts
    and whose attachment list holds exactly one attachment with a media type
    outside the allowed ones, at index [length l1], fails with
    [invalid_arguments] carrying exactly one issue; its argument path is
    [input, attachments, length l1], and no issue concerns another
    attachment.  Nothing is written. *)
Theorem one_disallowed_media_type_one_issue
  (ctx : Context) (now : Z) (input arg : MutationCreateEventInput)
  (l1 l2 : list FileUpload) (a : FileUpload) (w : World) :
  isAuthenticated ctx = true ->
  schema input = inr arg ->
  inputAttachments arg = Some (l1 ++ a :: l2) ->
  Forall (fun u => mimeTypeAllowed mimes (mimetype u) = true) (l1 ++ l2) ->
  mimeTypeAllowed mimes (mimetype a) = false ->
  resolve mimes schema ctx now input w
  = (Err (TalawaGraphQLError invalid_arguments
            [mkIssue [Key "input"; Key "attachments"; Index (List.length l1)]
               (Some ("Mime type " ++ doubleQuote ++ mimetype a ++ doubleQuote
                      ++ " is not allowed.")%string)]),
     w).
Proof.
  intros Hauth Hschema Hatt Hall Ha.
  apply Forall_app in Hall as [H1 H2].
  unfold resolve. rewrite Hauth. cbn [negb].
  unfold safeParseAsync. rewrite Hschema.
  unfold transformInput. rewrite Hatt.
  unfold mimeTypeIssues, indexed.
  rewrite (issues_one_disallowed l1 l2 a H1 H2 Ha 0).
  reflexivity.
Qed.

(** C7.  For a request of an authenticated client whose arguments parse and
    whose user record exists:
    - a target organization that does not exist gives
      [arguments_associated_resources_not_found];
    - a user whose stored role is not administrator and who has no
      administrator membership in the target organization (no membership at
      all, a regular one, or administrator memberships elsewhere only) gives
      [unauthorized_action_on_arguments_associated_resources];
    - a user whose stored role is administrator passes the check whatever
      the membership: the resolver goes on into the transaction. *)
Theorem authorization_boundary
  (ctx : Context) (now : Z) (input parsed : MutationCreateEventInput)
  (currentUser : UserRow) (w : World) :
  isAuthenticated ctx = true ->
  safeParseAsync mimes schema input = inr parsed ->
  findUser (db w) (currentUserId ctx) = Some currentUser ->
  (findOrganization (db w) (inputOrganizationId parsed) (currentUserId ctx)
   = None ->
   resolve mimes schema ctx now input w
   = (Err (TalawaGraphQLError arguments_associated_resources_not_found
             [mkIssue [Key "input"; Key "organizationId"] None]), w))
  /\
  (forall org memberships,
      findOrganization (db w) (inputOrganizationId parsed) (currentUserId ctx)
      = Some (org, memberships) ->
      userRole currentUser <> "administrator" ->
      (forall m, In m (organizationMembershipsTable (db w)) ->
                 memberId m = currentUserId ctx ->
                 membershipOrganizationId m = inputOrganizationId parsed ->
                 membershipRole m <> "administrator") ->
      resolve mimes schema ctx now input w
      = (Err (TalawaGraphQLError
                unauthorized_action_on_arguments_associated_resources
                [mkIssue [Key "input"; Key "organizationId"] None]), w))
  /\
  (forall org memberships,
      findOrganization (db w) (inputOrganizationId parsed) (currentUserId ctx)
      = Some (org, memberships) ->
      userRole currentUser = "administrator" ->
      resolve mimes schema ctx now input w
      = transaction (transactionBody ctx now parsed) w).
Proof.
  intros Hauth Hparse Huser.
  assert (Hresolve :
    resolve mimes schema ctx now input w
    = match findOrganization (db w) (inputOrganizationId parsed)
              (currentUserId ctx) with
      | None => (Err (TalawaGraphQLError
                        arguments_associated_resources_not_found
                        organizationIdIssue), w)
      | Some (_, memberships) =>
          if unauthorized currentUser memberships
          then (Err (TalawaGraphQLError
                       unauthorized_action_on_arguments_associated_resources
                       organizationIdIssue), w)
          else transaction (transactionBody ctx now parsed) w
      end).
  { unfold resolve. rewrite Hauth, Hparse. cbn [negb].
    unfold bind, getDb. rewrite Huser.
    destruct (findOrganization _ _ _) as [[org ms]|]; [|reflexivity].
    destruct (unauthorized currentUser ms); reflexivity. }
  rewrite Hresolve. repeat split.
  - intros ->. reflexivity.
  - intros org ms Horg Hrole Hmember. rewrite Horg.
    assert (Hun : unauthorized currentUser ms = true).
    { unfold unauthorized.
      destruct (String.eqb_spec (userRole currentUser) "administrator")
        as [Heq|_]; [contradiction|].
      cbn [negb andb].
      destruct ms as [|m ms']; [reflexivity|]. cbn [hd_error].
      destruct (String.eqb_spec (membershipRole m) "administrator")
        as [Heq|_]; [|reflexivity].
      exfalso.
      unfold findOrganization in Horg.
      destruct (find _ (organizationsTable (db w))) as [o|] eqn:Hfind;
        [|discriminate].
      injection Horg as -> Hms.
      apply find_some in Hfind as [_ Hid]. apply Nat.eqb_eq in Hid.
      assert (Hin : In m (filter
                 (fun m0 => Nat.eqb (membershipOrganizationId m0) (orgId org)
                            && Nat.eqb (memberId m0) (currentUserId ctx))
                 (organizationMembershipsTable (db w))))
        by (rewrite Hms; now left).
      apply filter_In in Hin as [Hin Hm].
      apply andb_true_iff in Hm as [Ho Hu].
      apply Nat.eqb_eq in Ho. apply Nat.eqb_eq in Hu.
      apply (Hmember m Hin Hu); congruence. }
    rewrite Hun. reflexivity.
  - intros org ms Horg Hrole. rewrite Horg.
    unfold unauthorized. rewrite Hrole. reflexivity.
Qed.

(** A request that passes the checks runs the transaction. *)
Lemma resolve_passes (ctx : Context) (now : Z)
  (input parsed : MutationCreateEventInput) (w : World) :
  passesChecks mimes schema ctx input parsed w ->
  resolve mimes schema ctx now input w
  = transaction (transactionBody ctx now parsed) w.
Proof.
  intros (Hauth & Hparse & user & org & ms & Huser & Horg & Hun).
  unfold resolve. rewrite Hauth, Hparse. cbn [negb].
  unfold bind, getDb. rewrite Huser, Horg, Hun. reflexivity.
Qed.

End Checks.

(** The sample schema accepts a request whose attachments all carry an
    allowed media type. *)
Lemma sample_parses (recurrence : option RecurrenceArg)
  (uploads : option (list FileUpload)) :
  match uploads with
  | Some l =>
      forallb (fun u => mimeTypeAllowed Sample.mimeTypes (mimetype u)) l
  | None => true
  end = true ->
  safeParseAsync Sample.mimeTypes Sample.acceptingSchema
    (Sample.input recurrence uploads)
  = inr (Sample.input recurrence uploads).
Proof.
  intros Hok.
  unfold safeParseAsync, Sample.acceptingSchema, transformInput.
  cbn [inputAttachments Sample.input].
  destruct uploads as [l|]; [|reflexivity].
  assert (Hnone : mimeTypeIssues Sample.mimeTypes l = []).
  { unfold mimeTypeIssues, indexed. apply (issues_all_allowed Sample.mimeTypes).
    apply Forall_forall. intros u Hu.
    rewrite forallb_forall in Hok. now apply Hok. }
  now rewrite Hnone.
Defined.

(** User 1, who administers organization 10, passes the checks there. *)
Lemma sample_passes (recurrence : option RecurrenceArg)
  (uploads : option (list FileUpload)) :
  match uploads with
  | Some l =>
      forallb (fun u => mimeTypeAllowed Sample.mimeTypes (mimetype u)) l
  | None => true
  end = true ->
  passesChecks Sample.mimeTypes Sample.acceptingSchema (Sample.context 1)
    (Sample.input recurrence uploads) (Sample.input recurrence uploads)
    Sample.world.
Proof.
  intros Hok. split; [reflexivity|]. split.
  - now apply sample_parses.
  - exists (mkUser 1 "regular"), (mkOrganization 10 None),
           [mkMembership 1 10 "administrator"].
    repeat split.
Defined.

Lemma one_disallowed_media_type_one_issue_witness :
  resolve Sample.mimeTypes Sample.acceptingSchema (Sample.context 1)
    (Sample.jan2024 1)
    (Sample.input None
       (Some [Sample.upload "image/png";
              Sample.upload "application/x-msdownload";
              Sample.upload "video/mp4"]))
    Sample.world
  = (Err (TalawaGraphQLError invalid_arguments
            [mkIssue [Key "input"; Key "attachments"; Index 1]
               (Some ("Mime type " ++ doubleQuote
                      ++ "application/x-msdownload" ++ doubleQuote
                      ++ " is not allowed.")%string)]),
     Sample.world).
Proof.
  apply (one_disallowed_media_type_one_issue Sample.mimeTypes
           Sample.acceptingSchema (Sample.context 1) (Sample.jan2024 1)
           (Sample.input None
              (Some [Sample.upload "image/png";
                     Sample.upload "application/x-msdownload";
                     Sample.upload "video/mp4"]))
           (Sample.input None
              (Some [Sample.upload "image/png";
                     Sample.upload "application/x-msdownload";
                     Sample.upload "video/mp4"]))
           [Sample.upload "image/png"] [Sample.upload "video/mp4"]
           (Sample.upload "application/x-msdownload")).
  - reflexivity.
  - reflexivity.
  - reflexivity.
  - repeat constructor.
  - reflexivity.
Defined.

(** User 3, a regular member of organization 10 who administers
    organization 11, is turned away from organization 10; user 2, a global
    administrator without any membership, is let into the transaction. *)
Lemma authorization_boundary_witness :
  resolve Sample.mimeTypes Sample.acceptingSchema (Sample.context 3)
    (Sample.jan2024 1) (Sample.input None None) Sample.world
  = (Err (TalawaGraphQLError
            unauthorized_action_on_arguments_associated_resources
            [mkIssue [Key "input"; Key "organizationId"] None]),
     Sample.world)
  /\ resolve Sample.mimeTypes Sample.acceptingSchema (Sample.context 2)
       (Sample.jan2024 1) (Sample.input None None) Sample.world
     = transaction
         (transactionBody (Sample.context 2) (Sample.jan2024 1)
            (Sample.input None None))
         Sample.world.
Proof.
  split.
  - destruct (authorization_boundary Sample.mimeTypes Sample.acceptingSchema
                (Sample.context 3) (Sample.jan2024 1) (Sample.input None None)
                (Sample.input None None) (mkUser 3 "regular") Sample.world
                eq_refl eq_refl eq_refl)
      as (_ & Hdenied & _).
    apply (Hdenied (mkOrganization 10 None) [mkMembership 3 10 "regular"]).
    + reflexivity.
    + discriminate.
    + intros m Hin Hmember Horg.
      cbn in Hin.
      destruct Hin as [<-|[<-|[<-|[]]]]; cbn in *;
        try discriminate; congruence.
  - destruct (authorization_boundary Sample.mimeTypes Sample.acceptingSchema
                (Sample.context 2) (Sample.jan2024 1) (Sample.input None None)
                (Sample.input None None) (mkUser 2 "administrator")
                Sample.world eq_refl eq_refl eq_refl)
      as (_ & _ & Hadmin).
    apply (Hadmin (mkOrganization 10 None) []); reflexivity.
Defined.

(** ** The resolver: the transaction *)

Section Attachments.

Variable ctx : Context.
Variable createdEventId : Id.

(** Drawing one [ulid()] per upload. *)
Lemma names_drawn (uploads : list FileUpload) :
  forall w,
    mapM (fun attachment =>
            bind ulid (fun name =>
              ret (attachmentValues ctx createdEventId attachment name)))
         uploads w
    = (Ok (attachmentRows ctx createdEventId (nextUlid w) uploads),
       mkWorld (db w) (objectStore w) (nextUuid w)
         (nextUlid w + List.length uploads)%nat).
Proof.
  induction uploads as [|u us IH]; intros w.
  - cbn. rewrite Nat.add_0_r. now destruct w.
  - cbn [mapM]. unfold bind at 1 2. unfold ulid at 1. unfold ret at 1.
    unfold bind at 1. rewrite IH. cbn [nextUlid db objectStore nextUuid].
    unfold ret. unfold attachmentRows.
    cbn [List.length seq combine map fst snd].
    rewrite Nat.add_succ_r. reflexivity.
Qed.

(** The [putObject] calls: one per row, in the order of the rows. *)
Lemma objects_put (rows : list AttachmentRow) :
  forall (ups pre : list FileUpload) (w : World),
    List.length rows = List.length ups ->
    mapM (fun ia : nat * AttachmentRow =>
            match nth_error (pre ++ ups) (fst ia) with
            | Some upload => putObject (putAttachment ctx (snd ia) upload)
            | None => ret tt
            end)
         (combine (seq (List.length pre) (List.length rows)) rows) w
    = (Ok (map (fun _ => tt) rows),
       mkWorld (db w) (objectStore w ++ attachmentPuts ctx rows ups)
         (nextUuid w) (nextUlid w)).
Proof.
  induction rows as [|r rs IH]; intros ups pre w Hlen.
  - cbn. unfold ret, attachmentPuts. cbn. rewrite app_nil_r. now destruct w.
  - destruct ups as [|u us]; [discriminate|].
    injection Hlen as Hlen.
    cbn [List.length seq combine mapM fst snd].
    rewrite nth_error_app2 by lia. rewrite Nat.sub_diag. cbn [nth_error].
    unfold bind at 1. unfold putObject at 1.
    unfold bind at 1.
    replace (pre ++ u :: us) with ((pre ++ [u]) ++ us)
      by (now rewrite <- app_assoc).
    replace (S (List.length pre)) with (List.length (pre ++ [u]))
      by (rewrite length_app; cbn; lia).
    rewrite (IH us (pre ++ [u]) _ Hlen).
    cbn [db objectStore nextUuid nextUlid]. unfold ret.
    unfold attachmentPuts. cbn [combine map fst snd].
    rewrite <- app_assoc. reflexivity.
Qed.

Lemma attachmentRows_length (k : Id) (uploads : list FileUpload) :
  List.length (attachmentRows ctx createdEventId k uploads)
  = List.length uploads.
Proof.
  unfold attachmentRows.
  rewrite length_map, length_combine, length_seq. apply Nat.min_id.
Qed.

Lemma attachmentRows_owner (first : Id) (uploads : list FileUpload) :
  Forall (fun a => attachmentEventId a = createdEventId)
         (attachmentRows ctx createdEventId first uploads).
Proof.
  unfold attachmentRows. apply Forall_forall. intros a Ha.
  apply in_map_iff in Ha as [iu [<- _]]. reflexivity.
Qed.

Lemma attachmentPuts_columns (rows : list AttachmentRow) :
  forall uploads,
    List.length rows = List.length uploads ->
    map putKey (attachmentPuts ctx rows uploads) = map attachmentName rows
    /\ map putContentType (attachmentPuts ctx rows uploads)
       = map attachmentMimeType rows.
Proof.
  unfold attachmentPuts.
  induction rows as [|r rs IH]; intros [|u us] Hlen; try discriminate.
  - split; reflexivity.
  - injection Hlen as Hlen. destruct (IH us Hlen) as (Hk & Hc).
    cbn [combine map fst snd putAttachment putKey putContentType].
    rewrite Hk, Hc. split; reflexivity.
Qed.

(** The attachment block on a non-empty list of uploads. *)
Lemma persistAttachments_run (u : FileUpload) (us : list FileUpload)
  (w : World) :
  let rows := attachmentRows ctx createdEventId (nextUlid w) (u :: us) in
  persistAttachments ctx createdEventId (u :: us) w
  = (Ok rows,
     mkWorld (withAttachments (db w) (eventAttachmentsTable (db w) ++ rows))
       (objectStore w ++ attachmentPuts ctx rows (u :: us))
       (nextUuid w) (nextUlid w + List.length (u :: us))%nat).
Proof.
  intros rows. unfold persistAttachments.
  unfold bind at 1. rewrite names_drawn. fold rows.
  unfold bind at 1.
  assert (Hrows : exists r rs, rows = r :: rs).
  { unfold rows, attachmentRows. cbn [List.length seq combine map]. eauto. }
  destruct Hrows as [r [rs Hrows]].
  unfold insertEventAttachments. rewrite Hrows.
  unfold bind at 1. unfold modifyDb at 1. rewrite <- Hrows.
  cbn [db objectStore nextUuid nextUlid].
  unfold ret at 1.
  unfold bind at 1. unfold indexed.
  pose proof (objects_put rows (u :: us) []) as Hput.
  cbn [List.length app] in Hput.
  cbn [List.length].
  rewrite Hput by (apply attachmentRows_length).
  cbn [db objectStore nextUuid nextUlid]. unfold ret. reflexivity.
Qed.

End Attachments.

Lemma linkRule_fresh (base rule : Id) (events : list EventRow) :
  Forall (fun e => eventId e <> base) events ->
  linkRule base rule events = events.
Proof.
  induction 1 as [|e l He Hl IH]; [reflexivity|].
  cbn. apply Nat.eqb_neq in He. rewrite He. f_equal. exact IH.
Qed.

(** With a fresh identifier, linking touches the new base row only. *)
Lemma linkRule_base (ctx : Context) (input : MutationCreateEventInput)
  (base rule : Id) (events : list EventRow) :
  Forall (fun e => eventId e <> base) events ->
  linkRule base rule (events ++ [baseEventValues ctx input base])
  = events ++ [setRecurrenceRuleId rule (baseEventValues ctx input base)].
Proof.
  intros Hfresh. unfold linkRule. rewrite map_app.
  fold (linkRule base rule events).
  rewrite (linkRule_fresh base rule events Hfresh).
  cbn [map eventId baseEventValues]. now rewrite Nat.eqb_refl.
Qed.

Lemma insertEvent_run (v : Id -> EventRow) (w : World) :
  insertEvent v w = (Ok [v (nextUuid w)], afterEvent w (v (nextUuid w))).
Proof. reflexivity. Qed.

Lemma transaction_ok {A : Type} (body : M A) (w w' : World) (a : A) :
  body w = (Ok a, w') -> transaction body w = (Ok a, w').
Proof. intros H. unfold transaction. now rewrite H. Qed.

(** The [if (isRecurring)] block, once encoding and expansion have
    succeeded: it returns from inside only when an instant was expanded. *)
Lemma recurringBlock_run (ctx : Context) (now : Z)
  (input : MutationCreateEventInput) (recurrence : RecurrenceArg)
  (s : string) (dates : list Z) (w : World) :
  generateRecurrenceRuleString now
    (helperInput (inputStartAt input) recurrence) = Ok s ->
  getRecurringInstanceDates now s (inputStartAt input)
    (Some match argRecurrenceEndDate recurrence with
          | Some e => e
          | None => DateFns.addYears now 1
          end) None
  = Ok dates ->
  recurringBlock ctx now input recurrence w
  = match dates with
    | [] => (Ok None, afterRule ctx input recurrence s dates w)
    | firstInstance :: _ =>
        let b := nextUuid w in
        let inst := instanceValues ctx input firstInstance b (S b) (S (S b)) in
        match inputAttachments input with
        | Some uploads =>
            bind (persistAttachments ctx (S (S b)) uploads)
                 (fun rows => ret (Some (mkResult inst rows)))
                 (afterEvent (afterRule ctx input recurrence s dates w) inst)
        | None =>
            (Ok (Some (mkResult inst [])),
             afterEvent (afterRule ctx input recurrence s dates w) inst)
        end
    end.
Proof.
  intros Hs Hdates.
  unfold recurringBlock.
  unfold bind at 1. rewrite insertEvent_run. cbn [hd_error].
  unfold bind at 1. rewrite Hs. unfold liftR at 1.
  unfold bind at 1. cbn [eventId baseEventValues].
  rewrite Hdates. unfold liftR at 1.
  unfold bind at 1. unfold insertRecurrenceRule at 1.
  unfold bind at 1. unfold uuidv7 at 1.
  unfold bind at 1. unfold modifyDb at 1.
  unfold ret at 1. cbn [hd_error ruleId recurrenceRuleValues].
  unfold bind at 1. unfold updateRecurrenceRuleId at 1. unfold modifyDb at 1.
  cbn [db objectStore nextUuid nextUlid afterEvent eventsTable
       recurrenceRulesTable usersTable organizationsTable
       organizationMembershipsTable eventAttachmentsTable withEvents
       withRules].
  unfold afterRule.
  destruct dates as [|firstInstance rest]; cbn [hd_error].
  - reflexivity.
  - unfold bind at 1. rewrite insertEvent_run. cbn [hd_error].
    destruct (inputAttachments input) as [uploads|]; reflexivity.
Qed.

Section Transaction.

Variable mimes : list string.
Variable schema :
  MutationCreateEventInput -> list Issue + MutationCreateEventInput.

(** C2.  A recurring request that passes the checks (with attachments
    absent or non-empty), whose rule encodes and whose expansion yields at
    least one instant, completes; next to the base event (linked to the
    rule) and the rule, exactly one more event row is stored, and that row
    is the value returned: it starts at the first expanded instant, ends
    that instant plus [endAt - startAt] of the input, is not a base
    recurring event, and carries the ids of the base event and of the
    rule. *)
Theorem first_instance_created_and_returned
  (ctx : Context) (now : Z) (input parsed : MutationCreateEventInput)
  (recurrence : RecurrenceArg) (s : string) (firstInstance : Z)
  (rest : list Z) (w : World) :
  passesChecks mimes schema ctx input parsed w ->
  inputRecurrence parsed = Some recurrence ->
  inputAttachments parsed <> Some [] ->
  Forall (fun e => eventId e <> nextUuid w) (eventsTable (db w)) ->
  generateRecurrenceRuleString now
    (helperInput (inputStartAt parsed) recurrence) = Ok s ->
  getRecurringInstanceDates now s (inputStartAt parsed)
    (Some match argRecurrenceEndDate recurrence with
          | Some e => e
          | None => DateFns.addYears now 1
          end) None
  = Ok (firstInstance :: rest) ->
  let base := nextUuid w in
  let rule := S base in
  let instance := instanceValues ctx parsed firstInstance base rule (S rule) in
  exists rows w',
    resolve mimes schema ctx now input w = (Ok (mkResult instance rows), w')
    /\ eventsTable (db w')
       = eventsTable (db w)
         ++ [setRecurrenceRuleId rule (baseEventValues ctx parsed base);
             instance]
    /\ recurrenceRulesTable (db w')
       = recurrenceRulesTable (db w)
         ++ [recurrenceRuleValues ctx parsed recurrence s
               (firstInstance :: rest) base rule]
    /\ eventStartAt instance = firstInstance
    /\ eventEndAt instance
       = firstInstance + (inputEndAt parsed - inputStartAt parsed)
    /\ isRecurring instance = true
    /\ isBaseRecurringEvent instance = false
    /\ baseRecurringEventId instance = Some base
    /\ recurrenceRuleId instance = Some rule.
Proof.
  intros Hpass Hrec Hatt Hfresh Hs Hdates base rule instance.
  rewrite (resolve_passes mimes schema ctx now input parsed w Hpass).
  assert (Hbody : exists rows w',
    transactionBody ctx now parsed w = (Ok (mkResult instance rows), w')
    /\ eventsTable (db w')
       = linkRule base rule
           (eventsTable (db w) ++ [baseEventValues ctx parsed base])
         ++ [instance]
    /\ recurrenceRulesTable (db w')
       = recurrenceRulesTable (db w)
         ++ [recurrenceRuleValues ctx parsed recurrence s
               (firstInstance :: rest) base rule]).
  { unfold transactionBody. rewrite Hrec. unfold bind at 1.
    rewrite (recurringBlock_run ctx now parsed recurrence s
               (firstInstance :: rest) w Hs Hdates).
    cbv zeta. fold base. fold rule. fold instance.
    destruct (inputAttachments parsed) as [[|u us]|].
    - contradiction.
    - unfold bind at 1. rewrite persistAttachments_run. unfold ret.
      eexists. eexists. split; [reflexivity|]. split; reflexivity.
    - unfold ret.
      eexists. eexists. split; [reflexivity|]. split; reflexivity. }
  destruct Hbody as (rows & w' & Hrun & Hevents & Hrules).
  exists rows, w'. rewrite (transaction_ok _ w w' _ Hrun).
  rewrite Hevents, (linkRule_base ctx parsed base rule _ Hfresh),
    <- app_assoc.
  repeat split; try reflexivity. exact Hrules.
Qed.

(** C9.  On the recurring path with at least one expanded instant and a
    non-empty attachment list, the returned event is the first instance
    (not the base event); one attachment row per upload is stored, each
    owned by the first instance; and one object is written per row, in row
    order, under the row's generated name and with the row's media type as
    content type. *)
Theorem recurring_attachments_belong_to_first_instance
  (ctx : Context) (now : Z) (input parsed : MutationCreateEventInput)
  (recurrence : RecurrenceArg) (s : string) (firstInstance : Z)
  (rest : list Z) (upload : FileUpload) (uploads : list FileUpload)
  (w : World) :
  passesChecks mimes schema ctx input parsed w ->
  inputRecurrence parsed = Some recurrence ->
  inputAttachments parsed = Some (upload :: uploads) ->
  generateRecurrenceRuleString now
    (helperInput (inputStartAt parsed) recurrence) = Ok s ->
  getRecurringInstanceDates now s (inputStartAt parsed)
    (Some match argRecurrenceEndDate recurrence with
          | Some e => e
          | None => DateFns.addYears now 1
          end) None
  = Ok (firstInstance :: rest) ->
  let base := nextUuid w in
  let instance := S (S base) in
  exists result puts w',
    resolve mimes schema ctx now input w = (Ok result, w')
    /\ eventId (event result) = instance
    /\ isBaseRecurringEvent (event result) = false
    /\ baseRecurringEventId (event result) = Some base
    /\ instance <> base
    /\ Forall (fun a => attachmentEventId a = instance) (attachments result)
    /\ eventAttachmentsTable (db w')
       = eventAttachmentsTable (db w) ++ attachments result
    /\ List.length (attachments result) = List.length (upload :: uploads)
    /\ objectStore w' = objectStore w ++ puts
    /\ puts = map (fun ru => putAttachment ctx (fst ru) (snd ru))
                  (combine (attachments result) (upload :: uploads))
    /\ map putKey puts = map attachmentName (attachments result)
    /\ map putContentType puts = map attachmentMimeType (attachments result).
Proof.
  intros Hpass Hrec Hatt Hs Hdates base instance.
  rewrite (resolve_passes mimes schema ctx now input parsed w Hpass).
  set (rows := attachmentRows ctx instance (nextUlid w) (upload :: uploads)).
  assert (Hlen : List.length rows = List.length (upload :: uploads))
    by apply attachmentRows_length.
  destruct (attachmentPuts_columns ctx rows (upload :: uploads) Hlen)
    as (Hkeys & Htypes).
  eexists. exists (attachmentPuts ctx rows (upload :: uploads)). eexists.
  split.
  { apply transaction_ok.
    unfold transactionBody. rewrite Hrec. unfold bind at 1.
    rewrite (recurringBlock_run ctx now parsed recurrence s
               (firstInstance :: rest) w Hs Hdates).
    cbv zeta. rewrite Hatt.
    unfold bind at 1. rewrite persistAttachments_run. unfold ret.
    reflexivity. }
  cbn [event attachments eventId instanceValues isBaseRecurringEvent
       baseRecurringEventId db objectStore eventAttachmentsTable
       withAttachments afterEvent afterRule withEvents withRules nextUlid].
  fold base. fold instance. fold rows.
  repeat split; try assumption; try reflexivity.
  - subst instance. lia.
  - apply attachmentRows_owner.
Qed.

(** C1, what the code does.  A recurring request that passes the checks
    and whose expansion yields no instant completes, and the rule's
    [latestInstanceDate] is the input's [startAt]; but control leaves the
    [if (isRecurring)] block and runs the statements written for a
    non-recurring event: next to the base event and the rule, a second
    event row is stored, not recurring and linked to neither, and that row
    is returned. *)
Theorem empty_expansion_falls_through_to_standalone_event
  (ctx : Context) (now : Z) (input parsed : MutationCreateEventInput)
  (recurrence : RecurrenceArg) (s : string) (w : World) :
  passesChecks mimes schema ctx input parsed w ->
  inputRecurrence parsed = Some recurrence ->
  inputAttachments parsed <> Some [] ->
  Forall (fun e => eventId e <> nextUuid w) (eventsTable (db w)) ->
  generateRecurrenceRuleString now
    (helperInput (inputStartAt parsed) recurrence) = Ok s ->
  getRecurringInstanceDates now s (inputStartAt parsed)
    (Some match argRecurrenceEndDate recurrence with
          | Some e => e
          | None => DateFns.addYears now 1
          end) None
  = Ok [] ->
  let base := nextUuid w in
  let rule := S base in
  let ruleRow := recurrenceRuleValues ctx parsed recurrence s [] base rule in
  let extra := standaloneValues ctx parsed (S rule) in
  exists rows w',
    resolve mimes schema ctx now input w = (Ok (mkResult extra rows), w')
    /\ eventsTable (db w')
       = eventsTable (db w)
         ++ [setRecurrenceRuleId rule (baseEventValues ctx parsed base);
             extra]
    /\ recurrenceRulesTable (db w') = recurrenceRulesTable (db w) ++ [ruleRow]
    /\ ruleLatestInstanceDate ruleRow = inputStartAt parsed
    /\ isRecurring extra = false
    /\ baseRecurringEventId extra = None
    /\ recurrenceRuleId extra = None.
Proof.
  intros Hpass Hrec Hatt Hfresh Hs Hdates base rule ruleRow extra.
  rewrite (resolve_passes mimes schema ctx now input parsed w Hpass).
  assert (Hbody : exists rows w',
    transactionBody ctx now parsed w = (Ok (mkResult extra rows), w')
    /\ eventsTable (db w')
       = linkRule base rule
           (eventsTable (db w) ++ [baseEventValues ctx parsed base])
         ++ [extra]
    /\ recurrenceRulesTable (db w')
       = recurrenceRulesTable (db w) ++ [ruleRow]).
  { unfold transactionBody. rewrite Hrec. unfold bind at 1.
    rewrite (recurringBlock_run ctx now parsed recurrence s [] w Hs Hdates).
    unfold standaloneBlock. unfold bind at 1. rewrite insertEvent_run.
    cbn [hd_error].
    destruct (inputAttachments parsed) as [[|u us]|].
    - contradiction.
    - unfold bind at 1. rewrite persistAttachments_run. unfold ret.
      eexists. eexists. split; [reflexivity|]. split; reflexivity.
    - unfold ret.
      eexists. eexists. split; [reflexivity|]. split; reflexivity. }
  destruct Hbody as (rows & w' & Hrun & Hevents & Hrules).
  exists rows, w'. rewrite (transaction_ok _ w w' _ Hrun).
  rewrite Hevents, (linkRule_base ctx parsed base rule _ Hfresh),
    <- app_assoc.
  repeat split; try reflexivity. exact Hrules.
Qed.

End Transaction.

(** The weekly sample request: the first instance, on 2024-01-01, is
    returned and stored after the base event. *)
Lemma first_instance_created_and_returned_witness :
  exists rows w',
    resolve Sample.mimeTypes Sample.acceptingSchema (Sample.context 1)
      (Sample.jan2024 1) (Sample.input (Some Sample.weeklyArg) None)
      Sample.world
    = (Ok (mkResult
             (instanceValues (Sample.context 1)
                (Sample.input (Some Sample.weeklyArg) None)
                (Sample.jan2024 1) 100 101 102) rows), w')
    /\ eventsTable (db w')
       = [setRecurrenceRuleId 101
            (baseEventValues (Sample.context 1)
               (Sample.input (Some Sample.weeklyArg) None) 100);
          instanceValues (Sample.context 1)
            (Sample.input (Some Sample.weeklyArg) None)
            (Sample.jan2024 1) 100 101 102].
Proof.
  destruct (first_instance_created_and_returned Sample.mimeTypes
              Sample.acceptingSchema (Sample.context 1) (Sample.jan2024 1)
              (Sample.input (Some Sample.weeklyArg) None)
              (Sample.input (Some Sample.weeklyArg) None) Sample.weeklyArg
              Sample.weeklyRuleString (Sample.jan2024 1)
              [Sample.jan2024 3; Sample.jan2024 5; Sample.jan2024 8;
               Sample.jan2024 10; Sample.jan2024 12]
              Sample.world)
    as (rows & w' & Hrun & Hevents & _).
  - apply sample_passes. reflexivity.
  - reflexivity.
  - discriminate.
  - constructor.
  - vm_compute. reflexivity.
  - vm_compute. reflexivity.
  - exists rows, w'. split; [exact Hrun|exact Hevents].
Defined.

(** The weekly sample request with two uploads: both rows belong to event
    102, the first instance, and two objects are written under the two
    generated names. *)
Lemma recurring_attachments_belong_to_first_instance_witness :
  exists result puts w',
    resolve Sample.mimeTypes Sample.acceptingSchema (Sample.context 1)
      (Sample.jan2024 1)
      (Sample.input (Some Sample.weeklyArg)
         (Some [Sample.upload "image/png"; Sample.upload "video/mp4"]))
      Sample.world
    = (Ok result, w')
    /\ eventId (event result) = 102%nat
    /\ Forall (fun a => attachmentEventId a = 102%nat) (attachments result)
    /\ objectStore w' = puts
    /\ map putKey puts = map attachmentName (attachments result)
    /\ map putContentType puts = ["image/png"; "video/mp4"].
Proof.
  destruct (recurring_attachments_belong_to_first_instance Sample.mimeTypes
              Sample.acceptingSchema (Sample.context 1) (Sample.jan2024 1)
              (Sample.input (Some Sample.weeklyArg)
                 (Some [Sample.upload "image/png"; Sample.upload "video/mp4"]))
              (Sample.input (Some Sample.weeklyArg)
                 (Some [Sample.upload "image/png"; Sample.upload "video/mp4"]))
              Sample.weeklyArg Sample.weeklyRuleString (Sample.jan2024 1)
              [Sample.jan2024 3; Sample.jan2024 5; Sample.jan2024 8;
               Sample.jan2024 10; Sample.jan2024 12]
              (Sample.upload "image/png") [Sample.upload "video/mp4"]
              Sample.world)
    as (result & puts & w' & Hrun & Hid & _ & _ & _ & Hown & _ & _ & Hstore
        & Hputs & Hkeys & Htypes).
  - apply sample_passes. reflexivity.
  - reflexivity.
  - reflexivity.
  - vm_compute. reflexivity.
  - vm_compute. reflexivity.
  - exists result, puts, w'.
    split; [exact Hrun|]. split; [exact Hid|]. split; [exact Hown|].
    split; [exact Hstore|]. split; [exact Hkeys|].
    rewrite Htypes.
    unfold resolve in Hrun. vm_compute in Hrun.
    injection Hrun as <- _. reflexivity.
Defined.

(** The sample request for every 30 February: no instant is expanded, and
    the store ends up with two event rows, the base event and a
    non-recurring event, which is what the caller receives. *)
Lemma empty_expansion_falls_through_to_standalone_event_witness :
  exists w',
    resolve Sample.mimeTypes Sample.acceptingSchema (Sample.context 1)
      (Sample.jan2024 1) (Sample.input (Some Sample.neverArg) None)
      Sample.world
    = (Ok (mkResult
             (standaloneValues (Sample.context 1)
                (Sample.input (Some Sample.neverArg) None) 102) []), w')
    /\ eventsTable (db w')
       = [setRecurrenceRuleId 101
            (baseEventValues (Sample.context 1)
               (Sample.input (Some Sample.neverArg) None) 100);
          standaloneValues (Sample.context 1)
            (Sample.input (Some Sample.neverArg) None) 102]
    /\ map ruleLatestInstanceDate (recurrenceRulesTable (db w'))
       = [Sample.jan2024 1].
Proof.
  destruct (empty_expansion_falls_through_to_standalone_event Sample.mimeTypes
              Sample.acceptingSchema (Sample.context 1) (Sample.jan2024 1)
              (Sample.input (Some Sample.neverArg) None)
              (Sample.input (Some Sample.neverArg) None) Sample.neverArg
              Sample.neverRuleString Sample.world)
    as (rows & w' & Hrun & Hevents & Hrules & _).
  - apply sample_passes. reflexivity.
  - reflexivity.
  - discriminate.
  - constructor.
  - vm_compute. reflexivity.
  - vm_compute. reflexivity.
  - exists w'.
    assert (Hrows : rows = []).
    { unfold resolve in Hrun. vm_compute in Hrun. now injection Hrun. }
    subst rows.
    split; [exact Hrun|]. split; [exact Hevents|].
    rewrite Hrules. reflexivity.
Defined.

(** * Further properties

    Properties of the same code beyond the statements of the
    specification: what the rule text keeps of a recurrence, the order and
    the number of the expanded instants, the rows a creation leaves behind,
    its failures, and the validation of the [recurrence] argument. *)

(** ** The calendar and the date form *)

Section CalendarFacts.
Import Calendar.

Lemma civil_crux (doe : Z) :
  0 <= doe <= 146096 ->
  let yoe := (doe - doe / 1460 + doe / 36524 - doe / 146096) / 365 in
  let doy := doe - (365 * yoe + yoe / 4 - yoe / 100) in
  0 <= yoe <= 399 /\ 0 <= doy <= 365.
Proof.
  intros H. cbv zeta. Z.to_euclidean_division_equations. lia.
Qed.

(** The civil date of a day number is a date of the calendar, and it is the
    date of that day. *)
Lemma civilFromDays_spec (z : Z) :
  let '(y, m, d) := civilFromDays z in
  daysFromCivil y m d = z /\ 1 <= m <= 12 /\ 1 <= d <= 31.
Proof.
  unfold civilFromDays.
  set (era := (z + 719468) / 146097).
  set (doe := z + 719468 - era * 146097).
  assert (Hdoe : 0 <= doe <= 146096).
  { subst doe era. Z.to_euclidean_division_equations. lia. }
  destruct (civil_crux doe Hdoe) as [Hyoe Hdoy]. cbv zeta in Hyoe, Hdoy.
  cbv zeta.
  set (yoe := (doe - doe / 1460 + doe / 36524 - doe / 146096) / 365) in *.
  set (doy := doe - (365 * yoe + yoe / 4 - yoe / 100)) in *.
  set (mp := (5 * doy + 2) / 153).
  assert (Hmp : 0 <= mp <= 11).
  { subst mp. Z.to_euclidean_division_equations. lia. }
  assert (Hd : 1 <= doy - (153 * mp + 2) / 5 + 1 <= 31).
  { subst mp. Z.to_euclidean_division_equations. lia. }
  unfold daysFromCivil.
  destruct (Z.ltb_spec mp 10) as [Hlt|Hge].
  - destruct (Z.leb_spec (mp + 3) 2) as [Hle|Hgt]; [lia|].
    destruct (Z.ltb_spec 2 (mp + 3)) as [_|Hbad]; [|lia].
    replace ((yoe + era * 400) / 400) with era
      by (Z.to_euclidean_division_equations; lia).
    cbv zeta. split; [|lia].
    replace (mp + 3 - 3) with mp by lia.
    replace (yoe + era * 400 - era * 400) with yoe by lia.
    subst doy doe. lia.
  - destruct (Z.leb_spec (mp - 9) 2) as [Hle|Hgt]; [|lia].
    destruct (Z.ltb_spec 2 (mp - 9)) as [Hbad|_]; [lia|].
    replace ((yoe + era * 400 + 1 - 1) / 400) with era
      by (Z.to_euclidean_division_equations; lia).
    cbv zeta. split; [|lia].
    replace (mp - 9 + 9) with mp by lia.
    replace (yoe + era * 400 + 1 - 1 - era * 400) with yoe by lia.
    subst doy doe. lia.
Qed.

(** The clock fields of an instant, and the instant rebuilt from its date and
    clock: the milliseconds are lost. *)
Lemma clock_fields (t : Z) :
  0 <= getUTCHours t <= 23 /\ 0 <= getUTCMinutes t <= 59
  /\ 0 <= getUTCSeconds t <= 59
  /\ dayOf t * msPerDay
     + ((getUTCHours t * 60 + getUTCMinutes t) * 60 + getUTCSeconds t) * 1000
     = t - t mod 1000.
Proof.
  unfold getUTCHours, getUTCMinutes, getUTCSeconds, msOfDay, dayOf, msPerDay.
  Z.to_euclidean_division_equations. lia.
Qed.

Lemma utc_of_fields (t : Z) :
  utc (getUTCFullYear t) (getUTCMonth1 t) (getUTCDate t) (getUTCHours t)
      (getUTCMinutes t) (getUTCSeconds t)
  = t - t mod 1000
  /\ 1 <= getUTCMonth1 t <= 12 /\ 1 <= getUTCDate t <= 31.
Proof.
  unfold utc, getUTCFullYear, getUTCMonth1, getUTCDate, yearOfDay, monthOfDay,
    mdayOfDay.
  pose proof (civilFromDays_spec (dayOf t)) as H.
  destruct (civilFromDays (dayOf t)) as [[y m] d]. cbn [fst snd].
  destruct H as (Hday & Hm & Hd). rewrite Hday.
  destruct (clock_fields t) as (_ & _ & _ & Hclock).
  split; [exact Hclock|]. split; assumption.
Qed.

End CalendarFacts.

Lemma allFrom_spec (p : Z -> bool) (n : nat) :
  forall z, allFrom n z p = true ->
  forall i, z <= i < z + Z.of_nat n -> p i = true.
Proof.
  induction n as [|n IH]; intros z H i Hi; [lia|].
  cbn [allFrom] in H. apply andb_true_iff in H as [Hz Hrest].
  destruct (Z.eq_dec i z) as [->|Hne]; [exact Hz|].
  apply (IH (z + 1) Hrest). lia.
Qed.

Lemma padded2_all : allFrom (Z.to_nat 100) 0 (paddedReadsBack 2) = true.
Proof. vm_compute. reflexivity. Qed.

Lemma padded4_all : allFrom (Z.to_nat 10000) 0 (paddedReadsBack 4) = true.
Proof. vm_compute. reflexivity. Qed.

Lemma length_two (s : string) :
  String.length s = 2%nat -> exists a b, s = String a (String b EmptyString).
Proof.
  destruct s as [|a [|b [|c s]]]; cbn; try discriminate. eauto.
Qed.

Lemma length_four (s : string) :
  String.length s = 4%nat ->
  exists a b c d,
    s = String a (String b (String c (String d EmptyString))).
Proof.
  destruct s as [|a [|b [|c [|d [|e s]]]]]; cbn; try discriminate.
  eauto 6.
Qed.

Lemma padded_reads_back (width : nat) (bound : nat) (n : Z) :
  allFrom bound 0 (paddedReadsBack width) = true ->
  0 <= n < Z.of_nat bound ->
  String.length (Text.padStart (Text.ofZ n) width) = width
  /\ Text.digitsToZ (Text.padStart (Text.ofZ n) width) = Some n.
Proof.
  intros Hall Hn.
  pose proof (allFrom_spec (paddedReadsBack width) bound 0 Hall n) as H.
  unfold paddedReadsBack in H.
  apply andb_true_iff in H as [Hlen Hdig]; [|lia].
  apply Nat.eqb_eq in Hlen. split; [exact Hlen|].
  destruct (Text.digitsToZ _) as [m|]; [|discriminate].
  apply Z.eqb_eq in Hdig. now subst.
Qed.

Lemma untilStringToDate_timeToUntilString (t : Z) :
  0 <= Calendar.getUTCFullYear t <= 9999 ->
  RRule.untilStringToDate (RRule.timeToUntilString t) = Ok (t - t mod 1000).
Proof.
  intros Hy.
  destruct (utc_of_fields t) as (Hutc & Hm & Hd).
  destruct (clock_fields t) as (Hh & Hmi & Hs & _).
  unfold RRule.timeToUntilString.
  destruct (padded_reads_back 4 (Z.to_nat 10000) (Calendar.getUTCFullYear t) padded4_all)
    as [Ly Dy]; [lia|].
  destruct (padded_reads_back 2 (Z.to_nat 100) (Calendar.getUTCMonth1 t) padded2_all)
    as [Lm Dm]; [lia|].
  destruct (padded_reads_back 2 (Z.to_nat 100) (Calendar.getUTCDate t) padded2_all)
    as [Ld Dd]; [lia|].
  destruct (padded_reads_back 2 (Z.to_nat 100) (Calendar.getUTCHours t) padded2_all)
    as [Lh Dh]; [lia|].
  destruct (padded_reads_back 2 (Z.to_nat 100) (Calendar.getUTCMinutes t) padded2_all)
    as [Lmi Dmi]; [lia|].
  destruct (padded_reads_back 2 (Z.to_nat 100) (Calendar.getUTCSeconds t) padded2_all)
    as [Ls Ds]; [lia|].
  destruct (length_four _ Ly) as (y1 & y2 & y3 & y4 & Ey).
  destruct (length_two _ Lm) as (m1 & m2 & Em).
  destruct (length_two _ Ld) as (d1 & d2 & Ed).
  destruct (length_two _ Lh) as (h1 & h2 & Eh).
  destruct (length_two _ Lmi) as (i1 & i2 & Ei).
  destruct (length_two _ Ls) as (s1 & s2 & Es).
  rewrite Ey in Dy |- *. rewrite Em in Dm |- *. rewrite Ed in Dd |- *.
  rewrite Eh in Dh |- *. rewrite Ei in Dmi |- *. rewrite Es in Ds |- *.
  unfold RRule.untilStringToDate.
  cbn [append String.length String.substring Nat.eqb].
  rewrite Dy, Dm, Dd, Dh, Dmi, Ds.
  cbn [orb andb String.eqb Ascii.eqb Bool.eqb].
  destruct (Z.leb_spec 1 (Calendar.getUTCMonth1 t)) as [_|Hbad]; [|lia].
  destruct (Z.leb_spec (Calendar.getUTCMonth1 t) 12) as [_|Hbad]; [|lia].
  cbn [andb]. now rewrite Hutc.
Qed.

(** ** Reading the rule text back *)

Section NumberTexts.

Import Text.

Lemma no_comma_uint (d : Decimal.uint) :
  contains "," (NilEmpty.string_of_uint d) = false.
Proof. induction d; cbn; auto. Qed.

Lemma to_int_shape (n : Z) :
  exists u, u <> Decimal.Nil
            /\ (Z.to_int n = Decimal.Pos u \/ Z.to_int n = Decimal.Neg u).
Proof.
  destruct n as [|p|p]; cbn.
  - exists (Decimal.D0 Decimal.Nil). split; [discriminate|now left].
  - exists (Pos.to_uint p). split; [apply Unsigned.to_uint_nonnil|now left].
  - exists (Pos.to_uint p). split; [apply Unsigned.to_uint_nonnil|now right].
Qed.

Lemma ofZ_no_comma (n : Z) : contains "," (ofZ n) = false.
Proof.
  unfold ofZ. destruct (to_int_shape n) as (u & Hu & [-> | ->]); cbn.
  - destruct u; try contradiction; apply no_comma_uint.
  - destruct u; try contradiction; apply no_comma_uint.
Qed.

Lemma uint_not_empty (u : Decimal.uint) :
  u <> Decimal.Nil -> NilEmpty.string_of_uint u <> EmptyString.
Proof. destruct u; cbn; congruence. Qed.

Lemma ofZ_not_empty (n : Z) : String.eqb (ofZ n) EmptyString = false.
Proof.
  apply String.eqb_neq. unfold ofZ.
  destruct (to_int_shape n) as (u & Hu & [-> | ->]); cbn.
  - destruct u; try contradiction; discriminate.
  - discriminate.
Qed.

Lemma toZ_ofZ (n : Z) : toZ (ofZ n) = Some n.
Proof.
  unfold toZ.
  assert (Hplus : contains "+" (ofZ n) = false).
  { apply plain_contains; [reflexivity|apply plain_ofZ]. }
  assert (Hsame : match ofZ n with
                  | String "+" rest => match rest with
                                       | String "-" _ => EmptyString
                                       | String "+" _ => EmptyString
                                       | _ => rest
                                       end
                  | _ => ofZ n
                  end = ofZ n).
  { destruct (ofZ n) as [|a s]; [reflexivity|].
    cbn in Hplus. apply orb_false_iff in Hplus as [Ha _].
    destruct (Ascii.eqb_spec a "+") as [->|Hne]; [discriminate|].
    destruct a as [[] [] [] [] [] [] [] []]; try reflexivity.
    now contradiction Hne. }
  rewrite Hsame. unfold ofZ.
  rewrite NilZero.isi.
  - now rewrite DecimalZ.of_to.
  - destruct (to_int_shape n) as (u & Hu & [-> | ->]); congruence.
  - destruct (to_int_shape n) as (u & Hu & [-> | ->]); congruence.
Qed.

Lemma parseScalar_ofZ (n : Z) : RRule.parseScalar (ofZ n) = Ok n.
Proof. unfold RRule.parseScalar. now rewrite toZ_ofZ. Qed.

Lemma mapR_parseScalar (l : list Z) :
  mapR RRule.parseScalar (map ofZ l) = Ok l.
Proof.
  induction l as [|x l IH]; [reflexivity|].
  cbn [map mapR]. now rewrite parseScalar_ofZ, IH.
Qed.

Lemma parseNumbers_numbersToString (l : list Z) :
  l <> [] -> RRule.parseNumbers (RRule.numbersToString l) = Ok l.
Proof.
  intros Hne. unfold RRule.parseNumbers, RRule.numbersToString.
  rewrite split_join.
  - apply mapR_parseScalar.
  - destruct l; [contradiction|discriminate].
  - apply Forall_forall. intros x Hx.
    apply in_map_iff in Hx as [n [<- _]]. apply ofZ_no_comma.
Qed.

Lemma join_not_empty (sep : string) (x : string) (l : list string) :
  String.eqb x EmptyString = false ->
  String.eqb (join sep (x :: l)) EmptyString = false.
Proof.
  intros Hx. destruct l as [|y l]; [exact Hx|].
  change (join sep (x :: y :: l)) with (x ++ sep ++ join sep (y :: l))%string.
  destruct x; [discriminate|reflexivity].
Qed.

End NumberTexts.

Section Reading.

Import Text.

Lemma weekday_number_cases (w : RRule.JsWeekday) :
  isWeekdayNumber w ->
  In w (map RRule.WdNumber [0; 1; 2; 3; 4; 5; 6]).
Proof.
  destruct w as [n| |]; cbn; try contradiction. intros H.
  assert (n = 0 \/ n = 1 \/ n = 2 \/ n = 3 \/ n = 4 \/ n = 5 \/ n = 6)
    as Hn by lia.
  intuition (subst; auto 10).
Qed.

Lemma weekday_reads_back (w : RRule.JsWeekday) :
  isWeekdayNumber w ->
  RRule.parseWeekdayCode (RRule.weekdayToString w) = Ok w
  /\ contains "," (RRule.weekdayToString w) = false
  /\ String.eqb (RRule.weekdayToString w) EmptyString = false.
Proof.
  intros H. apply weekday_number_cases in H. cbn in H.
  intuition (subst; repeat split; reflexivity).
Qed.

Lemma weekdays_read_back (l : list RRule.JsWeekday) :
  l <> [] -> Forall isWeekdayNumber l ->
  mapR RRule.parseWeekdayCode
    (split "," (join "," (map RRule.weekdayToString l))) = Ok l.
Proof.
  intros Hne Hall. rewrite split_join.
  - clear Hne. induction Hall as [|w l Hw Hl IH]; [reflexivity|].
    cbn [map mapR].
    destruct (weekday_reads_back w Hw) as (-> & _). now rewrite IH.
  - destruct l; [contradiction|discriminate].
  - apply Forall_forall. intros x Hx.
    apply in_map_iff in Hx as [w [<- Hin]].
    rewrite Forall_forall in Hall.
    now destruct (weekday_reads_back w (Hall w Hin)) as (_ & -> & _).
Qed.

Lemma timeToUntilString_not_empty (t : Z) :
  String.eqb (RRule.timeToUntilString t) EmptyString = false.
Proof.
  apply String.eqb_neq. intros H.
  assert (Hc : contains "T" (RRule.timeToUntilString t) = true).
  { unfold RRule.timeToUntilString. rewrite !contains_app.
    cbn [contains]. rewrite Ascii.eqb_refl. cbn [orb].
    now rewrite !orb_true_r. }
  rewrite H in Hc. discriminate.
Qed.

(** The attribute [k=v] splits into its key and its value. *)
Lemma split_attribute (k v : string) :
  plain k = true -> plain v = true ->
  split "=" (RRule.renderField (k, v)) = [k; v].
Proof.
  intros Hk Hv. unfold RRule.renderField. cbn [fst snd].
  change (k ++ "=" ++ v)%string with (k ++ String "=" v)%string.
  rewrite split_app by (apply plain_contains; [reflexivity|exact Hk]).
  rewrite split_without by (apply plain_contains; [reflexivity|exact Hv]).
  reflexivity.
Qed.

Lemma parseAttrs_app (o : RRule.Options) (a b : list string) :
  RRule.parseAttrs o (a ++ b)
  = bindR (RRule.parseAttrs o a) (fun o' => RRule.parseAttrs o' b).
Proof.
  revert o. induction a as [|x a IH]; intros o; [reflexivity|].
  cbn [app RRule.parseAttrs].
  destruct (RRule.parseAttr o x) as [o'|e]; cbn [bindR]; [apply IH|reflexivity].
Qed.

Lemma frequencyName_reads_back (n : Z) (f : RRule.Frequency) :
  RRule.frequencyOfNumber n = Some f ->
  RRule.frequencyOfName (RRule.toUpperCase (RRule.frequencyName f)) = Some n.
Proof.
  unfold RRule.frequencyOfNumber.
  repeat match goal with
         | |- context [?a =? ?b] => destruct (Z.eqb_spec a b); [subst|]
         end; intros H; inversion H; reflexivity.
Qed.

End Reading.

Ltac decide_keys :=
  repeat match goal with
         | |- context [String.eqb ?a ?b] =>
             let v := eval vm_compute in (String.eqb a b) in
             match v with
             | true => change (String.eqb a b) with true
             | false => change (String.eqb a b) with false
             end
         end;
  cbv iota; cbn [orb].

Ltac read_attribute :=
  unfold RRule.parseAttr;
  rewrite split_attribute by (reflexivity || assumption);
  cbv zeta;
  match goal with
  | |- context [RRule.toUpperCase ?k] =>
      let v := eval vm_compute in (RRule.toUpperCase k) in
      change (RRule.toUpperCase k) with v
  end;
  decide_keys.

Section Attributes.

Import Text.

Variable o : RRule.Options.

Lemma parseAttr_FREQ (n : Z) (f : RRule.Frequency) :
  RRule.frequencyOfNumber n = Some f ->
  RRule.parseAttr o (RRule.renderField ("FREQ", RRule.frequencyName f))
  = Ok (RRule.mkOptions n (RRule.interval o) (RRule.dtstart o) (RRule.count o)
          (RRule.until o) (RRule.bymonth o) (RRule.bymonthday o)
          (RRule.byweekday o)).
Proof.
  intros Hf.
  assert (Hp : plain (RRule.frequencyName f) = true)
    by apply plain_frequencyName.
  read_attribute. now rewrite (frequencyName_reads_back n f Hf).
Qed.

Lemma parseAttr_INTERVAL (n : Z) :
  RRule.parseAttr o (RRule.renderField ("INTERVAL", ofZ n))
  = Ok (RRule.mkOptions (RRule.freq o) n (RRule.dtstart o) (RRule.count o)
          (RRule.until o) (RRule.bymonth o) (RRule.bymonthday o)
          (RRule.byweekday o)).
Proof.
  pose proof (plain_ofZ n) as Hp.
  read_attribute. now rewrite parseScalar_ofZ.
Qed.

Lemma parseAttr_COUNT (n : Z) :
  RRule.parseAttr o (RRule.renderField ("COUNT", ofZ n))
  = Ok (RRule.mkOptions (RRule.freq o) (RRule.interval o) (RRule.dtstart o)
          (Some n) (RRule.until o) (RRule.bymonth o) (RRule.bymonthday o)
          (RRule.byweekday o)).
Proof.
  pose proof (plain_ofZ n) as Hp.
  read_attribute. now rewrite parseScalar_ofZ.
Qed.

Lemma parseAttr_UNTIL (u : Z) :
  representableYear u ->
  RRule.parseAttr o (RRule.renderField ("UNTIL", RRule.timeToUntilString u))
  = Ok (RRule.mkOptions (RRule.freq o) (RRule.interval o) (RRule.dtstart o)
          (RRule.count o) (Some (wholeSecond u)) (RRule.bymonth o)
          (RRule.bymonthday o) (RRule.byweekday o)).
Proof.
  intros Hy. pose proof (plain_timeToUntilString u) as Hp.
  read_attribute. now rewrite untilStringToDate_timeToUntilString.
Qed.

Lemma parseAttr_BYMONTH (l : list Z) :
  l <> [] ->
  RRule.parseAttr o (RRule.renderField ("BYMONTH", RRule.numbersToString l))
  = Ok (RRule.mkOptions (RRule.freq o) (RRule.interval o) (RRule.dtstart o)
          (RRule.count o) (RRule.until o) (Some l) (RRule.bymonthday o)
          (RRule.byweekday o)).
Proof.
  intros Hne. pose proof (plain_numbersToString l) as Hp.
  read_attribute. now rewrite parseNumbers_numbersToString.
Qed.

Lemma parseAttr_BYMONTHDAY (l : list Z) :
  l <> [] ->
  RRule.parseAttr o
    (RRule.renderField ("BYMONTHDAY", RRule.numbersToString l))
  = Ok (RRule.mkOptions (RRule.freq o) (RRule.interval o) (RRule.dtstart o)
          (RRule.count o) (RRule.until o) (RRule.bymonth o) (Some l)
          (RRule.byweekday o)).
Proof.
  intros Hne. pose proof (plain_numbersToString l) as Hp.
  read_attribute. now rewrite parseNumbers_numbersToString.
Qed.

Lemma parseAttr_BYDAY (l : list RRule.JsWeekday) :
  l <> [] -> Forall isWeekdayNumber l ->
  RRule.parseAttr o
    (RRule.renderField ("BYDAY", join "," (map RRule.weekdayToString l)))
  = Ok (RRule.mkOptions (RRule.freq o) (RRule.interval o) (RRule.dtstart o)
          (RRule.count o) (RRule.until o) (RRule.bymonth o)
          (RRule.bymonthday o) (Some l)).
Proof.
  intros Hne Hall.
  assert (Hp : plain (join "," (map RRule.weekdayToString l)) = true).
  { apply plain_join. apply Forall_forall. intros x Hx.
    apply in_map_iff in Hx as [w [<- _]]. apply plain_weekdayToString. }
  read_attribute. now rewrite weekdays_read_back.
Qed.

End Attributes.

Ltac next_attribute :=
  cbn [map RRule.parseAttrs bindR RRule.freq RRule.interval
         RRule.dtstart RRule.count RRule.until RRule.bymonth
         RRule.bymonthday RRule.byweekday RRule.numbersToString Text.join
         String.eqb];
  rewrite ?parseAttrs_app.

Section Lines.

Import Text.

Lemma parseAttrs_ruleFields (o0 o : RRule.Options) :
  Encodable o ->
  RRule.count o0 = None -> RRule.until o0 = None ->
  RRule.bymonth o0 = None -> RRule.bymonthday o0 = None ->
  RRule.byweekday o0 = None ->
  RRule.parseAttrs o0 (map RRule.renderField (RRule.ruleFields o))
  = Ok (RRule.mkOptions (RRule.freq o) (RRule.interval o) (RRule.dtstart o0)
          (RRule.count o) (option_map wholeSecond (RRule.until o))
          (nonEmpty (RRule.bymonth o)) (nonEmpty (RRule.bymonthday o))
          (nonEmpty (RRule.byweekday o))).
Proof.
  intros [[f Hf] _ Hu Hw] Hc0 Hu0 Hm0 Hd0 Hw0.
  unfold RRule.ruleFields. rewrite Hf. cbv zeta beta.
  rewrite !map_app.
  rewrite parseAttrs_app. cbn [map RRule.parseAttrs].
  rewrite (parseAttr_FREQ o0 _ f Hf). cbn [bindR].
  rewrite parseAttrs_app. cbn [map RRule.parseAttrs].
  rewrite parseAttr_INTERVAL. cbn [bindR].
  rewrite parseAttrs_app.
  destruct (RRule.count o) as [c|].
  1: rewrite ofZ_not_empty; cbn [map RRule.parseAttrs];
     rewrite parseAttr_COUNT.
  all: next_attribute.
  all: destruct (RRule.until o) as [u|].
  1,3: rewrite timeToUntilString_not_empty; cbn [map RRule.parseAttrs];
       rewrite parseAttr_UNTIL by (now apply Hu).
  all: next_attribute.
  all: destruct (RRule.bymonth o) as [[|m ms]|];
    [ |unfold RRule.numbersToString at 1 2; cbn [map];
       rewrite (join_not_empty _ _ _ (ofZ_not_empty m));
       change (join "," (ofZ m :: map ofZ ms))
         with (RRule.numbersToString (m :: ms));
       cbn [map RRule.parseAttrs];
       rewrite parseAttr_BYMONTH by discriminate| ].
  all: next_attribute.
  all: destruct (RRule.bymonthday o) as [[|d ds]|];
    [ |unfold RRule.numbersToString at 1 2; cbn [map];
       rewrite (join_not_empty _ _ _ (ofZ_not_empty d));
       change (join "," (ofZ d :: map ofZ ds))
         with (RRule.numbersToString (d :: ds));
       cbn [map RRule.parseAttrs];
       rewrite parseAttr_BYMONTHDAY by discriminate| ].
  all: next_attribute.
  all: destruct (RRule.byweekday o) as [[|w ws]|];
    [ |pose proof (Hw _ eq_refl) as Hall;
       remember (w :: ws) as l eqn:El;
       assert (Hne : String.eqb (join "," (map RRule.weekdayToString l))
                       EmptyString = false)
         by (subst l; cbn [map]; apply join_not_empty;
             apply weekday_reads_back; now inversion Hall);
       rewrite Hne; cbn [map RRule.parseAttrs];
       rewrite parseAttr_BYDAY by (assumption || (subst l; discriminate));
       subst l| ].
  all: next_attribute.
  all: cbn [option_map nonEmpty].
  all: rewrite ?Hc0, ?Hu0, ?Hm0, ?Hd0, ?Hw0; reflexivity.
Qed.

End Lines.

Section RoundTrip.

Import Text.

Lemma split_rule_line (fields : list (string * string)) :
  fields <> [] ->
  Forall (fun kv => plain (fst kv) = true /\ plain (snd kv) = true) fields ->
  split ";" (join ";" (map RRule.renderField fields))
  = map RRule.renderField fields.
Proof.
  intros Hne Hall. apply split_join.
  - destruct fields; [contradiction|discriminate].
  - apply Forall_forall. intros x Hx.
    apply in_map_iff in Hx as [kv [<- Hin]].
    rewrite Forall_forall in Hall. destruct (Hall kv Hin) as [Hk Hv].
    now apply renderField_free_of.
Qed.

Lemma parseLine_RRULE (o0 o : RRule.Options) (n : nat) :
  Encodable o ->
  RRule.count o0 = None -> RRule.until o0 = None ->
  RRule.bymonth o0 = None -> RRule.bymonthday o0 = None ->
  RRule.byweekday o0 = None ->
  RRule.parseLine (o0, n)
    ("RRULE:" ++ join ";" (map RRule.renderField (RRule.ruleFields o)))
  = Ok (RRule.mkOptions (RRule.freq o) (RRule.interval o) (RRule.dtstart o0)
          (RRule.count o) (option_map wholeSecond (RRule.until o))
          (nonEmpty (RRule.bymonth o)) (nonEmpty (RRule.bymonthday o))
          (nonEmpty (RRule.byweekday o)), S n).
Proof.
  intros He Hc0 Hu0 Hm0 Hd0 Hw0.
  set (rules := join ";" (map RRule.renderField (RRule.ruleFields o))).
  unfold RRule.parseLine.
  change ("RRULE:" ++ rules)%string with ("RRULE" ++ String ":" rules)%string.
  rewrite breakAt_app by reflexivity.
  change (String.eqb ("RRULE" ++ String ":" rules) EmptyString) with false.
  cbv iota zeta.
  change (RRule.toUpperCase "RRULE") with "RRULE".
  change (String.eqb "RRULE" "RRULE") with true. cbv iota.
  subst rules. rewrite split_rule_line.
  - now rewrite parseAttrs_ruleFields.
  - destruct He as [[f Hf] _ _ _]. unfold RRule.ruleFields. rewrite Hf.
    discriminate.
  - apply ruleFields_plain.
Qed.

Lemma parseLine_DTSTART (o0 : RRule.Options) (n : nat) (d : Z) :
  representableYear d ->
  RRule.parseLine (o0, n) ("DTSTART:" ++ RRule.timeToUntilString d)
  = Ok (RRule.mkOptions (RRule.freq o0) (RRule.interval o0)
          (Some (wholeSecond d)) (RRule.count o0) (RRule.until o0)
          (RRule.bymonth o0) (RRule.bymonthday o0) (RRule.byweekday o0), n).
Proof.
  intros Hy. unfold RRule.parseLine.
  change ("DTSTART:" ++ RRule.timeToUntilString d)%string
    with ("DTSTART" ++ String ":" (RRule.timeToUntilString d))%string.
  rewrite breakAt_app by reflexivity.
  change (String.eqb ("DTSTART" ++ String ":" (RRule.timeToUntilString d))
            EmptyString) with false.
  cbv iota zeta.
  change (RRule.toUpperCase "DTSTART") with "DTSTART".
  change (String.eqb "DTSTART" "RRULE") with false.
  change (String.eqb "DTSTART" "DTSTART") with true. cbv iota.
  now rewrite untilStringToDate_timeToUntilString.
Qed.

(** Reading an encoded rule gives the options it was written from, with
    the dates cut to whole seconds and empty lists dropped. *)
Lemma parseLines_optionsToString (o : RRule.Options) :
  Encodable o ->
  RRule.parseLines (RRule.DEFAULT_OPTIONS, O)
    (split newline (RRule.optionsToString o))
  = Ok (retained o, 1%nat).
Proof.
  intros He.
  pose proof (ruleFields_plain o) as Hplain.
  destruct He as [[f Hf] Hd Hu Hw].
  assert (He : Encodable o) by (split; eauto).
  unfold RRule.optionsToString.
  set (rules := join ";" (map RRule.renderField (RRule.ruleFields o))).
  assert (Hrules : String.eqb rules EmptyString = false).
  { subst rules. unfold RRule.ruleFields. rewrite Hf. reflexivity. }
  rewrite Hrules.
  assert (Hfree : contains newline ("RRULE:" ++ rules) = false).
  { rewrite contains_app. subst rules.
    rewrite rule_line_free_of by (reflexivity || assumption).
    reflexivity. }
  destruct (RRule.dtstart o) as [d|] eqn:Ed.
  - change (join (String newline EmptyString)
              (["DTSTART:" ++ RRule.timeToUntilString d]
               ++ ["RRULE:" ++ rules]))%string
      with (("DTSTART:" ++ RRule.timeToUntilString d)
            ++ String newline ("RRULE:" ++ rules))%string.
    rewrite split_app.
    2:{ rewrite contains_app, (plain_contains newline _ eq_refl
                                 (plain_timeToUntilString d)).
        reflexivity. }
    rewrite split_without by exact Hfree.
    cbn [RRule.parseLines].
    rewrite parseLine_DTSTART by (now apply Hd). cbn [bindR].
    subst rules. rewrite parseLine_RRULE by (assumption || reflexivity).
    cbn [bindR]. unfold retained. rewrite Ed. reflexivity.
  - cbn [app join]. rewrite split_without by exact Hfree.
    cbn [RRule.parseLines].
    subst rules. rewrite parseLine_RRULE by (assumption || reflexivity).
    cbn [bindR]. unfold retained. rewrite Ed. reflexivity.
Qed.

Lemma optionsToString_not_empty (o : RRule.Options) (f : RRule.Frequency) :
  RRule.frequencyOfNumber (RRule.freq o) = Some f ->
  String.eqb (RRule.optionsToString o) EmptyString = false.
Proof.
  intros Hf. unfold RRule.optionsToString.
  set (rules := join ";" (map RRule.renderField (RRule.ruleFields o))).
  assert (Hrules : String.eqb rules EmptyString = false).
  { subst rules. unfold RRule.ruleFields. rewrite Hf. reflexivity. }
  rewrite Hrules. destruct (RRule.dtstart o); reflexivity.
Qed.

Lemma rrulestr_optionsToString (now : Z) (o : RRule.Options) :
  Encodable o ->
  RRule.rrulestr now (RRule.optionsToString o)
  = RRule.construct now (retained o).
Proof.
  intros He. unfold RRule.rrulestr.
  destruct (encodable_freq o He) as [f Hf].
  rewrite (optionsToString_not_empty o f Hf).
  rewrite parseLines_optionsToString by exact He.
  reflexivity.
Qed.

End RoundTrip.

Section Instants.

Import RRule.

Lemma emit_subset (o : ParsedOptions) (after before : Z) (cands : list Z) :
  forall cnt t, In t (emit o after before cnt cands) -> In t cands.
Proof.
  induction cands as [|res rest IH]; intros cnt t; cbn [emit]; [tauto|].
  destruct (match puntil o with Some u => u <? res | None => false end);
    [intros []|].
  destruct (res <? pdtstart o); [intros H; right; eapply IH; exact H|].
  destruct ((after <=? res) && (before <? res)); [intros []|].
  assert (Hout : In t (if res <? after then [] else [res]) -> In t (res :: rest)).
  { destruct (res <? after); [intros []|]. intros [<-|[]]. now left. }
  destruct cnt as [c|].
  - destruct (c =? 0).
    + intros H. apply in_app_or in H as [H|H]; [auto|right; eapply IH; exact H].
    + destruct (c - 1 =? 0); [exact Hout|].
      intros H. apply in_app_or in H as [H|H]; [auto|right; eapply IH; exact H].
  - intros H. apply in_app_or in H as [H|H]; [auto|right; eapply IH; exact H].
Qed.

Lemma emit_length (o : ParsedOptions) (after before : Z) (cands : list Z) :
  forall c, 0 < c ->
    Z.of_nat (List.length (emit o after before (Some c) cands)) <= c.
Proof.
  induction cands as [|res rest IH]; intros c Hc; cbn [emit]; [cbn; lia|].
  destruct (match puntil o with Some u => u <? res | None => false end);
    [cbn; lia|].
  destruct (res <? pdtstart o); [now apply IH|].
  destruct ((after <=? res) && (before <? res)); [cbn; lia|].
  assert (Hout : Z.of_nat (List.length (if res <? after then [] else [res])) <= 1).
  { destruct (res <? after); cbn; lia. }
  destruct (Z.eqb_spec c 0) as [->|_]; [lia|].
  destruct (Z.eqb_spec (c - 1) 0) as [H1|H1]; [lia|].
  rewrite List.length_app.
  specialize (IH (c - 1) ltac:(lia)). lia.
Qed.

Lemma periodInstants_same_millisecond (o : ParsedOptions) (k t : Z) :
  In t (periodInstants o k) -> t mod 1000 = pdtstart o mod 1000.
Proof.
  unfold periodInstants.
  assert (Hday : In t (map (fun d => d * Calendar.msPerDay + Calendar.msOfDay (pdtstart o))
                         (filter (dayPasses o) (periodDays o k))) ->
                 t mod 1000 = pdtstart o mod 1000).
  { intros H. apply in_map_iff in H as [d [<- _]].
    unfold Calendar.msOfDay, Calendar.msPerDay.
    Z.to_euclidean_division_equations. lia. }
  assert (Hsub : forall u, (u = 3600000 \/ u = 60000 \/ u = 1000) ->
                 In t (let res := pdtstart o + k * pinterval o * u in
                       if dayPasses o (Calendar.dayOf res) then [res] else []) ->
                 t mod 1000 = pdtstart o mod 1000).
  { intros u Hu. cbv zeta.
    destruct (dayPasses o _); [|intros []]. intros [<-|[]].
    remember (k * pinterval o) as q.
    destruct Hu as [->|[->| ->]]; Z.to_euclidean_division_equations; lia. }
  destruct (pfreq o); auto; apply Hsub; cbn; auto.
Qed.

Lemma periodInstants_same_time_of_day (o : ParsedOptions) (k t : Z) :
  (pfreq o = YEARLY \/ pfreq o = MONTHLY \/ pfreq o = WEEKLY
   \/ pfreq o = DAILY) ->
  In t (periodInstants o k) ->
  Calendar.msOfDay t = Calendar.msOfDay (pdtstart o).
Proof.
  unfold periodInstants.
  intros Hf H.
  assert (Hday : In t (map (fun d => d * Calendar.msPerDay + Calendar.msOfDay (pdtstart o))
                         (filter (dayPasses o) (periodDays o k)))).
  { destruct Hf as [Hf|[Hf|[Hf|Hf]]]; rewrite Hf in H; exact H. }
  apply in_map_iff in Hday as [d [<- _]].
  unfold Calendar.msOfDay, Calendar.msPerDay.
  Z.to_euclidean_division_equations. lia.
Qed.

Lemma between_subset (r : t) (after before t0 : Z) :
  In t0 (between r after before) ->
  exists k, In t0 (periodInstants (options r) k).
Proof.
  unfold between. destruct (_ || _); [intros []|].
  intros H. apply emit_subset in H. unfold candidates in H.
  apply in_flat_map in H as [k [_ Hk]]. eauto.
Qed.

Lemma between_length (r : t) (after before c : Z) :
  pcount (options r) = Some c -> 0 <= c ->
  Z.of_nat (List.length (between r after before)) <= c.
Proof.
  intros Hc Hpos. unfold between. rewrite Hc.
  destruct (Z.eqb_spec c 0) as [->|Hne]; [cbn; lia|].
  cbn [orb]. destruct (pinterval (options r) =? 0); [cbn; lia|].
  apply emit_length. lia.
Qed.

End Instants.

Section ReadBack.

Lemma WEEKDAY_MAP_known (day : string) :
  In day RRule.ALL_WEEKDAYS -> isWeekdayNumber (WEEKDAY_MAP day).
Proof.
  cbn. intuition (subst; cbn; lia).
Qed.

Lemma mapR_parseWeekdayEntry_numbers (l : list RRule.JsWeekday) :
  Forall isWeekdayNumber l ->
  exists ns, mapR RRule.parseWeekdayEntry l = Ok ns.
Proof.
  induction 1 as [|w l Hw Hl [ns IH]]; [now exists []|].
  destruct w as [n| |]; cbn in Hw; try contradiction.
  cbn [mapR RRule.parseWeekdayEntry bindR]. rewrite IH. cbn. eauto.
Qed.

Lemma construct_numbers (now : Z) (o : RRule.Options) (f : RRule.Frequency) :
  RRule.frequencyOfNumber (RRule.freq o) = Some f ->
  (forall l, RRule.byweekday o = Some l -> Forall isWeekdayNumber l) ->
  exists p,
    RRule.construct now o = Ok (RRule.mkRRule o p)
    /\ RRule.pfreq p = f
    /\ RRule.pinterval p = RRule.interval o
    /\ RRule.pdtstart p = match RRule.dtstart o with
                          | Some d => d
                          | None => now - now mod 1000
                          end
    /\ RRule.pcount p = RRule.count o
    /\ RRule.puntil p = RRule.until o.
Proof.
  intros Hf Hw. unfold RRule.construct, RRule.parseOptions. rewrite Hf.
  destruct (RRule.byweekday o) as [l|] eqn:El.
  - destruct (mapR_parseWeekdayEntry_numbers l (Hw l eq_refl)) as [ns ->].
    cbn [bindR]. eexists. split; [reflexivity|]. cbn. auto.
  - destruct f, (RRule.bymonthday o); cbn [bindR];
      (eexists; split; [reflexivity|]; cbn; auto).
Qed.

Lemma ruleOptions_encodable (now : Z) (r : RecurrenceInput) :
  EncodableInput now r -> Encodable (ruleOptions now r).
Proof.
  intros [Hs He Hc]. split; cbn.
  - apply frequencyOfNumber_FREQ_MAP.
  - intros d Hd. injection Hd as <-. exact Hs.
  - exact He.
  - intros l Hl. destruct (byDay r) as [[|day codes]|]; try discriminate.
    cbn [nonEmpty] in Hl. injection Hl as <-.
    specialize (Hc _ eq_refl).
    change (Forall isWeekdayNumber (map WEEKDAY_MAP (day :: codes))).
    apply Forall_forall. intros w Hw.
    apply in_map_iff in Hw as [d [<- Hin]].
    rewrite Forall_forall in Hc. apply WEEKDAY_MAP_known. now apply Hc.
Qed.

Lemma retained_weekdays (o : RRule.Options) :
  (forall l, RRule.byweekday o = Some l -> Forall isWeekdayNumber l) ->
  forall l, RRule.byweekday (retained o) = Some l -> Forall isWeekdayNumber l.
Proof.
  intros H l. cbn. destruct (RRule.byweekday o) as [[|w ws]|]; try discriminate.
  cbn. intros Hl. injection Hl as <-. now apply H.
Qed.

Lemma rule_text_read_back (now now' : Z) (r : RecurrenceInput) :
  EncodableInput now r ->
  exists s rule,
    generateRecurrenceRuleString now r = Ok s
    /\ RRule.rrulestr now' s = Ok rule
    /\ RRule.origOptions rule = retained (ruleOptions now r)
    /\ RRule.frequencyOfNumber (FREQ_MAP (frequency r))
       = Some (RRule.pfreq (RRule.options rule))
    /\ RRule.pinterval (RRule.options rule) = orOne (interval r)
    /\ RRule.pdtstart (RRule.options rule) = wholeSecond (startOf now r)
    /\ RRule.pcount (RRule.options rule) = truthyNumber (count r)
    /\ RRule.puntil (RRule.options rule)
       = option_map wholeSecond (recurrenceEndDate r).
Proof.
  intros Hin. pose proof (ruleOptions_encodable now r Hin) as He.
  destruct (encodable_freq _ He) as [f Hf].
  destruct (construct_numbers now _ f Hf (encodable_byweekday _ He))
    as (p & Hp & _).
  destruct (construct_numbers now' (retained (ruleOptions now r)) f Hf
              (retained_weekdays _ (encodable_byweekday _ He)))
    as (p' & Hp' & Hfreq & Hint & Hstart & Hcount & Huntil).
  exists (RRule.optionsToString (ruleOptions now r)),
    (RRule.mkRRule (retained (ruleOptions now r)) p').
  split.
  { unfold generateRecurrenceRuleString. rewrite Hp. reflexivity. }
  split.
  { rewrite rrulestr_optionsToString by exact He. exact Hp'. }
  cbn [RRule.origOptions RRule.options].
  split; [reflexivity|].
  split; [cbn in Hf; rewrite Hf, Hfreq; reflexivity|].
  split; [exact Hint|].
  split; [exact Hstart|].
  split; [exact Hcount|exact Huntil].
Qed.

End ReadBack.

(** ** The order of the expanded instants *)

Section CalendarOrder.

Import Calendar.

Lemma year_length (y : Z) :
  365 <= daysFromCivil (y + 1) 1 1 - daysFromCivil y 1 1 <= 366.
Proof.
  unfold daysFromCivil. cbn [Z.leb Z.ltb Z.compare Pos.compare Pos.compare_cont].
  cbv zeta. replace (y + 1 - 1) with (y - 1 + 1) by lia.
  remember (y - 1) as v.
  Z.to_euclidean_division_equations. lia.
Qed.

Lemma month_length (y m : Z) :
  1 <= m <= 12 ->
  daysFromCivil (if m =? 12 then y + 1 else y) (if m =? 12 then 1 else m + 1) 1
  = daysFromCivil y m 1 + daysInMonth y m.
Proof.
  intros Hm.
  assert (m = 1 \/ m = 2 \/ m = 3 \/ m = 4 \/ m = 5 \/ m = 6 \/ m = 7
          \/ m = 8 \/ m = 9 \/ m = 10 \/ m = 11 \/ m = 12) as Hc by lia.
  unfold daysInMonth, isLeap, daysFromCivil.
  destruct Hc as [->|[->|[->|[->|[->|[->|[->|[->|[->|[->|[->| ->]]]]]]]]]]];
    cbn [Z.eqb Z.leb Z.ltb Z.compare Pos.compare Pos.compare_cont Pos.eqb
         orb Z.add Pos.add Pos.succ Z.sub Z.opp Z.pos_sub Z.succ_double Z.pred_double Z.double Pos.pred_double];
    cbv zeta.
  all: try (Z.to_euclidean_division_equations; lia).
  destruct (Z.eqb_spec (y mod 4) 0), (Z.eqb_spec (y mod 100) 0),
    (Z.eqb_spec (y mod 400) 0); cbn [andb orb negb];
    Z.to_euclidean_division_equations; lia.
Qed.

Lemma monotone_steps (F : Z -> Z) :
  (forall x, F x <= F (x + 1)) ->
  forall x n, 0 <= n -> F x <= F (x + n).
Proof.
  intros Hstep x n Hn. revert n Hn.
  apply natlike_ind.
  - rewrite Z.add_0_r. lia.
  - intros n Hn IH. replace (x + Z.succ n) with (x + n + 1) by lia.
    specialize (Hstep (x + n)). lia.
Qed.

Lemma days_in_month_positive (y m : Z) : 28 <= daysInMonth y m <= 31.
Proof.
  unfold daysInMonth.
  destruct (m =? 2); [destruct (isLeap y); lia|].
  destruct (_ || _); lia.
Qed.

Lemma next_month (mi : Z) :
  daysFromCivil ((mi + 1) / 12) ((mi + 1) mod 12 + 1) 1
  = daysFromCivil (mi / 12) (mi mod 12 + 1) 1
    + daysInMonth (mi / 12) (mi mod 12 + 1).
Proof.
  rewrite <- month_length by (Z.to_euclidean_division_equations; lia).
  destruct (Z.eqb_spec (mi mod 12 + 1) 12) as [H|H]; f_equal;
    Z.to_euclidean_division_equations; lia.
Qed.

End CalendarOrder.

Section Ascending.

Import RRule Calendar.

Lemma sorted_app (l1 l2 : list Z) :
  StronglySorted Z.lt l1 -> StronglySorted Z.lt l2 ->
  (forall x y, In x l1 -> In y l2 -> x < y) ->
  StronglySorted Z.lt (l1 ++ l2).
Proof.
  intros H1 H2 Hlt. induction H1 as [|a l Hl IH Ha]; [exact H2|].
  cbn [app]. constructor.
  - apply IH. intros x y Hx Hy. apply Hlt; [now right|exact Hy].
  - apply Forall_app. split; [exact Ha|].
    apply Forall_forall. intros y Hy. apply Hlt; [now left|exact Hy].
Qed.

Lemma sorted_filter (p : Z -> bool) (l : list Z) :
  StronglySorted Z.lt l -> StronglySorted Z.lt (filter p l).
Proof.
  induction 1 as [|a l Hl IH Ha]; cbn [filter]; [constructor|].
  destruct (p a); [|exact IH]. constructor; [exact IH|].
  apply Forall_forall. intros y Hy. apply filter_In in Hy as [Hy _].
  rewrite Forall_forall in Ha. now apply Ha.
Qed.

Lemma sorted_map (f : Z -> Z) (l : list Z) :
  (forall x y, x < y -> f x < f y) ->
  StronglySorted Z.lt l -> StronglySorted Z.lt (map f l).
Proof.
  intros Hf. induction 1 as [|a l Hl IH Ha]; cbn [map]; [constructor|].
  constructor; [exact IH|]. apply Forall_forall. intros y Hy.
  apply in_map_iff in Hy as [x [<- Hx]]. apply Hf.
  rewrite Forall_forall in Ha. now apply Ha.
Qed.

Lemma sorted_steps (a : Z) (n s : nat) :
  StronglySorted Z.lt (map (fun i => a + Z.of_nat i) (seq s n)).
Proof.
  revert s. induction n as [|n IH]; intros s; cbn [seq map]; constructor.
  - apply IH.
  - apply Forall_forall. intros y Hy.
    apply in_map_iff in Hy as [i [<- Hi]]. apply in_seq in Hi. lia.
Qed.

Lemma zrange_sorted (a : Z) (n : nat) : StronglySorted Z.lt (zrange a n).
Proof. apply sorted_steps. Qed.

Lemma zrange_bounds (a : Z) (n : nat) (x : Z) :
  In x (zrange a n) -> a <= x < a + Z.of_nat n.
Proof.
  unfold zrange. intros H. apply in_map_iff in H as [i [<- Hi]].
  apply in_seq in Hi. lia.
Qed.

Lemma periodDays_sorted (o : ParsedOptions) (k : Z) :
  StronglySorted Z.lt (periodDays o k).
Proof.
  unfold periodDays.
  destruct (pfreq o); try apply zrange_sorted;
    try (destruct (k =? 0); apply zrange_sorted);
    repeat constructor.
Qed.

Lemma year_start_monotone (y n : Z) :
  0 <= n -> daysFromCivil y 1 1 <= daysFromCivil (y + n) 1 1.
Proof.
  apply (monotone_steps (fun v => daysFromCivil v 1 1)).
  intros x. pose proof (year_length x). lia.
Qed.

Lemma month_start_monotone (mi n : Z) :
  0 <= n ->
  daysFromCivil (mi / 12) (mi mod 12 + 1) 1
  <= daysFromCivil ((mi + n) / 12) ((mi + n) mod 12 + 1) 1.
Proof.
  apply (monotone_steps
           (fun v => daysFromCivil (v / 12) (v mod 12 + 1) 1)).
  intros x. rewrite next_month.
  pose proof (days_in_month_positive (x / 12) (x mod 12 + 1)). lia.
Qed.

Lemma periodDays_bounds (o : ParsedOptions) (k x : Z) :
  0 < pinterval o -> 0 <= k ->
  In x (periodDays o k) ->
  periodStart o k <= x < periodStart o (k + 1).
Proof.
  intros Hi Hk. unfold periodDays, periodStart.
  set (d0 := dayOf (pdtstart o)). set (i := pinterval o) in *.
  assert (Hki : (k + 1) * i = k * i + 1 + (i - 1)) by lia.
  destruct (pfreq o); cbv zeta.
  - intros H. apply zrange_bounds in H.
    pose proof (year_length (yearOfDay d0 + k * i)) as Hy.
    rewrite Z2Nat.id in H by lia.
    pose proof (year_start_monotone (yearOfDay d0 + k * i + 1) (i - 1)
                  ltac:(lia)) as Hmono.
    replace (yearOfDay d0 + (k + 1) * i)
      with (yearOfDay d0 + k * i + 1 + (i - 1)) by lia.
    lia.
  - intros H. apply zrange_bounds in H.
    pose proof (days_in_month_positive
                  ((monthIndex d0 + k * i) / 12)
                  ((monthIndex d0 + k * i) mod 12 + 1)) as Hd.
    rewrite Z2Nat.id in H by lia.
    pose proof (next_month (monthIndex d0 + k * i)) as Hnext.
    pose proof (month_start_monotone (monthIndex d0 + k * i + 1) (i - 1)
                  ltac:(lia)) as Hmono.
    replace (monthIndex d0 + (k + 1) * i)
      with (monthIndex d0 + k * i + 1 + (i - 1)) by lia.
    lia.
  - assert (Hwd : 0 <= weekdayOfDay d0 < 7)
      by (unfold weekdayOfDay; apply Z.mod_pos_bound; lia).
    destruct (Z.eqb_spec k 0) as [->|Hne]; intros H;
      apply zrange_bounds in H.
    + rewrite Z2Nat.id in H by lia. nia.
    + change (Z.of_nat 7) with 7 in H. nia.
  - intros [<-|[]]. nia.
  - intros [<-|[]]. nia.
  - intros [<-|[]]. nia.
  - intros [<-|[]]. nia.
Qed.

End Ascending.

Section AscendingInstants.

Import RRule Calendar.

Lemma unitMs_positive (f : Frequency) : 0 < unitMs f.
Proof. destruct f; cbn; unfold msPerDay; lia. Qed.

Lemma msOfDay_bounds (t : Z) : 0 <= msOfDay t < msPerDay.
Proof. unfold msOfDay, msPerDay. apply Z.mod_pos_bound. lia. Qed.

Lemma periodInstants_sorted (o : ParsedOptions) (k : Z) :
  StronglySorted Z.lt (periodInstants o k).
Proof.
  assert (Hday : StronglySorted Z.lt
                   (map (fun d => d * msPerDay + msOfDay (pdtstart o))
                      (filter (dayPasses o) (periodDays o k)))).
  { apply sorted_map.
    - intros x y Hxy. unfold msPerDay. lia.
    - apply sorted_filter, periodDays_sorted. }
  unfold periodInstants.
  destruct (pfreq o); try exact Hday;
    cbv zeta; destruct (dayPasses o _); repeat constructor.
Qed.

Lemma periodInstants_bounds (o : ParsedOptions) (k x : Z) :
  0 < pinterval o -> 0 <= k ->
  In x (periodInstants o k) ->
  periodFloor o k <= x < periodFloor o (k + 1).
Proof.
  intros Hi Hk.
  assert (Hday : In x (map (fun d => d * msPerDay + msOfDay (pdtstart o))
                         (filter (dayPasses o) (periodDays o k))) ->
                 periodStart o k * msPerDay <= x
                 < periodStart o (k + 1) * msPerDay).
  { intros H. apply in_map_iff in H as [d [<- Hd]].
    apply filter_In in Hd as [Hd _].
    pose proof (periodDays_bounds o k d Hi Hk Hd) as Hb.
    pose proof (msOfDay_bounds (pdtstart o)) as Hms.
    unfold msPerDay in *. lia. }
  assert (Hsub : In x (let res := pdtstart o
                                  + k * pinterval o * unitMs (pfreq o) in
                       if dayPasses o (dayOf res) then [res] else []) ->
                 pdtstart o + k * pinterval o * unitMs (pfreq o) <= x
                 < pdtstart o + (k + 1) * pinterval o * unitMs (pfreq o)).
  { cbv zeta. destruct (dayPasses o _); [|intros []]. intros [<-|[]].
    pose proof (unitMs_positive (pfreq o)). nia. }
  unfold periodInstants, periodFloor.
  destruct (pfreq o); try exact Hday; exact Hsub.
Qed.

Lemma periodFloor_step (o : ParsedOptions) (k : Z) :
  0 < pinterval o -> 0 <= k -> periodFloor o k <= periodFloor o (k + 1).
Proof.
  intros Hi Hk. unfold periodFloor, periodStart.
  set (d0 := dayOf (pdtstart o)). set (i := pinterval o) in *.
  pose proof (unitMs_positive (pfreq o)) as Hu.
  destruct (pfreq o); cbv zeta; try nia.
  - replace (yearOfDay d0 + (k + 1) * i)
      with (yearOfDay d0 + k * i + i) by lia.
    pose proof (year_start_monotone (yearOfDay d0 + k * i) i ltac:(lia)).
    unfold msPerDay. lia.
  - replace (monthIndex d0 + (k + 1) * i)
      with (monthIndex d0 + k * i + i) by lia.
    pose proof (month_start_monotone (monthIndex d0 + k * i) i ltac:(lia)).
    unfold msPerDay. lia.
  - unfold msPerDay. nia.
  - unfold msPerDay. nia.
Qed.

Lemma periodFloor_monotone (o : ParsedOptions) (j : nat) :
  0 < pinterval o ->
  forall k : nat, (j <= k)%nat ->
    periodFloor o (Z.of_nat j) <= periodFloor o (Z.of_nat k).
Proof.
  intros Hi. induction 1 as [|k Hle IH]; [lia|].
  pose proof (periodFloor_step o (Z.of_nat k) Hi ltac:(lia)) as Hs.
  replace (Z.of_nat (S k)) with (Z.of_nat k + 1) by lia. lia.
Qed.

Lemma candidates_from_sorted (o : ParsedOptions) (n s : nat) :
  0 < pinterval o ->
  StronglySorted Z.lt
    (flat_map (fun k => periodInstants o (Z.of_nat k)) (seq s n)).
Proof.
  intros Hi. revert s. induction n as [|n IH]; intros s; cbn [seq flat_map].
  - constructor.
  - apply sorted_app; [apply periodInstants_sorted|apply IH|].
    intros x y Hx Hy.
    apply in_flat_map in Hy as [k [Hk Hy]]. apply in_seq in Hk.
    pose proof (periodInstants_bounds o (Z.of_nat s) x Hi ltac:(lia) Hx) as Bx.
    pose proof (periodInstants_bounds o (Z.of_nat k) y Hi ltac:(lia) Hy) as By.
    pose proof (periodFloor_monotone o (S s) Hi k ltac:(lia)) as Hm.
    replace (Z.of_nat (S s)) with (Z.of_nat s + 1) in Hm by lia. lia.
Qed.

Lemma numPeriods_zero (o : ParsedOptions) (before : Z) :
  pinterval o <= 0 -> numPeriods o before = O.
Proof.
  intros Hi. unfold numPeriods.
  pose proof (unitMs_positive (pfreq o)) as Hu.
  assert (Hstep : forall d s, s = pinterval o \/ s = 7 * pinterval o
                              \/ s = pinterval o * unitMs (pfreq o) ->
            (if (d <? 0) || (s <=? 0) then O else Z.to_nat (d / s + 1)) = O).
  { intros d s Hs.
    assert (Hle : (s <=? 0) = true) by (apply Z.leb_le; nia).
    now rewrite Hle, orb_true_r. }
  cbv zeta beta.
  destruct (pfreq o); apply Hstep; auto.
Qed.

Lemma candidates_sorted (o : ParsedOptions) (before : Z) :
  StronglySorted Z.lt (candidates o (numPeriods o before)).
Proof.
  destruct (Z_lt_le_dec 0 (pinterval o)) as [Hi|Hi].
  - now apply candidates_from_sorted.
  - rewrite numPeriods_zero by exact Hi. constructor.
Qed.

Lemma emit_sorted (o : ParsedOptions) (after before : Z) (cands : list Z) :
  StronglySorted Z.lt cands ->
  forall cnt, StronglySorted Z.lt (emit o after before cnt cands).
Proof.
  induction 1 as [|res rest Hrest IH Hres]; intros cnt; cbn [emit];
    [constructor|].
  destruct (match puntil o with Some u => u <? res | None => false end);
    [constructor|].
  destruct (res <? pdtstart o); [apply IH|].
  destruct ((after <=? res) && (before <? res)); [constructor|].
  assert (Hout : forall c,
            StronglySorted Z.lt
              ((if res <? after then [] else [res])
               ++ emit o after before c rest)).
  { intros c. destruct (res <? after); cbn [app]; [apply IH|].
    constructor; [apply IH|]. apply Forall_forall. intros y Hy.
    apply emit_subset in Hy. rewrite Forall_forall in Hres. now apply Hres. }
  destruct cnt as [c|]; [|apply Hout].
  destruct (c =? 0); [apply Hout|].
  destruct (c - 1 =? 0); [|apply Hout].
  destruct (res <? after); repeat constructor.
Qed.

Lemma between_sorted (r : t) (after before : Z) :
  StronglySorted Z.lt (between r after before).
Proof.
  unfold between. destruct (_ || _); [constructor|].
  apply emit_sorted, candidates_sorted.
Qed.

End AscendingInstants.

Lemma sorted_last (l : list Z) (d : Z) :
  StronglySorted Z.lt l -> Forall (fun t => t <= last l d) l.
Proof.
  induction 1 as [|a l Hl IH Ha]; [constructor|].
  destruct l as [|b l'].
  - repeat constructor. cbn. lia.
  - change (last (a :: b :: l') d) with (last (b :: l') d).
    constructor; [|exact IH].
    inversion Ha as [|? ? Hab _]; subst.
    inversion IH as [|? ? Hb _]; subst. lia.
Qed.

Lemma sorted_head (a : Z) (l : list Z) :
  StronglySorted Z.lt (a :: l) -> Forall (fun t => a <= t) (a :: l).
Proof.
  intros H. inversion H as [|? ? _ Ha]; subst.
  constructor; [lia|]. eapply Forall_impl; [|exact Ha].
  cbv beta. intros t Ht. lia.
Qed.

Lemma sorted_NoDup (l : list Z) : StronglySorted Z.lt l -> NoDup l.
Proof.
  induction 1 as [|a l Hl IH Ha]; constructor; [|exact IH].
  intros Hin. rewrite Forall_forall in Ha. specialize (Ha a Hin). lia.
Qed.

Lemma getRecurringInstanceDates_sorted (now : Z) (s : string) (startDate : Z)
  (endDate queryEndDate : option Z) (dates : list Z) :
  getRecurringInstanceDates now s startDate endDate queryEndDate = Ok dates ->
  StronglySorted Z.lt dates.
Proof.
  unfold getRecurringInstanceDates.
  destruct (RRule.rrulestr now s) as [rule|e]; cbn [bindR]; [|discriminate].
  intros H. injection H as <-. apply between_sorted.
Qed.

(** X6.  The instants [getRecurringInstanceDates] returns are strictly
    ascending: none occurs twice, the first is the earliest and the last
    the latest. *)
Theorem expansion_strictly_ascending (now : Z) (s : string) (startDate : Z)
  (endDate queryEndDate : option Z) (dates : list Z) :
  getRecurringInstanceDates now s startDate endDate queryEndDate = Ok dates ->
  StronglySorted Z.lt dates
  /\ NoDup dates
  /\ Forall (fun t => hd startDate dates <= t <= last dates startDate) dates.
Proof.
  intros H. pose proof (getRecurringInstanceDates_sorted _ _ _ _ _ _ H) as Hs.
  split; [exact Hs|]. split; [now apply sorted_NoDup|].
  pose proof (sorted_last dates startDate Hs) as Hlast.
  destruct dates as [|a l]; [constructor|].
  pose proof (sorted_head a l Hs) as Hhead.
  cbn [hd]. rewrite Forall_forall in Hlast, Hhead. apply Forall_forall.
  intros t Ht. split; [now apply Hhead|now apply Hlast].
Qed.

Lemma expansion_strictly_ascending_witness :
  StronglySorted Z.lt Sample.sixInstants /\ NoDup Sample.sixInstants.
Proof.
  destruct (expansion_strictly_ascending (Sample.jan2024 1)
              Sample.weeklyRuleString (Sample.jan2024 1) None None
              Sample.sixInstants) as (Hs & Hn & _).
  - vm_compute. reflexivity.
  - split; assumption.
Defined.



(** ** The encoder and the expansion together *)

Lemma wholeSecond_mod (t : Z) : wholeSecond t mod 1000 = 0.
Proof. unfold wholeSecond. Z.to_euclidean_division_equations. lia. Qed.

Lemma expansion_of_read_rule (now : Z) (s : string) (rule : RRule.t)
  (startDate : Z) (endDate queryEndDate : option Z) :
  RRule.rrulestr now s = Ok rule ->
  exists dates,
    getRecurringInstanceDates now s startDate endDate queryEndDate = Ok dates
    /\ (forall t, In t dates ->
                  exists k, In t (RRule.periodInstants (RRule.options rule) k))
    /\ (forall c, RRule.pcount (RRule.options rule) = Some c -> 0 <= c ->
                  Z.of_nat (List.length dates) <= c).
Proof.
  intros Hr. unfold getRecurringInstanceDates. rewrite Hr. cbn [bindR].
  eexists. split; [reflexivity|]. split.
  - intros t Ht. eapply between_subset. exact Ht.
  - intros c Hc Hpos. now apply between_length.
Qed.


(** X3.  A positive [count] caps the number of instants of the expansion,
    whatever the window. *)
Theorem positive_count_caps_expansion (now now' : Z)
  (r : RecurrenceInput) (s : string) (c : Z) (startDate : Z)
  (endDate queryEndDate : option Z) (dates : list Z) :
  EncodableInput now r ->
  count r = Some c -> 0 < c ->
  generateRecurrenceRuleString now r = Ok s ->
  getRecurringInstanceDates now' s startDate endDate queryEndDate = Ok dates ->
  Z.of_nat (List.length dates) <= c.
Proof.
  intros Hin Hc Hpos Hs Hdates.
  destruct (rule_text_read_back now now' r Hin)
    as (s' & rule & Hs' & Hr & _ & _ & _ & _ & Hcount & _).
  rewrite Hs in Hs'. injection Hs' as <-.
  destruct (expansion_of_read_rule now' s rule startDate endDate queryEndDate
              Hr) as (dates' & Hd & _ & Hcap).
  rewrite Hdates in Hd. injection Hd as <-.
  apply Hcap; [|lia].
  rewrite Hcount, Hc. unfold truthyNumber.
  destruct (Z.eqb_spec c 0); [lia|reflexivity].
Qed.

(** X4.  For the frequencies from daily to yearly every instant of the
    expansion falls at the time of day of the start, cut to the whole
    second. *)
Theorem day_based_instances_keep_time_of_day (now now' : Z)
  (r : RecurrenceInput) (s : string) (startDate : Z)
  (endDate queryEndDate : option Z) (dates : list Z) :
  EncodableInput now r ->
  In (frequency r) [DAILY; WEEKLY; MONTHLY; YEARLY] ->
  generateRecurrenceRuleString now r = Ok s ->
  getRecurringInstanceDates now' s startDate endDate queryEndDate = Ok dates ->
  Forall (fun t => Calendar.msOfDay t
                   = Calendar.msOfDay (wholeSecond (startOf now r))) dates.
Proof.
  intros Hin Hfreq Hs Hdates.
  destruct (rule_text_read_back now now' r Hin)
    as (s' & rule & Hs' & Hr & _ & Hf & _ & Hstart & _).
  rewrite Hs in Hs'. injection Hs' as <-.
  destruct (expansion_of_read_rule now' s rule startDate endDate queryEndDate
              Hr) as (dates' & Hd & Hsub & _).
  rewrite Hdates in Hd. injection Hd as <-.
  apply Forall_forall. intros t Ht. destruct (Hsub t Ht) as [k Hk].
  rewrite <- Hstart. apply (periodInstants_same_time_of_day _ k); [|exact Hk].
  cbn in Hfreq.
  destruct Hfreq as [E|[E|[E|[E|[]]]]]; rewrite <- E in Hf; cbn in Hf;
    injection Hf as <-; auto.
Qed.


Lemma weekly_sample_encodable :
  EncodableInput (Sample.jan2024 1) Cases.weeklyHelperInput.
Proof.
  split.
  - unfold representableYear. vm_compute. split; discriminate.
  - intros e He. discriminate He.
  - intros codes Hc. injection Hc as <-.
    repeat apply Forall_cons; try apply Forall_nil; cbn; auto 10.
Defined.

Lemma daily_fraction_encodable :
  EncodableInput 0 Cases.dailyFraction.
Proof.
  split.
  - unfold representableYear. vm_compute. split; discriminate.
  - intros e He. discriminate He.
  - intros codes Hc. discriminate Hc.
Defined.



Lemma positive_count_caps_expansion_witness :
  Z.of_nat (List.length [Sample.jan2024 1; Sample.jan2024 2;
                         Sample.jan2024 3]) <= 3.
Proof.
  apply (positive_count_caps_expansion 0 0 Cases.dailyFraction
           Cases.dailyFractionRuleString 3 (Sample.jan2024 1) None
           (Some (Sample.jan2024 31))
           [Sample.jan2024 1; Sample.jan2024 2; Sample.jan2024 3]
           daily_fraction_encodable).
  - reflexivity.
  - lia.
  - vm_compute. reflexivity.
  - vm_compute. reflexivity.
Defined.

Lemma day_based_instances_keep_time_of_day_witness :
  Forall (fun t => Calendar.msOfDay t
                   = Calendar.msOfDay (wholeSecond Cases.quarterPast))
    [Sample.jan2024 2; Sample.jan2024 3].
Proof.
  apply (day_based_instances_keep_time_of_day 0 0 Cases.dailyFraction
           Cases.dailyFractionRuleString Cases.quarterPast None
           (Some (Sample.jan2024 31))
           [Sample.jan2024 2; Sample.jan2024 3]
           daily_fraction_encodable).
  - cbn. auto.
  - vm_compute. reflexivity.
  - vm_compute. reflexivity.
Defined.

Section RuleBounds.

Import RRule.

Lemma emit_rule_bounds (o : ParsedOptions) (after before : Z)
  (cands : list Z) :
  forall cnt,
    Forall (fun t => pdtstart o <= t
                     /\ forall u, puntil o = Some u -> t <= u)
      (emit o after before cnt cands).
Proof.
  induction cands as [|res rest IH]; intros cnt; cbn [emit]; [constructor|].
  destruct (match puntil o with Some u => u <? res | None => false end)
    eqn:Hu; [constructor|].
  destruct (Z.ltb_spec res (pdtstart o)) as [Hlt|Hge]; [apply IH|].
  destruct ((after <=? res) && (before <? res)); [constructor|].
  assert (Hout : Forall (fun t => pdtstart o <= t
                                  /\ forall u, puntil o = Some u -> t <= u)
                   (if res <? after then [] else [res])).
  { destruct (res <? after); constructor; [|constructor].
    split; [exact Hge|]. intros u Eu. rewrite Eu in Hu.
    apply Z.ltb_ge in Hu. exact Hu. }
  destruct cnt as [c|].
  - destruct (c =? 0); [apply Forall_app; split; [exact Hout|apply IH]|].
    destruct (c - 1 =? 0); [exact Hout|].
    apply Forall_app; split; [exact Hout|apply IH].
  - apply Forall_app; split; [exact Hout|apply IH].
Qed.

Lemma between_rule_bounds (r : t) (after before : Z) :
  Forall (fun t0 => pdtstart (options r) <= t0
                    /\ forall u, puntil (options r) = Some u -> t0 <= u)
    (between r after before).
Proof.
  unfold between. destruct (_ || _); [constructor|apply emit_rule_bounds].
Qed.

End RuleBounds.



(** ** The rows a creation leaves behind *)

Section More.
Variable mimes : list string.
Variable schema :
  MutationCreateEventInput -> list Issue + MutationCreateEventInput.

(** X8.  Atomicity.  Whenever [createEvent] fails, before or inside the
    transaction, the database is as it was before the call. *)
Theorem failed_creation_leaves_database_unchanged
  (ctx : Context) (now : Z) (input : MutationCreateEventInput)
  (w w' : World) (e : Exception) :
  resolve mimes schema ctx now input w = (Err e, w') ->
  db w' = db w.
Proof.
  unfold resolve.
  destruct (negb (isAuthenticated ctx)).
  { unfold throw. intros H. now injection H as _ <-. }
  destruct (safeParseAsync mimes schema input) as [issues|parsed].
  { unfold throw. intros H. now injection H as _ <-. }
  unfold bind, getDb.
  destruct (findUser (db w) (currentUserId ctx)) as [user|].
  2:{ unfold throw. intros H. now injection H as _ <-. }
  destruct (findOrganization _ _ _) as [[org ms]|].
  2:{ unfold throw. intros H. now injection H as _ <-. }
  destruct (unauthorized user ms).
  { unfold throw. intros H. now injection H as _ <-. }
  unfold transaction.
  destruct (transactionBody ctx now parsed w) as [[a|e0] w1].
  - discriminate.
  - intros H. injection H as _ <-. reflexivity.
Qed.

(** Whatever the expansion gives, the recurring block leaves the base event
    and the rule stored and linked; the last event row is the instance or,
    without an instant, the row of the non-recurring statements. *)
Lemma recurring_creation_run
  (ctx : Context) (now : Z) (input parsed : MutationCreateEventInput)
  (recurrence : RecurrenceArg) (s : string) (dates : list Z) (w : World) :
  passesChecks mimes schema ctx input parsed w ->
  inputRecurrence parsed = Some recurrence ->
  inputAttachments parsed <> Some [] ->
  generateRecurrenceRuleString now
    (helperInput (inputStartAt parsed) recurrence) = Ok s ->
  getRecurringInstanceDates now s (inputStartAt parsed)
    (Some match argRecurrenceEndDate recurrence with
          | Some e => e
          | None => DateFns.addYears now 1
          end) None
  = Ok dates ->
  let base := nextUuid w in
  let rule := S base in
  let created :=
    match dates with
    | firstInstance :: _ =>
        instanceValues ctx parsed firstInstance base rule (S rule)
    | [] => standaloneValues ctx parsed (S rule)
    end in
  exists rows w',
    resolve mimes schema ctx now input w = (Ok (mkResult created rows), w')
    /\ eventsTable (db w')
       = linkRule base rule
           (eventsTable (db w) ++ [baseEventValues ctx parsed base])
         ++ [created]
    /\ recurrenceRulesTable (db w')
       = recurrenceRulesTable (db w)
         ++ [recurrenceRuleValues ctx parsed recurrence s dates base rule].
Proof.
  intros Hpass Hrec Hatt Hs Hdates base rule created.
  rewrite (resolve_passes mimes schema ctx now input parsed w Hpass).
  assert (Hbody : exists rows w',
    transactionBody ctx now parsed w = (Ok (mkResult created rows), w')
    /\ eventsTable (db w')
       = linkRule base rule
           (eventsTable (db w) ++ [baseEventValues ctx parsed base])
         ++ [created]
    /\ recurrenceRulesTable (db w')
       = recurrenceRulesTable (db w)
         ++ [recurrenceRuleValues ctx parsed recurrence s dates base rule]).
  { unfold transactionBody. rewrite Hrec. unfold bind at 1.
    rewrite (recurringBlock_run ctx now parsed recurrence s dates w Hs Hdates).
    subst created. destruct dates as [|firstInstance rest].
    - unfold standaloneBlock. unfold bind at 1. rewrite insertEvent_run.
      cbn [hd_error].
      destruct (inputAttachments parsed) as [[|u us]|].
      + contradiction.
      + unfold bind at 1. rewrite persistAttachments_run. unfold ret.
        eexists. eexists. split; [reflexivity|]. split; reflexivity.
      + unfold ret.
        eexists. eexists. split; [reflexivity|]. split; reflexivity.
    - cbv zeta. fold base. fold rule.
      destruct (inputAttachments parsed) as [[|u us]|].
      + contradiction.
      + unfold bind at 1. rewrite persistAttachments_run. unfold ret.
        eexists. eexists. split; [reflexivity|]. split; reflexivity.
      + unfold ret.
        eexists. eexists. split; [reflexivity|]. split; reflexivity. }
  destruct Hbody as (rows & w' & Hrun & Hevents & Hrules).
  exists rows, w'. rewrite (transaction_ok _ w w' _ Hrun). auto.
Qed.

Lemma linkRule_In_base (ctx : Context) (input : MutationCreateEventInput)
  (base rule : Id) (events : list EventRow) :
  In (setRecurrenceRuleId rule (baseEventValues ctx input base))
     (linkRule base rule (events ++ [baseEventValues ctx input base])).
Proof.
  unfold linkRule. rewrite map_app. apply in_or_app. right.
  cbn [map eventId baseEventValues]. rewrite Nat.eqb_refl. now left.
Qed.

(** X9.  After a recurring creation the base event row and the rule row
    point at each other: the base row carries the id of the rule, the rule
    row the id of the base event, and the rule row holds the rule text, the
    start date and the organization of the request. *)
Theorem base_event_and_rule_linked_both_ways
  (ctx : Context) (now : Z) (input parsed : MutationCreateEventInput)
  (recurrence : RecurrenceArg) (s : string) (dates : list Z) (w : World) :
  passesChecks mimes schema ctx input parsed w ->
  inputRecurrence parsed = Some recurrence ->
  inputAttachments parsed <> Some [] ->
  generateRecurrenceRuleString now
    (helperInput (inputStartAt parsed) recurrence) = Ok s ->
  getRecurringInstanceDates now s (inputStartAt parsed)
    (Some match argRecurrenceEndDate recurrence with
          | Some e => e
          | None => DateFns.addYears now 1
          end) None
  = Ok dates ->
  exists result w' baseRow ruleRow,
    resolve mimes schema ctx now input w = (Ok result, w')
    /\ In baseRow (eventsTable (db w'))
    /\ recurrenceRulesTable (db w') = recurrenceRulesTable (db w) ++ [ruleRow]
    /\ isRecurring baseRow = true
    /\ isBaseRecurringEvent baseRow = true
    /\ baseRecurringEventId baseRow = None
    /\ recurrenceRuleId baseRow = Some (ruleId ruleRow)
    /\ ruleBaseRecurringEventId ruleRow = eventId baseRow
    /\ ruleRecurrenceRuleString ruleRow = s
    /\ ruleRecurrenceStartDate ruleRow = inputStartAt parsed
    /\ ruleOrganizationId ruleRow = inputOrganizationId parsed
    /\ eventOrganizationId baseRow = inputOrganizationId parsed
    /\ eventStartAt baseRow = inputStartAt parsed
    /\ eventEndAt baseRow = inputEndAt parsed.
Proof.
  intros Hpass Hrec Hatt Hs Hdates.
  destruct (recurring_creation_run ctx now input parsed recurrence s dates w
              Hpass Hrec Hatt Hs Hdates)
    as (rows & w' & Hrun & Hevents & Hrules).
  eexists. exists w'.
  exists (setRecurrenceRuleId (S (nextUuid w))
            (baseEventValues ctx parsed (nextUuid w))).
  exists (recurrenceRuleValues ctx parsed recurrence s dates (nextUuid w)
            (S (nextUuid w))).
  split; [exact Hrun|].
  split.
  { rewrite Hevents. apply in_or_app. left. apply linkRule_In_base. }
  split; [exact Hrules|].
  repeat split.
Qed.

Lemma last_Forall {A : Type} (P : A -> Prop) (l : list A) (d : A) :
  Forall P l -> P d -> P (last l d).
Proof.
  induction 1 as [|x l Hx Hl IH]; intros Hd; [exact Hd|].
  destruct l as [|y l]; [exact Hx|]. apply IH. exact Hd.
Qed.

Lemma last_In {A : Type} (l : list A) (d : A) :
  l <> [] -> In (last l d) l.
Proof.
  induction l as [|x l IH]; intros Hne; [contradiction|].
  destruct l as [|y l]; [now left|]. right. apply IH. discriminate.
Qed.


Lemma find_rule_appended (rules : list RecurrenceRuleRow)
  (r : RecurrenceRuleRow) :
  Forall (fun x => ruleId x <> ruleId r) rules ->
  find (fun x => Nat.eqb (ruleId x) (ruleId r)) (rules ++ [r]) = Some r.
Proof.
  induction 1 as [|x l Hx Hl IH]; cbn.
  - now rewrite Nat.eqb_refl.
  - apply Nat.eqb_neq in Hx. rewrite Hx. exact IH.
Qed.

(** X11.  Insert and look up.  The [recurrenceRule] field of the event a
    recurring creation returns resolves to the rule row that the same
    creation stored. *)
Theorem returned_instance_resolves_its_rule
  (ctx : Context) (now : Z) (input parsed : MutationCreateEventInput)
  (recurrence : RecurrenceArg) (s : string) (firstInstance : Z)
  (rest : list Z) (w : World) :
  passesChecks mimes schema ctx input parsed w ->
  inputRecurrence parsed = Some recurrence ->
  inputAttachments parsed <> Some [] ->
  Forall (fun r => ruleId r <> S (nextUuid w)) (recurrenceRulesTable (db w)) ->
  generateRecurrenceRuleString now
    (helperInput (inputStartAt parsed) recurrence) = Ok s ->
  getRecurringInstanceDates now s (inputStartAt parsed)
    (Some match argRecurrenceEndDate recurrence with
          | Some e => e
          | None => DateFns.addYears now 1
          end) None
  = Ok (firstInstance :: rest) ->
  exists result w' ruleRow,
    resolve mimes schema ctx now input w = (Ok result, w')
    /\ Event.recurrenceRule (event result) (db w') = Some ruleRow
    /\ ruleRecurrenceRuleString ruleRow = s
    /\ Some (ruleBaseRecurringEventId ruleRow)
       = baseRecurringEventId (event result)
    /\ ruleFrequency ruleRow = argFrequency recurrence
    /\ ruleCount ruleRow = argCount recurrence
    /\ ruleLatestInstanceDate ruleRow
       = last (firstInstance :: rest) (inputStartAt parsed).
Proof.
  intros Hpass Hrec Hatt Hfresh Hs Hdates.
  destruct (recurring_creation_run ctx now input parsed recurrence s
              (firstInstance :: rest) w Hpass Hrec Hatt Hs Hdates)
    as (rows & w' & Hrun & _ & Hrules).
  eexists. exists w'.
  exists (recurrenceRuleValues ctx parsed recurrence s (firstInstance :: rest)
            (nextUuid w) (S (nextUuid w))).
  split; [exact Hrun|].
  split.
  { unfold Event.recurrenceRule.
    cbn [event recurrenceRuleId instanceValues]. rewrite Hrules.
    apply (find_rule_appended (recurrenceRulesTable (db w))
             (recurrenceRuleValues ctx parsed recurrence s
                (firstInstance :: rest) (nextUuid w) (S (nextUuid w)))).
    exact Hfresh. }
  repeat split.
Qed.

(** X12.  A request without [recurrence] stores one event row that is
    neither recurring nor a base event, stores no rule, and attaches every
    upload to that row; its [recurrenceRule] field resolves to null. *)
Theorem standalone_event_created
  (ctx : Context) (now : Z) (input parsed : MutationCreateEventInput)
  (w : World) :
  passesChecks mimes schema ctx input parsed w ->
  inputRecurrence parsed = None ->
  inputAttachments parsed <> Some [] ->
  let created := standaloneValues ctx parsed (nextUuid w) in
  let rows := match inputAttachments parsed with
              | Some uploads =>
                  attachmentRows ctx (nextUuid w) (nextUlid w) uploads
              | None => []
              end in
  let puts := match inputAttachments parsed with
              | Some uploads => attachmentPuts ctx rows uploads
              | None => []
              end in
  exists w',
    resolve mimes schema ctx now input w = (Ok (mkResult created rows), w')
    /\ eventsTable (db w') = eventsTable (db w) ++ [created]
    /\ recurrenceRulesTable (db w') = recurrenceRulesTable (db w)
    /\ eventAttachmentsTable (db w') = eventAttachmentsTable (db w) ++ rows
    /\ objectStore w' = objectStore w ++ puts
    /\ isRecurring created = false
    /\ isBaseRecurringEvent created = false
    /\ Event.recurrenceRule created (db w') = None
    /\ Forall (fun a => attachmentEventId a = eventId created) rows
    /\ map putKey puts = map attachmentName rows
    /\ map putContentType puts = map attachmentMimeType rows.
Proof.
  intros Hpass Hrec Hatt created rows puts.
  rewrite (resolve_passes mimes schema ctx now input parsed w Hpass).
  unfold transaction, transactionBody. rewrite Hrec.
  unfold standaloneBlock. unfold bind at 1. rewrite insertEvent_run.
  cbn [hd_error]. subst puts rows.
  destruct (inputAttachments parsed) as [[|u us]|].
  - contradiction.
  - unfold bind at 1. rewrite persistAttachments_run. unfold ret.
    cbn [eventId standaloneValues afterEvent nextUlid].
    destruct (attachmentPuts_columns ctx
                (attachmentRows ctx (nextUuid w) (nextUlid w) (u :: us))
                (u :: us)
                (attachmentRows_length ctx (nextUuid w) (nextUlid w) (u :: us)))
      as [Hk Hc].
    eexists. split; [reflexivity|].
    cbn [db eventsTable recurrenceRulesTable eventAttachmentsTable
         objectStore withAttachments withEvents afterEvent].
    repeat split; try reflexivity; try assumption.
    apply attachmentRows_owner.
  - unfold ret. eexists. split; [reflexivity|].
    cbn [db eventsTable recurrenceRulesTable eventAttachmentsTable
         objectStore withAttachments withEvents afterEvent].
    rewrite !app_nil_r. repeat split; constructor.
Qed.

(** X13.  A request whose [attachments] list is present and empty fails,
    since an insert of no rows is refused; nothing is stored and no object
    is written. *)
Theorem empty_attachment_list_fails
  (ctx : Context) (now : Z) (input parsed : MutationCreateEventInput)
  (w : World) :
  passesChecks mimes schema ctx input parsed w ->
  inputAttachments parsed = Some [] ->
  exists e w',
    resolve mimes schema ctx now input w = (Err e, w')
    /\ db w' = db w
    /\ objectStore w' = objectStore w
    /\ (inputRecurrence parsed = None ->
        e = JsError "values() must be called with at least one value").
Proof.
  intros Hpass Hatt.
  rewrite (resolve_passes mimes schema ctx now input parsed w Hpass).
  assert (Hempty : forall id w0,
            persistAttachments ctx id [] w0
            = (Err (JsError "values() must be called with at least one value"),
               w0)).
  { intros id w0. unfold persistAttachments. cbn. unfold bind, ret, throw.
    now destruct w0. }
  assert (Hstandalone : forall w0,
            exists w1, standaloneBlock ctx parsed w0
            = (Err (JsError "values() must be called with at least one value"),
               w1) /\ objectStore w1 = objectStore w0).
  { intros w0. unfold standaloneBlock. unfold bind at 1.
    rewrite insertEvent_run. cbn [hd_error]. rewrite Hatt.
    unfold bind at 1. rewrite Hempty. eexists. split; reflexivity. }
  unfold transaction, transactionBody.
  destruct (inputRecurrence parsed) as [recurrence|].
  - unfold bind at 1.
    destruct (generateRecurrenceRuleString now
                (helperInput (inputStartAt parsed) recurrence))
      as [s|e1] eqn:Hs.
    + destruct (getRecurringInstanceDates now s (inputStartAt parsed)
                  (Some match argRecurrenceEndDate recurrence with
                        | Some e => e
                        | None => DateFns.addYears now 1
                        end) None) as [dates|e2] eqn:Hdates.
      * rewrite (recurringBlock_run ctx now parsed recurrence s dates w
                   Hs Hdates).
        destruct dates as [|firstInstance rest].
        -- destruct (Hstandalone (afterRule ctx parsed recurrence s [] w))
             as [w1 [-> Hobj]].
           eexists. eexists. split; [reflexivity|].
           cbn [db objectStore].
           split; [reflexivity|split; [exact Hobj|discriminate]].
        -- cbv zeta. rewrite Hatt. unfold bind at 1. rewrite Hempty.
           eexists. eexists. split; [reflexivity|].
           cbn [db objectStore].
           split; [reflexivity|split; [reflexivity|discriminate]].
      * unfold recurringBlock. unfold bind at 1. rewrite insertEvent_run.
        cbn [hd_error]. unfold bind at 1. rewrite Hs. unfold liftR at 1.
        unfold bind at 1. cbn [eventId baseEventValues].
        rewrite Hdates. unfold liftR at 1.
        eexists. eexists. split; [reflexivity|].
        cbn [db objectStore].
        split; [reflexivity|split; [reflexivity|discriminate]].
    + unfold recurringBlock. unfold bind at 1. rewrite insertEvent_run.
      cbn [hd_error]. unfold bind at 1. rewrite Hs. unfold liftR at 1.
      eexists. eexists. split; [reflexivity|].
      cbn [db objectStore].
      split; [reflexivity|split; [reflexivity|discriminate]].
  - destruct (Hstandalone w) as [w1 [-> Hobj]].
    eexists. eexists. split; [reflexivity|].
    cbn [db objectStore].
    split; [reflexivity|split; [exact Hobj|reflexivity]].
Qed.

Lemma undefined_weekday_entry_throws (now : Z) (recurrence : RecurrenceInput)
  (codes : list string) :
  byDay recurrence = Some codes ->
  In RRule.WdUndefined (map WEEKDAY_MAP codes) ->
  exists msg,
    generateRecurrenceRuleString now recurrence = Err (JsTypeError msg).
Proof.
  intros Hby Hin.
  unfold generateRecurrenceRuleString, RRule.construct, RRule.parseOptions.
  destruct (frequencyOfNumber_FREQ_MAP (frequency recurrence)) as [g Hg].
  unfold ruleOptions at 1. cbn [RRule.freq]. rewrite Hg.
  unfold ruleOptions; cbn [RRule.byweekday RRule.bymonthday RRule.dtstart
    RRule.bymonth RRule.interval RRule.count RRule.until].
  rewrite Hby.
  destruct codes as [|c0 cs]; [destruct Hin|].
  cbn [nonEmpty].
  destruct (mapR_parseWeekdayEntry_undefined (map WEEKDAY_MAP (c0 :: cs)) Hin)
    as [msg Hmsg].
  exists msg.
  destruct (nonEmpty (byMonthDay recurrence)); rewrite Hmsg; reflexivity.
Qed.

(** X14.  A weekday code that is neither one of MO..SU nor a property
    name inherited by every object aborts the creation with a TypeError:
    the base event inserted before the encoding is rolled back and no
    object is written. *)
Theorem unknown_weekday_code_aborts_creation
  (ctx : Context) (now : Z) (input parsed : MutationCreateEventInput)
  (recurrence : RecurrenceArg) (codes : list string) (day : string)
  (w : World) :
  passesChecks mimes schema ctx input parsed w ->
  inputRecurrence parsed = Some recurrence ->
  argByDay recurrence = Some codes ->
  In day codes ->
  ~ In day (map fst WEEKDAY_OWN) ->
  ~ In day OBJECT_PROTOTYPE_KEYS ->
  exists msg w',
    resolve mimes schema ctx now input w = (Err (JsTypeError msg), w')
    /\ db w' = db w
    /\ objectStore w' = objectStore w.
Proof.
  intros Hpass Hrec Hby Hin Hown Hproto.
  rewrite (resolve_passes mimes schema ctx now input parsed w Hpass).
  destruct (undefined_weekday_entry_throws now
              (helperInput (inputStartAt parsed) recurrence) codes Hby)
    as [msg Hmsg].
  { rewrite <- (WEEKDAY_MAP_undefined day Hown Hproto). now apply in_map. }
  exists msg.
  unfold transaction, transactionBody. rewrite Hrec. unfold bind at 1.
  unfold recurringBlock. unfold bind at 1. rewrite insertEvent_run.
  cbn [hd_error]. unfold bind at 1. rewrite Hmsg. unfold liftR at 1.
  eexists. split; [reflexivity|]. split; reflexivity.
Qed.

End More.


Lemma failed_creation_leaves_database_unchanged_witness :
  db (snd (resolve Sample.mimeTypes Sample.acceptingSchema (Sample.context 1)
             (Sample.jan2024 1)
             (Sample.input (Some Cases.unknownDayArg) None) Sample.world))
  = db Sample.world.
Proof.
  apply (failed_creation_leaves_database_unchanged Sample.mimeTypes
           Sample.acceptingSchema (Sample.context 1) (Sample.jan2024 1)
           (Sample.input (Some Cases.unknownDayArg) None) Sample.world _
           (JsTypeError "Cannot read properties of undefined (reading 'n')")).
  vm_compute. reflexivity.
Defined.

Lemma base_event_and_rule_linked_both_ways_witness :
  exists result w' baseRow ruleRow,
    resolve Sample.mimeTypes Sample.acceptingSchema (Sample.context 1)
      (Sample.jan2024 1) (Sample.input (Some Sample.weeklyArg) None)
      Sample.world = (Ok result, w')
    /\ In baseRow (eventsTable (db w'))
    /\ recurrenceRulesTable (db w') = [ruleRow]
    /\ recurrenceRuleId baseRow = Some (ruleId ruleRow)
    /\ ruleBaseRecurringEventId ruleRow = eventId baseRow.
Proof.
  destruct (base_event_and_rule_linked_both_ways Sample.mimeTypes
              Sample.acceptingSchema (Sample.context 1) (Sample.jan2024 1)
              (Sample.input (Some Sample.weeklyArg) None)
              (Sample.input (Some Sample.weeklyArg) None) Sample.weeklyArg
              Sample.weeklyRuleString Sample.sixInstants Sample.world)
    as (result & w' & baseRow & ruleRow & Hrun & Hin & Hrules & _ & _ & _
        & Hlink & Hback & _).
  - apply sample_passes. reflexivity.
  - reflexivity.
  - discriminate.
  - vm_compute. reflexivity.
  - vm_compute. reflexivity.
  - exists result, w', baseRow, ruleRow. auto.
Defined.


Lemma returned_instance_resolves_its_rule_witness :
  exists result w' ruleRow,
    resolve Sample.mimeTypes Sample.acceptingSchema (Sample.context 1)
      (Sample.jan2024 1) (Sample.input (Some Sample.weeklyArg) None)
      Sample.world = (Ok result, w')
    /\ Event.recurrenceRule (event result) (db w') = Some ruleRow
    /\ ruleRecurrenceRuleString ruleRow = Sample.weeklyRuleString
    /\ ruleLatestInstanceDate ruleRow = Sample.jan2024 12.
Proof.
  destruct (returned_instance_resolves_its_rule Sample.mimeTypes
              Sample.acceptingSchema (Sample.context 1) (Sample.jan2024 1)
              (Sample.input (Some Sample.weeklyArg) None)
              (Sample.input (Some Sample.weeklyArg) None) Sample.weeklyArg
              Sample.weeklyRuleString (Sample.jan2024 1)
              [Sample.jan2024 3; Sample.jan2024 5; Sample.jan2024 8;
               Sample.jan2024 10; Sample.jan2024 12]
              Sample.world)
    as (result & w' & ruleRow & Hrun & Hfield & Hs & _ & _ & _ & Hlast).
  - apply sample_passes. reflexivity.
  - reflexivity.
  - discriminate.
  - constructor.
  - vm_compute. reflexivity.
  - vm_compute. reflexivity.
  - exists result, w', ruleRow. auto.
Defined.

Lemma standalone_event_created_witness :
  exists w',
    resolve Sample.mimeTypes Sample.acceptingSchema (Sample.context 1)
      (Sample.jan2024 1)
      (Sample.input None (Some [Sample.upload "image/png"])) Sample.world
    = (Ok (mkResult
             (standaloneValues (Sample.context 1)
                (Sample.input None (Some [Sample.upload "image/png"])) 100)
             (attachmentRows (Sample.context 1) 100 500
                [Sample.upload "image/png"])), w')
    /\ List.length (eventsTable (db w')) = 1%nat
    /\ recurrenceRulesTable (db w') = [].
Proof.
  destruct (standalone_event_created Sample.mimeTypes
              Sample.acceptingSchema (Sample.context 1) (Sample.jan2024 1)
              (Sample.input None (Some [Sample.upload "image/png"]))
              (Sample.input None (Some [Sample.upload "image/png"]))
              Sample.world)
    as (w' & Hrun & Hevents & Hrules & _).
  - apply sample_passes. reflexivity.
  - reflexivity.
  - discriminate.
  - exists w'. split; [exact Hrun|].
    rewrite Hevents, Hrules. split; reflexivity.
Defined.

Lemma empty_attachment_list_fails_witness :
  exists w',
    resolve Sample.mimeTypes Sample.acceptingSchema (Sample.context 1)
      (Sample.jan2024 1) (Sample.input None (Some [])) Sample.world
    = (Err (JsError "values() must be called with at least one value"), w')
    /\ db w' = db Sample.world.
Proof.
  destruct (empty_attachment_list_fails Sample.mimeTypes
              Sample.acceptingSchema (Sample.context 1) (Sample.jan2024 1)
              (Sample.input None (Some [])) (Sample.input None (Some []))
              Sample.world)
    as (e & w' & Hrun & Hdb & _ & He).
  - apply sample_passes. reflexivity.
  - reflexivity.
  - exists w'. rewrite <- (He eq_refl). auto.
Defined.

Lemma unknown_weekday_code_aborts_creation_witness :
  exists msg w',
    resolve Sample.mimeTypes Sample.acceptingSchema (Sample.context 1)
      (Sample.jan2024 1) (Sample.input (Some Cases.unknownDayArg) None)
      Sample.world
    = (Err (JsTypeError msg), w')
    /\ db w' = db Sample.world.
Proof.
  destruct (unknown_weekday_code_aborts_creation Sample.mimeTypes
              Sample.acceptingSchema (Sample.context 1) (Sample.jan2024 1)
              (Sample.input (Some Cases.unknownDayArg) None)
              (Sample.input (Some Cases.unknownDayArg) None)
              Cases.unknownDayArg ["MO"; "XX"] "XX" Sample.world)
    as (msg & w' & Hrun & Hdb & _).
  - apply sample_passes. reflexivity.
  - reflexivity.
  - reflexivity.
  - cbn. auto.
  - apply string_not_in. reflexivity.
  - apply string_not_in. reflexivity.
  - exists msg, w'. auto.
Defined.


Section Order.

Variable mimes : list string.
Variable schema :
  MutationCreateEventInput -> list Issue + MutationCreateEventInput.

(** X15.  Of the instants a recurring creation expands, the event it
    returns starts at the earliest and the rule row records the latest;
    the two coincide exactly when one instant was expanded. *)
Theorem first_instance_earliest_latest_date_last
  (ctx : Context) (now : Z) (input parsed : MutationCreateEventInput)
  (recurrence : RecurrenceArg) (s : string) (dates : list Z) (w : World) :
  passesChecks mimes schema ctx input parsed w ->
  inputRecurrence parsed = Some recurrence ->
  inputAttachments parsed <> Some [] ->
  generateRecurrenceRuleString now
    (helperInput (inputStartAt parsed) recurrence) = Ok s ->
  getRecurringInstanceDates now s (inputStartAt parsed)
    (Some match argRecurrenceEndDate recurrence with
          | Some e => e
          | None => DateFns.addYears now 1
          end) None
  = Ok dates ->
  dates <> [] ->
  exists result w' ruleRow,
    resolve mimes schema ctx now input w = (Ok result, w')
    /\ recurrenceRulesTable (db w') = recurrenceRulesTable (db w) ++ [ruleRow]
    /\ Forall (fun t => eventStartAt (event result) <= t
                        <= ruleLatestInstanceDate ruleRow) dates
    /\ (List.length dates = 1%nat <->
        eventStartAt (event result) = ruleLatestInstanceDate ruleRow).
Proof.
  intros Hpass Hrec Hatt Hs Hdates Hne.
  destruct (recurring_creation_run mimes schema ctx now input parsed
              recurrence s dates w Hpass Hrec Hatt Hs Hdates)
    as (rows & w' & Hrun & _ & Hrules).
  pose proof (getRecurringInstanceDates_sorted _ _ _ _ _ _ Hdates) as Hsorted.
  pose proof (sorted_last dates (inputStartAt parsed) Hsorted) as Hlast.
  eexists. exists w'.
  exists (recurrenceRuleValues ctx parsed recurrence s dates (nextUuid w)
            (S (nextUuid w))).
  split; [exact Hrun|]. split; [exact Hrules|].
  cbn [event recurrenceRuleValues ruleLatestInstanceDate].
  destruct dates as [|a l]; [contradiction|].
  cbn [instanceValues eventStartAt].
  pose proof (sorted_head a l Hsorted) as Hhead.
  split.
  { rewrite Forall_forall in Hlast, Hhead. apply Forall_forall.
    intros t Ht. split; [now apply Hhead|now apply Hlast]. }
  destruct l as [|b l'].
  - cbn. tauto.
  - split; [cbn; discriminate|].
    intros Heq. exfalso.
    inversion Hsorted as [|? ? _ Ha]; subst.
    assert (Hin : In (last (a :: b :: l') (inputStartAt parsed)) (b :: l')).
    { change (last (a :: b :: l') (inputStartAt parsed))
        with (last (b :: l') (inputStartAt parsed)).
      apply last_In. discriminate. }
    rewrite Forall_forall in Ha. specialize (Ha _ Hin). lia.
Qed.

End Order.

Lemma first_instance_earliest_latest_date_last_witness :
  exists result w' ruleRow,
    resolve Sample.mimeTypes Sample.acceptingSchema (Sample.context 1)
      (Sample.jan2024 1) (Sample.input (Some Sample.weeklyArg) None)
      Sample.world = (Ok result, w')
    /\ recurrenceRulesTable (db w') = [ruleRow]
    /\ Forall (fun t => eventStartAt (event result) <= t
                        <= ruleLatestInstanceDate ruleRow)
         Sample.sixInstants.
Proof.
  destruct (first_instance_earliest_latest_date_last Sample.mimeTypes
              Sample.acceptingSchema (Sample.context 1) (Sample.jan2024 1)
              (Sample.input (Some Sample.weeklyArg) None)
              (Sample.input (Some Sample.weeklyArg) None) Sample.weeklyArg
              Sample.weeklyRuleString Sample.sixInstants Sample.world)
    as (result & w' & ruleRow & Hrun & Hrules & Hall & _).
  - apply sample_passes. reflexivity.
  - reflexivity.
  - discriminate.
  - vm_compute. reflexivity.
  - vm_compute. reflexivity.
  - discriminate.
  - exists result, w', ruleRow. auto.
Defined.

Section WellFormed.

Variable mimes : list string.
Variable schema :
  MutationCreateEventInput -> list Issue + MutationCreateEventInput.

Lemma encoded_rule_expands (now now' : Z) (r : RecurrenceInput)
  (startDate : Z) (endDate queryEndDate : option Z) :
  EncodableInput now r ->
  exists s rule dates,
    generateRecurrenceRuleString now r = Ok s
    /\ RRule.rrulestr now' s = Ok rule
    /\ getRecurringInstanceDates now' s startDate endDate queryEndDate
       = Ok dates
    /\ Forall (fun t => t mod 1000 = 0) dates.
Proof.
  intros Hin.
  destruct (rule_text_read_back now now' r Hin)
    as (s & rule & Hs & Hr & _ & _ & _ & Hstart & _).
  destruct (expansion_of_read_rule now' s rule startDate endDate queryEndDate
              Hr) as (dates & Hd & Hsub & _).
  exists s, rule, dates. repeat (split; [assumption|]).
  apply Forall_forall. intros t Ht. destruct (Hsub t Ht) as [k Hk].
  rewrite (periodInstants_same_millisecond _ k t Hk), Hstart.
  apply wholeSecond_mod.
Qed.



End WellFormed.



(** ** The validation of the [recurrence] argument *)

Section SchemaFacts.

Import RecurrenceInputSchema.

Lemma flat_map_nil {A B : Type} (f : A -> list B) (l : list A) :
  flat_map f l = [] -> Forall (fun x => f x = []) l.
Proof.
  induction l as [|x l IH]; cbn [flat_map]; [constructor|].
  intros H. apply app_eq_nil in H as [Hx Hl]. constructor; auto.
Qed.

Lemma nil_flat_map {A B : Type} (f : A -> list B) (l : list A) :
  Forall (fun x => f x = []) l -> flat_map f l = [].
Proof.
  induction 1 as [|x l Hx Hl IH]; cbn [flat_map]; [reflexivity|].
  now rewrite Hx, IH.
Qed.

Lemma combine_seq_nth {A : Type} (l : list A) :
  forall s i x, nth_error l i = Some x ->
                In ((s + i)%nat, x) (combine (seq s (List.length l)) l).
Proof.
  induction l as [|a l IH]; intros s i x H; [destruct i; discriminate|].
  cbn [List.length seq combine]. destruct i as [|i]; cbn in H.
  - injection H as <-. left. f_equal. lia.
  - right. replace (s + S i)%nat with (S s + i)%nat by lia. now apply IH.
Qed.

Lemma indexed_nth {A : Type} (l : list A) (i : nat) (x : A) :
  nth_error l i = Some x -> In (i, x) (indexed l).
Proof. intros H. exact (combine_seq_nth l O i x H). Qed.

Lemma indexed_In {A : Type} (l : list A) (x : A) :
  In x l -> exists i, In (i, x) (indexed l).
Proof.
  intros H. apply In_nth_error in H as [i Hi]. exists i.
  now apply indexed_nth.
Qed.

Lemma indexed_snd {A : Type} (l : list A) (ix : nat * A) :
  In ix (indexed l) -> In (snd ix) l.
Proof.
  destruct ix as [i x]. intros H. now apply in_combine_r in H.
Qed.

Lemma intBetween_nil (lo hi : Z) (p : list PathSegment) (n : Z) :
  intBetween lo hi p n = [] <-> lo <= n <= hi.
Proof.
  unfold intBetween.
  destruct (Z.ltb_spec n lo), (Z.ltb_spec hi n); cbn; split;
    (discriminate || lia || reflexivity).
Qed.

Lemma arrayOf_intBetween_nil (lo hi : Z) (p : list PathSegment)
  (l : list Z) :
  arrayOf (intBetween lo hi) p l = [] <-> Forall (fun n => lo <= n <= hi) l.
Proof.
  unfold arrayOf. split.
  - intros H. apply flat_map_nil in H. rewrite Forall_forall in H.
    apply Forall_forall. intros n Hn.
    destruct (indexed_In l n Hn) as [i Hi].
    apply (intBetween_nil lo hi (p ++ [Index i]) n). exact (H _ Hi).
  - intros H. apply nil_flat_map. apply Forall_forall. intros ix Hix.
    apply intBetween_nil. rewrite Forall_forall in H.
    apply H. now apply indexed_snd.
Qed.

Lemma arrayOf_anything_nil {A : Type} (p : list PathSegment) (l : list A) :
  arrayOf anything p l = [].
Proof. unfold arrayOf. apply nil_flat_map. apply Forall_forall. reflexivity. Qed.

Lemma positiveInt_nil (p : list PathSegment) (n : Z) :
  positiveInt p n = [] <-> 1 <= n.
Proof.
  unfold positiveInt. destruct (Z.leb_spec n 0); split;
    (discriminate || lia || reflexivity).
Qed.

(** The shape of an accepted object, key by key. *)
Lemma recurrenceInputSchema_inr (raw : Raw) (p : RecurrenceArg) :
  recurrenceInputSchema raw = inr p ->
  argFrequency p = rawFrequency raw
  /\ (exists i, argInterval p = Some i /\ 1 <= i
                /\ rawInterval raw = given (match rawInterval raw with
                                            | Absent => None
                                            | _ => Some i
                                            end))
  /\ rawCount raw = given (argCount p)
  /\ rawRecurrenceEndDate raw = given (argRecurrenceEndDate p)
  /\ rawByDay raw = given (argByDay p)
  /\ rawByMonth raw = given (argByMonth p)
  /\ rawByMonthDay raw = given (argByMonthDay p)
  /\ (forall c, argCount p = Some c -> 1 <= c)
  /\ (forall l, argByMonth p = Some l -> Forall (fun m => 1 <= m <= 12) l)
  /\ (forall l, argByMonthDay p = Some l ->
                Forall (fun d => 1 <= d <= 31) l)
  /\ (rawInterval raw = Absent -> argInterval p = Some 1).
Proof.
  unfold recurrenceInputSchema. cbv zeta.
  destruct (_ ++ _) as [|x xs] eqn:E; [|discriminate].
  intros H. injection H as <-.
  apply app_eq_nil in E as [Ei E]. apply app_eq_nil in E as [Ec E].
  apply app_eq_nil in E as [Ee E]. apply app_eq_nil in E as [Ed E].
  apply app_eq_nil in E as [Em Emd].
  cbn [argFrequency argInterval argCount argRecurrenceEndDate argByDay
       argByMonth argByMonthDay].
  split; [reflexivity|].
  split.
  { exists (snd (withDefault positiveInt 1 [Key "interval"] (rawInterval raw))).
    split; [reflexivity|].
    destruct (rawInterval raw) as [| |i]; cbn in Ei |- *;
      try discriminate.
    - split; [lia|reflexivity].
    - split; [now apply (positiveInt_nil [Key "interval"])|reflexivity]. }
  destruct (rawCount raw) as [| |c]; cbn in Ec; try discriminate;
    destruct (rawRecurrenceEndDate raw) as [| |e]; cbn in Ee;
      try discriminate;
    destruct (rawByDay raw) as [| |days]; cbn in Ed; try discriminate;
    destruct (rawByMonth raw) as [| |months]; cbn [optional fst] in Em;
      try discriminate;
    destruct (rawByMonthDay raw) as [| |mdays]; cbn [optional fst] in Emd;
      try discriminate;
    cbn [optional snd given];
    repeat (split; [reflexivity|]);
    (split; [intros c' Hc'; try discriminate; injection Hc' as <-;
             now apply (positiveInt_nil [Key "count"])|]);
    (split; [intros l Hl; try discriminate; injection Hl as <-;
             now apply (arrayOf_intBetween_nil 1 12 [Key "byMonth"])|]);
    (split; [intros l Hl; try discriminate; injection Hl as <-;
             now apply (arrayOf_intBetween_nil 1 31 [Key "byMonthDay"])|]);
    intros Habs; destruct (rawInterval raw); try discriminate; reflexivity.
Qed.

End SchemaFacts.

Section SchemaTheorems.

Import RecurrenceInputSchema.

Lemma optional_given {A : Type} (inner : Check A) (p : list PathSegment)
  (o : option A) :
  (forall a, o = Some a -> inner p a = []) ->
  optional inner p (given o) = ([], o).
Proof.
  destruct o as [a|]; cbn; [|reflexivity].
  intros H. now rewrite (H a eq_refl).
Qed.

Lemma recurrenceInputSchema_rawOf (p : RecurrenceArg) (i : Z) :
  argInterval p = Some i -> 1 <= i ->
  (forall c, argCount p = Some c -> 1 <= c) ->
  (forall l, argByMonth p = Some l -> Forall (fun m => 1 <= m <= 12) l) ->
  (forall l, argByMonthDay p = Some l -> Forall (fun d => 1 <= d <= 31) l) ->
  recurrenceInputSchema (rawOf p) = inr p.
Proof.
  intros Hi Hpos Hc Hm Hd.
  unfold recurrenceInputSchema, rawOf. cbv zeta.
  cbn [rawFrequency rawInterval rawCount rawRecurrenceEndDate rawByDay
       rawByMonth rawByMonthDay].
  rewrite Hi. cbn [given withDefault fst snd].
  rewrite (proj2 (positiveInt_nil [Key "interval"] i) Hpos).
  rewrite (optional_given positiveInt [Key "count"] (argCount p))
    by (intros c Ec; apply positiveInt_nil; now apply Hc).
  rewrite (optional_given anything [Key "recurrenceEndDate"]
             (argRecurrenceEndDate p)) by reflexivity.
  rewrite (optional_given (arrayOf anything) [Key "byDay"] (argByDay p))
    by (intros; apply arrayOf_anything_nil).
  rewrite (optional_given (arrayOf (intBetween 1 12)) [Key "byMonth"]
             (argByMonth p))
    by (intros l El; apply arrayOf_intBetween_nil; now apply Hm).
  rewrite (optional_given (arrayOf (intBetween 1 31)) [Key "byMonthDay"]
             (argByMonthDay p))
    by (intros l El; apply arrayOf_intBetween_nil; now apply Hd).
  cbn [fst snd app]. rewrite <- Hi. now destruct p.
Qed.

(** X18.  An object [recurrenceInputSchema] accepts has a positive
    interval, 1 when none was given, a positive count, months from 1 to 12
    and month days from 1 to 31; no field was null, and every value given
    is passed on unchanged. *)
Theorem accepted_recurrence_is_in_range (raw : Raw) (p : RecurrenceArg) :
  recurrenceInputSchema raw = inr p ->
  argFrequency p = rawFrequency raw
  /\ (exists i, argInterval p = Some i /\ 1 <= i
                /\ (rawInterval raw = Given i
                    \/ (rawInterval raw = Absent /\ i = 1)))
  /\ (forall c, argCount p = Some c -> 1 <= c)
  /\ (forall l, argByMonth p = Some l -> Forall (fun m => 1 <= m <= 12) l)
  /\ (forall l, argByMonthDay p = Some l -> Forall (fun d => 1 <= d <= 31) l)
  /\ rawCount raw = given (argCount p)
  /\ rawRecurrenceEndDate raw = given (argRecurrenceEndDate p)
  /\ rawByDay raw = given (argByDay p)
  /\ rawByMonth raw = given (argByMonth p)
  /\ rawByMonthDay raw = given (argByMonthDay p).
Proof.
  intros H.
  destruct (recurrenceInputSchema_inr raw p H)
    as (Hf & (i & Hi & Hpos & Hraw) & Hc & He & Hd & Hm & Hmd & Hcp & Hmp
        & Hmdp & Habs).
  split; [exact Hf|]. split.
  { exists i. split; [exact Hi|]. split; [exact Hpos|].
    destruct (rawInterval raw) as [| |j] eqn:Er.
    - right. split; [reflexivity|]. specialize (Habs eq_refl). congruence.
    - discriminate Hraw.
    - left. cbn in Hraw. exact Hraw. }
  repeat (split; [assumption|]). assumption.
Qed.

(** X19.  Validating again what [recurrenceInputSchema] accepted changes
    nothing. *)
Theorem validation_is_idempotent (raw : Raw) (p : RecurrenceArg) :
  recurrenceInputSchema raw = inr p ->
  recurrenceInputSchema (rawOf p) = inr p.
Proof.
  intros H.
  destruct (recurrenceInputSchema_inr raw p H)
    as (_ & (i & Hi & Hpos & _) & _ & _ & _ & _ & _ & Hcp & Hmp & Hmdp & _).
  now apply (recurrenceInputSchema_rawOf p i).
Qed.

Lemma issues_reported (raw : Raw) (x : ZodIssue) :
  In x (fst (withDefault positiveInt 1 [Key "interval"] (rawInterval raw))
        ++ fst (optional positiveInt [Key "count"] (rawCount raw))
        ++ fst (optional anything [Key "recurrenceEndDate"]
                  (rawRecurrenceEndDate raw))
        ++ fst (optional (arrayOf anything) [Key "byDay"] (rawByDay raw))
        ++ fst (optional (arrayOf (intBetween 1 12)) [Key "byMonth"]
                  (rawByMonth raw))
        ++ fst (optional (arrayOf (intBetween 1 31)) [Key "byMonthDay"]
                  (rawByMonthDay raw))) ->
  exists issues, recurrenceInputSchema raw = inl issues /\ In x issues.
Proof.
  intros H. unfold recurrenceInputSchema. cbv zeta.
  destruct (_ ++ _) as [|y ys]; [destruct H|].
  eexists. split; [reflexivity|exact H].
Qed.

(** X20.  A month outside 1..12 makes [recurrenceInputSchema] reject the
    object, with an issue at the index of that month in [byMonth]. *)
Theorem month_out_of_range_is_reported (raw : Raw) (months : list Z)
  (i : nat) (m : Z) :
  rawByMonth raw = Given months ->
  nth_error months i = Some m ->
  m < 1 \/ 12 < m ->
  exists issues,
    recurrenceInputSchema raw = inl issues
    /\ In (mkZodIssue (if m <? 1 then too_small else too_big)
             [Key "byMonth"; Index i]) issues.
Proof.
  intros Hraw Hnth Hout. apply issues_reported.
  do 4 (apply in_or_app; right). apply in_or_app. left.
  rewrite Hraw. cbn [optional fst]. unfold arrayOf.
  apply in_flat_map. exists (i, m). split; [now apply indexed_nth|].
  cbn [fst snd app]. unfold intBetween.
  destruct (Z.ltb_spec m 1); [now left|].
  destruct (Z.ltb_spec 12 m); [now left|lia].
Qed.

(** X21.  For an object the schema accepted, the fallbacks of the encoder
    ([|| 1] and [if (count)]) never apply: the rule text, read back, has
    the validated interval and count. *)
Theorem accepted_recurrence_is_encoded_unchanged (raw : Raw)
  (p : RecurrenceArg) (now now' start : Z) :
  recurrenceInputSchema raw = inr p ->
  EncodableInput now (helperInput start p) ->
  exists s rule,
    generateRecurrenceRuleString now (helperInput start p) = Ok s
    /\ RRule.rrulestr now' s = Ok rule
    /\ Some (RRule.pinterval (RRule.options rule)) = argInterval p
    /\ RRule.pcount (RRule.options rule) = argCount p
    /\ 1 <= RRule.pinterval (RRule.options rule).
Proof.
  intros H Hin.
  destruct (recurrenceInputSchema_inr raw p H)
    as (_ & (i & Hi & Hpos & _) & _ & _ & _ & _ & _ & Hcp & _).
  destruct (rule_text_read_back now now' _ Hin)
    as (s & rule & Hs & Hr & _ & _ & Hint & _ & Hcount & _).
  exists s, rule. split; [exact Hs|]. split; [exact Hr|].
  cbn [helperInput interval count] in Hint, Hcount.
  rewrite Hi in Hint. cbn [orOne] in Hint.
  destruct (Z.eqb_spec i 0) as [->|_]; [lia|].
  rewrite Hint, Hi. split; [reflexivity|]. split; [|exact Hpos].
  rewrite Hcount. destruct (argCount p) as [c|]; [|reflexivity].
  cbn [truthyNumber]. specialize (Hcp c eq_refl).
  destruct (Z.eqb_spec c 0); [lia|reflexivity].
Qed.

End SchemaTheorems.

Import RecurrenceInputSchema.

Lemma accepted_recurrence_is_in_range_witness :
  argInterval Sample.weeklyArg = Some 1
  /\ rawInterval Cases.weeklyRaw = Absent
  /\ rawCount Cases.weeklyRaw = given (argCount Sample.weeklyArg).
Proof.
  destruct (accepted_recurrence_is_in_range Cases.weeklyRaw Sample.weeklyArg)
    as (_ & (i & Hi & _ & Hraw) & _ & _ & _ & Hc & _).
  - reflexivity.
  - split; [reflexivity|]. split; [reflexivity|exact Hc].
Defined.

Lemma validation_is_idempotent_witness :
  recurrenceInputSchema (rawOf Sample.weeklyArg) = inr Sample.weeklyArg.
Proof.
  apply (validation_is_idempotent Cases.weeklyRaw Sample.weeklyArg).
  reflexivity.
Defined.

Lemma month_out_of_range_is_reported_witness :
  exists issues,
    recurrenceInputSchema Cases.thirteenthMonthRaw = inl issues
    /\ In (mkZodIssue too_big [Key "byMonth"; Index 1]) issues.
Proof.
  apply (month_out_of_range_is_reported Cases.thirteenthMonthRaw [2; 13]
           1%nat 13).
  - reflexivity.
  - reflexivity.
  - right. lia.
Defined.

Lemma accepted_recurrence_is_encoded_unchanged_witness :
  exists s rule,
    generateRecurrenceRuleString (Sample.jan2024 1) Cases.weeklyHelperInput
    = Ok s
    /\ RRule.rrulestr 0 s = Ok rule
    /\ Some (RRule.pinterval (RRule.options rule)) = Some 1
    /\ RRule.pcount (RRule.options rule) = Some 6.
Proof.
  destruct (accepted_recurrence_is_encoded_unchanged Cases.weeklyRaw
              Sample.weeklyArg (Sample.jan2024 1) 0 (Sample.jan2024 1))
    as (s & rule & Hs & Hr & Hint & Hcount & _).
  - reflexivity.
  - exact weekly_sample_encodable.
  - exists s, rule. auto.
Defined.
